(** * The debug editor contribution

    A shallow embedding of
    [src/vs/workbench/contrib/debug/browser/debugEditorContribution.ts]:
    the per-editor controller that keeps hover widgets, the exception
    widget and inline value decorations in step with the debugger.

    Conventions of the embedding.
    - JS numbers that hold line numbers, columns and offsets are [Z];
      lengths and timer delays (milliseconds) are [nat].
    - JS strings are [string]; [Map] objects are insertion-ordered
      association lists ([JsMap]), because [forEach] visits them in
      insertion order.
    - A method of the class is a computation in the monad [M]: it threads
      the [World] (host state, the fields of the contribution, the trace
      of host calls) and ends either normally or by throwing.
    - An [async] method is the same kind of computation: its outcome
      [Throw e] is the rejection of the promise it returns.  An [await]
      resumes at once (the awaited host promises are settled values of
      the model); a call of an async method whose promise is dropped is
      [detach]. *)

From Stdlib Require Import List String Ascii ZArith Lia Bool Arith.
Import ListNotations.

Set Implicit Arguments.

(** ** Constants of the module (lines 38-43) *)

Definition HOVER_DELAY : nat := 300.
Definition INLINE_VALUE_DECORATION_KEY : string := "inlinevaluedecoration".
Definition MAX_NUM_INLINE_VALUES : nat := 100.
Definition MAX_INLINE_DECORATOR_LENGTH : nat := 150.
Definition MAX_TOKENIZATION_LINE_LEN : nat := 500.

(** ** Values of the host framework *)

Record Position := mkPosition { lineNumber : Z; column : Z }.

Record Range := mkRange {
  startLineNumber : Z;
  startColumn : Z;
  endLineNumber : Z;
  endColumn : Z
}.

Inductive StandardTokenType :=
| TokenOther | TokenComment | TokenString | TokenRegEx.

Record Token := mkToken {
  tokenStartOffset : nat;
  tokenEndOffset : nat;
  tokenType : StandardTokenType
}.

(** One line of a text model: its content and the tokens the host's
    tokenizer yields for it ([getLineTokens]). *)
Record Line := mkLine { lineContent : string; lineTokens : list Token }.

Record TextModel := mkTextModel {
  uri : string;
  language : string;
  modelLines : list Line
}.

Record Expression := mkExpression { name : string; value : string }.

Record Scope := mkScope {
  scopeRange : option Range;
  scopeChildren : list Expression
}.

Record Source := mkSource {
  sourceUri : string;
  available : bool;
  presentationHint : option string
}.

Record ExceptionInfo := mkExceptionInfo {
  exceptionId : string;
  exceptionDescription : string
}.

(** A stack frame as an entry of a call stack.  [frameRef] stands for the
    identity of the JS object: [!==] on frames compares it. *)
Record Frame := mkFrame {
  frameRef : nat;
  source : Source;
  frameRange : Range;
  frameScopes : list Scope
}.

Record Thread := mkThread {
  callStack : list Frame;
  exceptionInfo : option ExceptionInfo
}.

Record StackFrame := mkStackFrame { frame : Frame; thread : Thread }.

Inductive State := Inactive | Initializing | Stopped | Running.

Inductive MouseTargetType :=
| UNKNOWN | TEXTAREA | GUTTER_GLYPH_MARGIN | GUTTER_LINE_NUMBERS
| GUTTER_LINE_DECORATIONS | GUTTER_VIEW_ZONE | CONTENT_TEXT | CONTENT_EMPTY
| CONTENT_VIEW_ZONE | CONTENT_WIDGET | OVERVIEW_RULER | SCROLLBAR
| OVERLAY_WIDGET | OUTSIDE_EDITOR.

Record MouseTarget := mkMouseTarget {
  targetType : MouseTargetType;
  targetDetail : option string;
  targetPosition : option Position;
  targetRange : option Range
}.

Record BrowserMouseEvent := mkBrowserMouseEvent {
  posx : Z;
  posy : Z;
  metaKey : bool;
  ctrlKey : bool
}.

Record EditorMouseEvent := mkEditorMouseEvent {
  target : MouseTarget;
  event : BrowserMouseEvent
}.

Inductive KeyCode := KeyCode_Ctrl | KeyCode_Meta | KeyCode_Other (code : nat).

Record ClientRect := mkClientRect {
  rectLeft : Z; rectRight : Z; rectTop : Z; rectBottom : Z
}.

Record HoverOptions := mkHoverOptions {
  hoverEnabled : bool;
  hoverDelay : option nat;
  hoverSticky : option bool
}.

Inductive CancellationToken := CancellationToken_None.

(** The decoration object built by [createInlineValueDecoration]. *)
Record AfterOptions := mkAfterOptions {
  contentText : string;
  backgroundColor : string;
  margin : string
}.

Record RenderOptions := mkRenderOptions {
  after : AfterOptions;
  darkAfterColor : string;
  lightAfterColor : string
}.

Record DecorationOptions := mkDecorationOptions {
  range : Range;
  renderOptions : RenderOptions
}.

(** Events of the JSON visitor ([visit] of [vs/base/common/json]), as far
    as the callbacks of [addLaunchConfiguration] listen to them. *)
Inductive JsonEvent :=
| OnObjectProperty (property : string)
| OnArrayBegin (offset : Z)
| OnArrayEnd.

(** Pieces of the host framework that the module imports and whose code
    is not part of the sources: they are parameters of the embedding. *)
Record Platform := mkPlatform {
  (** [Constants.MAX_SAFE_SMALL_INTEGER] of [vs/base/common/uint] *)
  MAX_SAFE_SMALL_INTEGER : Z;
  (** [DebugHoverWidget.ID] and [EDITOR_CONTRIBUTION_ID] *)
  DebugHoverWidget_ID : string;
  EDITOR_CONTRIBUTION_ID : string;
  (** [env.isMacintosh] *)
  isMacintosh : bool;
  (** [new Range(...)], [setStartPosition], [containsPosition],
      [equalsRange] of [vs/editor/common/core/range] *)
  Range_new : Z -> Z -> Z -> Z -> Range;
  Range_setStartPosition : Range -> Z -> Z -> Range;
  Range_containsPosition : Range -> Position -> bool;
  Range_equalsRange : Range -> option Range -> bool;
  (** [DEFAULT_WORD_REGEXP.exec(s)] with [lastIndex = 0]: the first match *)
  DEFAULT_WORD_REGEXP_exec : string -> option string;
  (** [visit(text, visitor)]: the visitor events of a JSON text, in order *)
  json_visit : string -> list JsonEvent;
  (** [model.getValue()], [model.getPositionAt(offset)],
      [model.getLineLastNonWhitespaceColumn(line)] *)
  getValue : TextModel -> string;
  getPositionAt : TextModel -> Z -> Position;
  getLineLastNonWhitespaceColumn : TextModel -> Z -> Z;
  (** [nls.localize(key, default)] *)
  localize : string -> string -> string
}.

(** ** JS containers *)

(** A JS [Map]: [set] on a present key replaces the value in place, on a
    new key appends; [size] counts the entries. *)
Section JsMap.
Variables K V : Type.
Variable eqb : K -> K -> bool.

Definition JsMap := list (K * V).

Fixpoint Map_get (m : JsMap) (k : K) : option V :=
  match m with
  | [] => None
  | (k', v) :: rest => if eqb k' k then Some v else Map_get rest k
  end.

Definition Map_has (m : JsMap) (k : K) : bool :=
  match Map_get m k with Some _ => true | None => false end.

Fixpoint Map_set (m : JsMap) (k : K) (v : V) : JsMap :=
  match m with
  | [] => [(k, v)]
  | (k', v') :: rest =>
      if eqb k' k then (k', v) :: rest else (k', v') :: Map_set rest k v
  end.

Definition Map_size (m : JsMap) : nat := List.length m.

Definition Map_keys (m : JsMap) : list K := map fst m.
End JsMap.

Arguments Map_get {K V} eqb m k.
Arguments Map_has {K V} eqb m k.
Arguments Map_set {K V} eqb m k v.
Arguments Map_size {K V} m.
Arguments Map_keys {K V} m.

(** [Array.prototype.indexOf] on an array of strings: [-1] when absent. *)
Fixpoint Array_indexOf (l : list string) (x : string) : Z :=
  match l with
  | [] => (-1)%Z
  | y :: rest =>
      if String.eqb y x then 0%Z
      else let i := Array_indexOf rest x in
           if (i <? 0)%Z then (-1)%Z else (i + 1)%Z
  end.

(** [String.prototype.indexOf]: the first index of [sub] in [s], or [-1]. *)
Definition String_indexOf (s sub : string) : Z :=
  match String.index 0 sub s with
  | Some n => Z.of_nat n
  | None => (-1)%Z
  end.

(** [String.prototype.substring(a, b)] for non-negative integers: both
    ends are clamped to the length and swapped when out of order. *)
Definition String_substring (s : string) (a b : nat) : string :=
  let a' := Nat.min a (String.length s) in
  let b' := Nat.min b (String.length s) in
  String.substring (Nat.min a' b') (Nat.max a' b' - Nat.min a' b') s.

(** [String.prototype.substr(0, n)]. *)
Definition String_substr0 (s : string) (n : nat) : string :=
  String.substring 0 n s.

(** [Array.prototype.sort(cmp)], as a stable insertion sort: an element
    goes before the first one it compares strictly less than. *)
Section ArraySort.
Variable A : Type.
Variable cmp : A -> A -> Z.

Fixpoint sort_insert (x : A) (l : list A) : list A :=
  match l with
  | [] => [x]
  | y :: rest =>
      if (cmp x y <? 0)%Z then x :: y :: rest else y :: sort_insert x rest
  end.

Definition Array_sort (l : list A) : list A :=
  fold_left (fun acc x => sort_insert x acc) l [].
End ArraySort.

(** [Array.prototype.join(sep)]. *)
Fixpoint Array_join (sep : string) (l : list string) : string :=
  match l with
  | [] => EmptyString
  | [x] => x
  | x :: rest => (x ++ sep ++ Array_join sep rest)%string
  end.

(** [first(array, fn, undefined)] of [vs/base/common/arrays]. *)
Definition first {A : Type} (l : list A) (fn : A -> bool) : option A :=
  List.find fn l.

(** [LAUNCH_JSON_REGEX.test(s)] for [/launch\.json$/] (line 39): [s] ends
    with the eleven characters of [launch.json]. *)
Definition LAUNCH_JSON_REGEX_test (s : string) : bool :=
  let n := String.length s in
  (11 <=? n) && String.eqb (String.substring (n - 11) 11 s) "launch.json".

(** ** The world: host state, contribution state, trace *)

Definition Exn := string.

(** The five memoized schedulers of the class (lines 170-204, 370-384). *)
Inductive SchedulerId :=
| ShowHover | HideHover | ProvideNonDebugHover
| RemoveInlineValues | UpdateInlineValues.

Definition SchedulerId_eqb (a b : SchedulerId) : bool :=
  match a, b with
  | ShowHover, ShowHover | HideHover, HideHover
  | ProvideNonDebugHover, ProvideNonDebugHover
  | RemoveInlineValues, RemoveInlineValues
  | UpdateInlineValues, UpdateInlineValues => true
  | _, _ => false
  end.

(** The events [registerListeners] subscribes to (lines 77-118). *)
Inductive EventKind :=
| OnDidFocusStackFrame | OnMouseDown | OnMouseUp | OnMouseMove
| OnMouseLeave | OnKeyDown | OnDidChangeModelContent | OnDidChangeModel
| OnDidScrollChange | OnDidChangeState.

Definition EventKind_eqb (a b : EventKind) : bool :=
  match a, b with
  | OnDidFocusStackFrame, OnDidFocusStackFrame | OnMouseDown, OnMouseDown
  | OnMouseUp, OnMouseUp | OnMouseMove, OnMouseMove
  | OnMouseLeave, OnMouseLeave | OnKeyDown, OnKeyDown
  | OnDidChangeModelContent, OnDidChangeModelContent
  | OnDidChangeModel, OnDidChangeModel
  | OnDidScrollChange, OnDidScrollChange
  | OnDidChangeState, OnDidChangeState => true
  | _, _ => false
  end.

(** What [toDispose] holds. *)
Inductive Disposable :=
| ListenerOf (k : EventKind)
| SchedulerOf (s : SchedulerId)
| ClickListener.

(** Calls into the host framework, with the arguments they receive.  Each
    call of a method is logged in the trace and may throw. *)
Inductive HostCall :=
| InstantiationService_createDebugHoverWidget
| CodeEditorService_registerDecorationType (key : string)
| Host_addListener (k : EventKind)
| HoverWidget_getDomNode
| DomNode_getBoundingClientRect
| ViewModel_focusedStackFrame
| ViewModel_focusedSession
| Editor_getModel
| Editor_hasModel
| Editor_updateOptions (hover : HoverOptions)
| Editor_getOption_readOnly
| Editor_revealLine (line : Z)
| Editor_focus
| Editor_setPosition (p : Position)
| Editor_removeDecorations (key : string)
| Editor_setDecorations (key : string) (decorations : list DecorationOptions)
| ConfigurationService_getValue_editorHover (resource overrideIdentifier : string)
| ConfigurationService_getValue_debug
| HoverWidget_showAt (r : Range) (focus : bool)
| HoverWidget_isHovered
| HoverWidget_isVisible
| HoverWidget_hide
| HoverWidget_dispose
| GetHover (model : TextModel) (p : Position) (token : CancellationToken)
| DebugService_state
| Thread_getCallStack
| Thread_exceptionInfo
| ExceptionWidget_dispose
| InstantiationService_createExceptionWidget
    (info : ExceptionInfo) (session : option nat)
| ExceptionWidget_show (line col : Z)
| ConfigurationWidget_dispose
| InstantiationService_createFloatingClickWidget (label : string)
| ConfigurationWidget_render
| ConfigurationWidget_onClick
| TelemetryService_publicLog (eventName : string)
| Json_visit
| LineBreakInsert_runEditorCommand
| CommandService_executeCommand (id : string)
| StackFrame_getMostSpecificScopes (r : Range)
| Scope_getChildren
| Model_forceTokenization (line : nat)
| Listener_dispose (k : EventKind)
| ClickListener_dispose.

(** State owned by the host.  The contribution reads it through host
    calls and never writes it; the host changes it between events.
    [faults n c] tells whether the call [c], made as the [n]-th host call
    of the run, throws. *)
Record Host := mkHost {
  editor_model : option TextModel;
  editor_readOnly : bool;
  debug_state : State;
  focusedStackFrame : option StackFrame;
  focusedSession : option nat;
  debug_enableAllHovers : bool;
  debug_inlineValues : bool;
  editor_hover : HoverOptions;
  hover_domNode : option ClientRect;
  hover_isHovered : bool;
  hover_isVisible : bool;
  faults : nat -> HostCall -> option Exn
}.

(** Modelled from the spec: [RunOnceScheduler] of [vs/base/common/async]
    is not part of the sources.  The spec describes these objects as
    debounce timers whose only cancellation is cancelling the pending
    timer: a scheduler holds at most one pending timeout ([timeoutToken],
    here the milliseconds left), [schedule] replaces it by a fresh one,
    [cancel] clears it, and when it elapses the runner runs once. *)
Record RunOnceScheduler := mkScheduler {
  timeoutToken : option nat;
  hasRunner : bool
}.

Definition RunOnceScheduler_new : RunOnceScheduler :=
  {| timeoutToken := None; hasRunner := true |}.

Definition RunOnceScheduler_isScheduled (s : RunOnceScheduler) : bool :=
  match timeoutToken s with Some _ => true | None => false end.

Definition RunOnceScheduler_cancel (s : RunOnceScheduler) : RunOnceScheduler :=
  {| timeoutToken := None; hasRunner := hasRunner s |}.

Definition RunOnceScheduler_schedule (delay : nat) (s : RunOnceScheduler)
  : RunOnceScheduler :=
  {| timeoutToken := Some delay; hasRunner := hasRunner s |}.

Definition RunOnceScheduler_dispose (s : RunOnceScheduler) : RunOnceScheduler :=
  {| timeoutToken := None; hasRunner := false |}.

Inductive DebugHoverWidget := TheDebugHoverWidget.

Record ExceptionWidget := mkExceptionWidget {
  widgetInfo : ExceptionInfo;
  widgetSession : option nat
}.

Record FloatingClickWidget := mkFloatingClickWidget { widgetLabel : string }.

Definition WordMap := JsMap string (list Position).

(** The fields of [DebugEditorContribution] (lines 47-57); [schedulers]
    holds what the [@memoize] getters have created so far. *)
Record Contribution := mkContribution {
  toDispose : list Disposable;
  hoverWidget : option DebugHoverWidget;
  nonDebugHoverPosition : option Position;
  hoverRange : option Range;
  mouseDown : bool;
  wordToLineNumbersMap : option WordMap;
  exceptionWidget : option ExceptionWidget;
  configurationWidget : option FloatingClickWidget;
  schedulers : SchedulerId -> option RunOnceScheduler
}.

(** [updatePasses] counts the entries into [updateInlineValueDecorations];
    [unhandled] collects what nobody awaits: rejections of dropped
    promises, and exceptions of listeners and timer callbacks. *)
Record World := mkWorld {
  host : Host;
  self : Contribution;
  trace : list HostCall;
  unhandled : list Exn;
  updatePasses : nat
}.

Definition set_toDispose v c :=
  mkContribution v (hoverWidget c) (nonDebugHoverPosition c) (hoverRange c)
    (mouseDown c) (wordToLineNumbersMap c) (exceptionWidget c)
    (configurationWidget c) (schedulers c).
Definition set_hoverWidget v c :=
  mkContribution (toDispose c) v (nonDebugHoverPosition c) (hoverRange c)
    (mouseDown c) (wordToLineNumbersMap c) (exceptionWidget c)
    (configurationWidget c) (schedulers c).
Definition set_nonDebugHoverPosition v c :=
  mkContribution (toDispose c) (hoverWidget c) v (hoverRange c)
    (mouseDown c) (wordToLineNumbersMap c) (exceptionWidget c)
    (configurationWidget c) (schedulers c).
Definition set_hoverRange v c :=
  mkContribution (toDispose c) (hoverWidget c) (nonDebugHoverPosition c) v
    (mouseDown c) (wordToLineNumbersMap c) (exceptionWidget c)
    (configurationWidget c) (schedulers c).
Definition set_mouseDown v c :=
  mkContribution (toDispose c) (hoverWidget c) (nonDebugHoverPosition c)
    (hoverRange c) v (wordToLineNumbersMap c) (exceptionWidget c)
    (configurationWidget c) (schedulers c).
Definition set_wordToLineNumbersMap v c :=
  mkContribution (toDispose c) (hoverWidget c) (nonDebugHoverPosition c)
    (hoverRange c) (mouseDown c) v (exceptionWidget c)
    (configurationWidget c) (schedulers c).
Definition set_exceptionWidget v c :=
  mkContribution (toDispose c) (hoverWidget c) (nonDebugHoverPosition c)
    (hoverRange c) (mouseDown c) (wordToLineNumbersMap c) v
    (configurationWidget c) (schedulers c).
Definition set_configurationWidget v c :=
  mkContribution (toDispose c) (hoverWidget c) (nonDebugHoverPosition c)
    (hoverRange c) (mouseDown c) (wordToLineNumbersMap c) (exceptionWidget c)
    v (schedulers c).
Definition set_schedulers v c :=
  mkContribution (toDispose c) (hoverWidget c) (nonDebugHoverPosition c)
    (hoverRange c) (mouseDown c) (wordToLineNumbersMap c) (exceptionWidget c)
    (configurationWidget c) v.

Definition set_scheduler (id : SchedulerId) (s : RunOnceScheduler)
  (c : Contribution) : Contribution :=
  set_schedulers
    (fun id' => if SchedulerId_eqb id' id then Some s else schedulers c id') c.

Definition push_toDispose (d : Disposable) (c : Contribution) : Contribution :=
  set_toDispose (toDispose c ++ [d]) c.

(** ** The monad of methods *)

Inductive Outcome (A : Type) :=
| Ok (a : A)
| Throw (e : Exn).

Arguments Ok {A} a.
Arguments Throw {A} e.

Definition M (A : Type) := World -> Outcome A * World.

Definition ret {A} (a : A) : M A := fun w => (Ok a, w).

Definition bind {A B} (m : M A) (k : A -> M B) : M B :=
  fun w =>
    match m w with
    | (Ok a, w') => k a w'
    | (Throw e, w') => (Throw e, w')
    end.

Declare Scope m_scope.
Delimit Scope m_scope with m.
Notation "x <- m ;; k" := (bind m (fun x => k))
  (at level 61, m at next level, right associativity) : m_scope.
Notation "m ;; k" := (bind m (fun _ => k))
  (at level 61, right associativity) : m_scope.
Open Scope m_scope.

(** Reading the fields of [this]. *)
Definition this {A} (f : Contribution -> A) : M A :=
  fun w => (Ok (f (self w)), w).

(** Assigning to the fields of [this]. *)
Definition assign (f : Contribution -> Contribution) : M unit :=
  fun w =>
    (Ok tt, mkWorld (host w) (f (self w)) (trace w) (unhandled w)
              (updatePasses w)).

(** A host call: logged, and it throws when the host says so. *)
Definition call (c : HostCall) : M unit :=
  fun w =>
    let w' := mkWorld (host w) (self w) (c :: trace w) (unhandled w)
                (updatePasses w) in
    match faults (host w) (List.length (trace w)) c with
    | Some e => (Throw e, w')
    | None => (Ok tt, w')
    end.

(** A host call that returns a value of the host state. *)
Definition ask {A} (c : HostCall) (f : Host -> A) : M A :=
  call c ;; fun w => (Ok (f (host w)), w).

(** A computation nobody waits for: the caller goes on, a failure ends
    up with the host's handler for unexpected errors. *)
Definition detach {A} (m : M A) : M unit :=
  fun w =>
    match m w with
    | (Ok _, w') => (Ok tt, w')
    | (Throw e, w') =>
        (Ok tt, mkWorld (host w') (self w') (trace w') (e :: unhandled w')
                  (updatePasses w'))
    end.

Definition countPass : M unit :=
  fun w =>
    (Ok tt, mkWorld (host w) (self w) (trace w) (unhandled w)
              (S (updatePasses w))).

Definition when (b : bool) (m : M unit) : M unit :=
  if b then m else ret tt.

(** [for (const x of l) body(x)]. *)
Fixpoint forEach {A} (l : list A) (body : A -> M unit) : M unit :=
  match l with
  | [] => ret tt
  | x :: rest => body x ;; forEach rest body
  end.

(** [await Promise.all(l.map(async x => f(x)))]. *)
Fixpoint mapM {A B} (f : A -> M B) (l : list A) : M (list B) :=
  match l with
  | [] => ret []
  | x :: rest => y <- f x ;; ys <- mapM f rest ;; ret (y :: ys)
  end.

(** ** The methods of [DebugEditorContribution] *)

Section Methods.
Variable P : Platform.

(** *** The memoized schedulers (lines 170-204, 370-384) *)

Definition scheduler_timeout (id : SchedulerId) : nat :=
  match id with
  | ShowHover => HOVER_DELAY
  | HideHover => 2 * HOVER_DELAY
  | ProvideNonDebugHover => HOVER_DELAY
  | RemoveInlineValues => 100
  | UpdateInlineValues => 200
  end.

(** The three hover getters push the new scheduler on [toDispose]. *)
Definition scheduler_isDisposed (id : SchedulerId) : bool :=
  match id with
  | ShowHover | HideHover | ProvideNonDebugHover => true
  | RemoveInlineValues | UpdateInlineValues => false
  end.

(** The getter [this.<id>Scheduler]: creates the scheduler on first use. *)
Definition scheduler (id : SchedulerId) : M RunOnceScheduler :=
  memo <- this (fun c => schedulers c id) ;;
  match memo with
  | Some s => ret s
  | None =>
      when (scheduler_isDisposed id)
        (assign (push_toDispose (SchedulerOf id))) ;;
      assign (set_scheduler id RunOnceScheduler_new) ;;
      ret RunOnceScheduler_new
  end.

Definition isScheduled (id : SchedulerId) : M bool :=
  s <- scheduler id ;;
  ret (RunOnceScheduler_isScheduled s).

Definition schedule (id : SchedulerId) : M unit :=
  s <- scheduler id ;;
  assign (set_scheduler id
            (RunOnceScheduler_schedule (scheduler_timeout id) s)).

Definition cancel (id : SchedulerId) : M unit :=
  s <- scheduler id ;;
  assign (set_scheduler id (RunOnceScheduler_cancel s)).

(** *** Hover configuration and the debug hover (lines 121-168, 206-212) *)

Definition _applyHoverConfiguration (model : TextModel)
  (stackFrame : option StackFrame) : M unit :=
  match stackFrame with
  | Some sf =>
      if String.eqb (uri model) (sourceUri (source (frame sf))) then
        call (Editor_updateOptions (mkHoverOptions false None None))
      else
        defaultConfiguration <-
          ask (ConfigurationService_getValue_editorHover
                 (uri model) (language model)) editor_hover ;;
        call (Editor_updateOptions defaultConfiguration)
  | None =>
      defaultConfiguration <-
        ask (ConfigurationService_getValue_editorHover
               (uri model) (language model)) editor_hover ;;
      call (Editor_updateOptions defaultConfiguration)
  end.

Definition showHover (r : Range) (focus : bool) : M unit :=
  sf <- ask ViewModel_focusedStackFrame focusedStackFrame ;;
  model <- ask Editor_getModel editor_model ;;
  match sf, model with
  | Some sf, Some model =>
      if String.eqb (sourceUri (source (frame sf))) (uri model) then
        call (HoverWidget_showAt r focus)
      else ret tt
  | _, _ => ret tt
  end.

Definition hideHoverWidget : M unit :=
  scheduled <- isScheduled HideHover ;;
  (if negb scheduled then
     visible <- ask HoverWidget_isVisible hover_isVisible ;;
     when visible (schedule HideHover)
   else ret tt) ;;
  cancel ShowHover ;;
  cancel ProvideNonDebugHover.

(** *** The exception widget (lines 262-305) *)

Definition closeExceptionWidget : M unit :=
  widget <- this exceptionWidget ;;
  match widget with
  | Some _ =>
      call ExceptionWidget_dispose ;;
      assign (set_exceptionWidget None)
  | None => ret tt
  end.

Definition showExceptionWidget (info : ExceptionInfo)
  (debugSession : option nat) (line col : Z) : M unit :=
  widget <- this exceptionWidget ;;
  match widget with
  | Some _ => call ExceptionWidget_dispose
  | None => ret tt
  end ;;
  call (InstantiationService_createExceptionWidget info debugSession) ;;
  assign (set_exceptionWidget (Some (mkExceptionWidget info debugSession))) ;;
  call (ExceptionWidget_show line col) ;;
  call (Editor_revealLine line).

(** The predicate handed to [first] at line 273. *)
Definition isExceptionFrame (sf : Frame) : bool :=
  available (source sf) &&
  negb (match presentationHint (source sf) with
        | Some hint => String.eqb hint "deemphasize"
        | None => false
        end).

(** A JS number used as a condition: [0] is falsy. *)
Definition truthy (n : Z) : bool := negb (n =? 0)%Z.

Definition toggleExceptionWidget : M unit :=
  model <- ask Editor_getModel editor_model ;;
  focusedSf <- ask ViewModel_focusedStackFrame focusedStackFrame ;;
  callStack <-
    match focusedSf with
    | Some sf => stack <- ask Thread_getCallStack (fun _ => callStack (thread sf)) ;;
                 ret (Some stack)
    | None => ret None
    end ;;
  match model, focusedSf, callStack with
  | Some model, Some focusedSf, Some (sf0 :: stack) =>
      match first (sf0 :: stack) isExceptionFrame with
      | Some exceptionSf =>
          if Nat.eqb (frameRef exceptionSf) (frameRef (frame focusedSf)) then
            let sameUri :=
              String.eqb (sourceUri (source exceptionSf)) (uri model) in
            widget <- this exceptionWidget ;;
            match widget, sameUri with
            | Some _, false => closeExceptionWidget
            | _, true =>
                info <- ask Thread_exceptionInfo
                          (fun _ => exceptionInfo (thread focusedSf)) ;;
                match info with
                | Some info =>
                    if truthy (startLineNumber (frameRange exceptionSf)) &&
                       truthy (startColumn (frameRange exceptionSf))
                    then
                      session <- ask ViewModel_focusedSession focusedSession ;;
                      showExceptionWidget info session
                        (startLineNumber (frameRange exceptionSf))
                        (startColumn (frameRange exceptionSf))
                    else ret tt
                | None => ret tt
                end
            | None, false => ret tt
            end
          else closeExceptionWidget
      | None => closeExceptionWidget
      end
  | _, _, _ => closeExceptionWidget
  end.

(** *** Inline value decorations (lines 386-535) *)

Definition createInlineValueDecoration (line : Z) (text : string)
  : DecorationOptions :=
  let text :=
    if MAX_INLINE_DECORATOR_LENGTH <? String.length text
    then (String_substr0 text MAX_INLINE_DECORATOR_LENGTH ++ "...")%string
    else text in
  {| range :=
       {| startLineNumber := line;
          startColumn := MAX_SAFE_SMALL_INTEGER P;
          endLineNumber := line;
          endColumn := MAX_SAFE_SMALL_INTEGER P |};
     renderOptions :=
       {| after :=
            {| contentText := text;
               backgroundColor := "rgba(255, 200, 0, 0.2)";
               margin := "10px" |};
          darkAfterColor := "rgba(255, 255, 255, 0.5)";
          lightAfterColor := "rgba(0, 0, 0, 0.5)" |} |}.

(** What the body of the token loop (lines 511-529) does to the map. *)
Definition addTokenWord (line : nat) (content : string) (m : WordMap)
  (t : Token) : WordMap :=
  let tokenStr :=
    String_substring content (tokenStartOffset t) (tokenEndOffset t) in
  match tokenType t with
  | TokenOther =>
      match DEFAULT_WORD_REGEXP_exec P tokenStr with
      | Some word =>
          let m1 :=
            if Map_has String.eqb m word then m
            else Map_set String.eqb m word [] in
          match Map_get String.eqb m1 word with
          | Some positions =>
              Map_set String.eqb m1 word
                (positions ++
                 [mkPosition (Z.of_nat line) (Z.of_nat (tokenStartOffset t))])
          | None => m1
          end
      | None => m
      end
  | _ => m
  end.

Definition addLineWords (line : nat) (l : Line) (m : WordMap) : WordMap :=
  fold_left (addTokenWord line (lineContent l)) (lineTokens l) m.

(** The loop over the lines (lines 500-531), from line [line] on, working
    on the map held in [this.wordToLineNumbersMap]. *)
Fixpoint wordsOfLines (line : nat) (lines : list Line) : M unit :=
  match lines with
  | [] => ret tt
  | l :: rest =>
      (if MAX_TOKENIZATION_LINE_LEN <? String.length (lineContent l)
       then ret tt
       else
         call (Model_forceTokenization line) ;;
         assign (fun c =>
           match wordToLineNumbersMap c with
           | Some m => set_wordToLineNumbersMap (Some (addLineWords line l m)) c
           | None => c
           end)) ;;
      wordsOfLines (S line) rest
  end.

Definition getWordToPositionsMap : M WordMap :=
  cached <- this wordToLineNumbersMap ;;
  match cached with
  | Some m => ret m
  | None =>
      assign (set_wordToLineNumbersMap (Some [])) ;;
      model <- ask Editor_getModel editor_model ;;
      match model with
      | None => ret []
      | Some model =>
          wordsOfLines 1 (modelLines model) ;;
          m <- this wordToLineNumbersMap ;;
          ret (match m with Some m => m | None => [] end)
      end
  end.

(** The loop of lines 416-422. *)
Fixpoint nameValueLoop (m : JsMap string string) (expressions : list Expression)
  : JsMap string string :=
  match expressions with
  | [] => m
  | expr :: rest =>
      let m' := Map_set String.eqb m (name expr) (value expr) in
      if MAX_NUM_INLINE_VALUES <=? Map_size m' then m'
      else nameValueLoop m' rest
  end.

Definition buildNameValueMap (expressions : list Expression)
  : JsMap string string :=
  nameValueLoop [] expressions.

Definition LineMap := JsMap Z (list string).

(** The body of the loop over the positions of a name (lines 432-440). *)
Definition addNameAt (r : Range) (nm : string) (m : LineMap) (p : Position)
  : LineMap :=
  if Range_containsPosition P r p then
    let m1 :=
      if Map_has Z.eqb m (lineNumber p) then m
      else Map_set Z.eqb m (lineNumber p) [] in
    match Map_get Z.eqb m1 (lineNumber p) with
    | Some names =>
        if (Array_indexOf names nm =? -1)%Z
        then Map_set Z.eqb m1 (lineNumber p) (names ++ [nm])
        else m1
    | None => m1
    end
  else m.

(** The [forEach] over [nameValueMap] (lines 428-443). *)
Definition buildLineToNamesMap (nameValueMap : JsMap string string)
  (wordToPositionsMap : WordMap) (r : Range) : LineMap :=
  fold_left
    (fun m entry =>
       match Map_get String.eqb wordToPositionsMap (fst entry) with
       | Some positions => fold_left (addNameAt r (fst entry)) positions m
       | None => m
       end)
    nameValueMap [].

(** [model.getLineContent(line)]. *)
Definition getLineContent (model : TextModel) (line : Z) : string :=
  nth (Z.to_nat line - 1) (map lineContent (modelLines model)) EmptyString.

(** The text of the decoration of one line (lines 448-451). *)
Definition lineContentText (model : TextModel)
  (nameValueMap : JsMap string string) (line : Z) (names : list string)
  : string :=
  let content := getLineContent model line in
  let sorted :=
    Array_sort
      (fun a b => (String_indexOf content a - String_indexOf content b)%Z)
      names in
  Array_join ", "
    (map (fun nm =>
            (nm ++ " = " ++
             match Map_get String.eqb nameValueMap nm with
             | Some v => v
             | None => "undefined"
             end)%string)
       sorted).

Definition createInlineValueDecorationsInsideRange
  (expressions : list Expression) (r : Range) (model : TextModel)
  : M (list DecorationOptions) :=
  let nameValueMap := buildNameValueMap expressions in
  wordToPositionsMap <- getWordToPositionsMap ;;
  let lineToNamesMap :=
    buildLineToNamesMap nameValueMap wordToPositionsMap r in
  ret (map (fun entry =>
              createInlineValueDecoration (fst entry)
                (lineContentText model nameValueMap (fst entry) (snd entry)))
         lineToNamesMap).

Definition updateInlineValueDecorations (stackFrame : option StackFrame)
  : M unit :=
  countPass ;;
  model <- ask Editor_getModel editor_model ;;
  inlineValues <- ask ConfigurationService_getValue_debug debug_inlineValues ;;
  let proceed :=
    match model, stackFrame with
    | Some model, Some sf =>
        if inlineValues &&
           String.eqb (uri model) (sourceUri (source (frame sf)))
        then Some (model, sf) else None
    | _, _ => None
    end in
  match proceed with
  | None =>
      scheduled <- isScheduled RemoveInlineValues ;;
      when (negb scheduled) (schedule RemoveInlineValues)
  | Some (model, sf) =>
      cancel RemoveInlineValues ;;
      scopes <- ask (StackFrame_getMostSpecificScopes (frameRange (frame sf)))
                  (fun _ => frameScopes (frame sf)) ;;
      decorationsPerScope <-
        mapM (fun scope =>
                children <- ask Scope_getChildren
                              (fun _ => scopeChildren scope) ;;
                let r0 :=
                  Range_new P 0 0
                    (startLineNumber (frameRange (frame sf)))
                    (startColumn (frameRange (frame sf))) in
                let r1 :=
                  match scopeRange scope with
                  | Some sr =>
                      Range_setStartPosition P r0
                        (startLineNumber sr) (startColumn sr)
                  | None => r0
                  end in
                createInlineValueDecorationsInsideRange children r1 model)
          scopes ;;
      let allDecorations :=
        fold_left (fun previous current => previous ++ current)
          decorationsPerScope [] in
      call (Editor_setDecorations INLINE_VALUE_DECORATION_KEY allDecorations)
  end.

(** *** Focus changes (lines 156-168) *)

Definition onFocusStackFrame (sf : option StackFrame) : M unit :=
  model <- ask Editor_getModel editor_model ;;
  match model with
  | Some model =>
      _applyHoverConfiguration model sf ;;
      match sf with
      | Some f =>
          if String.eqb (sourceUri (source (frame f))) (uri model)
          then toggleExceptionWidget
          else hideHoverWidget
      | None => hideHoverWidget
      end
  | None => ret tt
  end ;;
  updateInlineValueDecorations sf.

(** *** The runners of the schedulers *)

Definition runner (id : SchedulerId) : M unit :=
  match id with
  | ShowHover =>
      r <- this hoverRange ;;
      match r with
      | Some r => detach (showHover r false)
      | None => ret tt
      end
  | HideHover =>
      hovered <- ask HoverWidget_isHovered hover_isHovered ;;
      when (negb hovered) (call HoverWidget_hide)
  | ProvideNonDebugHover =>
      hasModel <- ask Editor_hasModel
                    (fun h => match editor_model h with
                              | Some _ => true
                              | None => false
                              end) ;;
      position <- this nonDebugHoverPosition ;;
      match hasModel, position with
      | true, Some position =>
          model <- ask Editor_getModel editor_model ;;
          match model with
          | Some model => call (GetHover model position CancellationToken_None)
          | None => ret tt
          end
      | _, _ => ret tt
      end
  | RemoveInlineValues =>
      call (Editor_removeDecorations INLINE_VALUE_DECORATION_KEY)
  | UpdateInlineValues =>
      sf <- ask ViewModel_focusedStackFrame focusedStackFrame ;;
      updateInlineValueDecorations sf
  end.

(** *** Mouse and keyboard (lines 216-258) *)

Definition isDebugHoverTarget (t : MouseTarget) : bool :=
  match targetType t, targetDetail t with
  | CONTENT_WIDGET, Some detail => String.eqb detail (DebugHoverWidget_ID P)
  | _, _ => false
  end.

Definition onEditorMouseDown (mouseEvent : EditorMouseEvent) : M unit :=
  assign (set_mouseDown true) ;;
  if isDebugHoverTarget (target mouseEvent) then ret tt
  else hideHoverWidget.

Definition stopKeyPressed (e : BrowserMouseEvent) : bool :=
  if isMacintosh P then metaKey e else ctrlKey e.

Definition onEditorMouseMove (mouseEvent : EditorMouseEvent) : M unit :=
  state <- ask DebugService_state debug_state ;;
  match state with
  | Stopped =>
      enableAllHovers <-
        ask ConfigurationService_getValue_debug debug_enableAllHovers ;;
      match enableAllHovers, targetPosition (target mouseEvent) with
      | true, Some position =>
          assign (set_nonDebugHoverPosition (Some position)) ;;
          schedule ProvideNonDebugHover
      | _, _ => ret tt
      end ;;
      if isDebugHoverTarget (target mouseEvent) &&
         negb (stopKeyPressed (event mouseEvent))
      then ret tt
      else
        match targetType (target mouseEvent) with
        | CONTENT_TEXT =>
            match targetRange (target mouseEvent) with
            | Some r =>
                current <- this hoverRange ;;
                if negb (Range_equalsRange P r current) then
                  assign (set_hoverRange (Some r)) ;;
                  schedule ShowHover
                else ret tt
            | None => ret tt
            end
        | _ =>
            down <- this mouseDown ;;
            when (negb down) hideHoverWidget
        end
  | _ => ret tt
  end.

Definition onKeyDown (keyCode : KeyCode) : M unit :=
  let isStopKey :=
    match keyCode, isMacintosh P with
    | KeyCode_Meta, true => true
    | KeyCode_Ctrl, false => true
    | _, _ => false
    end in
  if isStopKey then ret tt else hideHoverWidget.

(** *** The configuration widget (lines 308-366) *)

Definition updateConfigurationWidgetVisibility : M unit :=
  model <- ask Editor_getModel editor_model ;;
  widget <- this configurationWidget ;;
  match widget with
  | Some _ => call ConfigurationWidget_dispose
  | None => ret tt
  end ;;
  match model with
  | Some model =>
      if LAUNCH_JSON_REGEX_test (uri model) then
        readOnly <- ask Editor_getOption_readOnly editor_readOnly ;;
        if negb readOnly then
          let label := localize P "addConfiguration" "Add Configuration..." in
          call (InstantiationService_createFloatingClickWidget label) ;;
          assign (set_configurationWidget
                    (Some (mkFloatingClickWidget label))) ;;
          call ConfigurationWidget_render ;;
          call ConfigurationWidget_onClick ;;
          assign (push_toDispose ClickListener)
        else ret tt
      else ret tt
  | None => ret tt
  end.

(** The state the visitor callbacks of [addLaunchConfiguration] share. *)
Record VisitState := mkVisitState {
  lastProperty : option string;
  depthInArray : Z;
  configurationsArrayPosition : option Position
}.

Definition visitStep (model : TextModel) (s : VisitState) (e : JsonEvent)
  : VisitState :=
  match e with
  | OnObjectProperty property =>
      mkVisitState (Some property) (depthInArray s)
        (configurationsArrayPosition s)
  | OnArrayBegin offset =>
      let found :=
        match lastProperty s with
        | Some p => String.eqb p "configurations" && (depthInArray s =? 0)%Z
        | None => false
        end in
      mkVisitState (lastProperty s) (depthInArray s + 1)
        (if found then Some (getPositionAt P model (offset + 1))
         else configurationsArrayPosition s)
  | OnArrayEnd =>
      mkVisitState (lastProperty s) (depthInArray s - 1)
        (configurationsArrayPosition s)
  end.

Definition insertLine (model : TextModel) (position : Position) : M unit :=
  (if (column position <?
       getLineLastNonWhitespaceColumn P model (lineNumber position))%Z
   then
     call (Editor_setPosition position) ;;
     call LineBreakInsert_runEditorCommand
   else ret tt) ;;
  call (Editor_setPosition position) ;;
  call (CommandService_executeCommand "editor.action.insertLineAfter").

Definition addLaunchConfiguration : M unit :=
  call (TelemetryService_publicLog "debug/addLaunchConfiguration") ;;
  model <- ask Editor_getModel editor_model ;;
  match model with
  | None => ret tt
  | Some model =>
      call Json_visit ;;
      let visited :=
        fold_left (visitStep model) (json_visit P (getValue P model))
          (mkVisitState None 0 None) in
      call Editor_focus ;;
      match configurationsArrayPosition visited with
      | None => ret tt
      | Some position =>
          insertLine model position ;;
          call (CommandService_executeCommand "editor.action.triggerSuggest")
      end
  end.

(** *** Listeners (lines 76-119) *)

Inductive Event :=
| DidFocusStackFrame (stackFrame : option StackFrame)
| MouseDown (e : EditorMouseEvent)
| MouseUp
| MouseMove (e : EditorMouseEvent)
| MouseLeave (e : EditorMouseEvent)
| KeyDown (keyCode : KeyCode)
| DidChangeModelContent
| DidChangeModel
| DidScrollChange
| DidChangeState (state : State).

Definition kindOf (ev : Event) : EventKind :=
  match ev with
  | DidFocusStackFrame _ => OnDidFocusStackFrame
  | MouseDown _ => OnMouseDown
  | MouseUp => OnMouseUp
  | MouseMove _ => OnMouseMove
  | MouseLeave _ => OnMouseLeave
  | KeyDown _ => OnKeyDown
  | DidChangeModelContent => OnDidChangeModelContent
  | DidChangeModel => OnDidChangeModel
  | DidScrollChange => OnDidScrollChange
  | DidChangeState _ => OnDidChangeState
  end.

Definition outsideRect (e : BrowserMouseEvent) (rect : ClientRect) : bool :=
  ((posx e <? rectLeft rect) || (rectRight rect <? posx e) ||
   (posy e <? rectTop rect) || (rectBottom rect <? posy e))%Z.

(** The listener that [registerListeners] installs for each event. *)
Definition listener (ev : Event) : M unit :=
  match ev with
  | DidFocusStackFrame sf => onFocusStackFrame sf
  | MouseDown e => onEditorMouseDown e
  | MouseUp => assign (set_mouseDown false)
  | MouseMove e => onEditorMouseMove e
  | MouseLeave e =>
      cancel ProvideNonDebugHover ;;
      hoverDomNode <- ask HoverWidget_getDomNode hover_domNode ;;
      match hoverDomNode with
      | None => ret tt
      | Some rect =>
          call DomNode_getBoundingClientRect ;;
          when (outsideRect (event e) rect) hideHoverWidget
      end
  | KeyDown keyCode => onKeyDown keyCode
  | DidChangeModelContent =>
      assign (set_wordToLineNumbersMap None) ;;
      schedule UpdateInlineValues
  | DidChangeModel =>
      stackFrame <- ask ViewModel_focusedStackFrame focusedStackFrame ;;
      model <- ask Editor_getModel editor_model ;;
      match model with
      | Some model => _applyHoverConfiguration model stackFrame
      | None => ret tt
      end ;;
      detach toggleExceptionWidget ;;
      hideHoverWidget ;;
      updateConfigurationWidgetVisibility ;;
      assign (set_wordToLineNumbersMap None) ;;
      updateInlineValueDecorations stackFrame
  | DidScrollChange =>
      (* the arrow function returns the method without calling it *)
      ret tt
  | DidChangeState state =>
      match state with
      | Stopped => ret tt
      | _ => detach toggleExceptionWidget
      end
  end.

Definition allEventKinds : list EventKind :=
  [OnDidFocusStackFrame; OnMouseDown; OnMouseUp; OnMouseMove; OnMouseLeave;
   OnKeyDown; OnDidChangeModelContent; OnDidChangeModel; OnDidScrollChange;
   OnDidChangeState].

Definition registerListeners : M unit :=
  forEach allEventKinds
    (fun k => call (Host_addListener k) ;; assign (push_toDispose (ListenerOf k))).

(** *** Construction and disposal (lines 59-74, 537-545) *)

Definition constructor : M unit :=
  call InstantiationService_createDebugHoverWidget ;;
  assign (set_hoverWidget (Some TheDebugHoverWidget)) ;;
  assign (set_toDispose []) ;;
  registerListeners ;;
  updateConfigurationWidgetVisibility ;;
  call (CodeEditorService_registerDecorationType INLINE_VALUE_DECORATION_KEY) ;;
  detach toggleExceptionWidget.

(** [dispose(this.toDispose)] on one element. *)
Definition disposeOne (d : Disposable) : M unit :=
  match d with
  | ListenerOf k => call (Listener_dispose k)
  | SchedulerOf id =>
      assign (fun c =>
        match schedulers c id with
        | Some s => set_scheduler id (RunOnceScheduler_dispose s) c
        | None => c
        end)
  | ClickListener => call ClickListener_dispose
  end.

Definition dispose : M unit :=
  widget <- this hoverWidget ;;
  match widget with
  | Some _ => call HoverWidget_dispose
  | None => ret tt
  end ;;
  configWidget <- this configurationWidget ;;
  match configWidget with
  | Some _ => call ConfigurationWidget_dispose
  | None => ret tt
  end ;;
  disposables <- this toDispose ;;
  forEach disposables disposeOne ;;
  assign (set_toDispose []).

Definition getId : string := EDITOR_CONTRIBUTION_ID P.

(** *** Every operation of the class *)

Inductive Operation :=
| The_constructor
| The_registerListeners
| The_listener (ev : Event)
| The_applyHoverConfiguration (model : TextModel) (sf : option StackFrame)
| The_showHover (r : Range) (focus : bool)
| The_onFocusStackFrame (sf : option StackFrame)
| The_scheduler (id : SchedulerId)
| The_runner (id : SchedulerId)
| The_hideHoverWidget
| The_onEditorMouseDown (e : EditorMouseEvent)
| The_onEditorMouseMove (e : EditorMouseEvent)
| The_onKeyDown (keyCode : KeyCode)
| The_toggleExceptionWidget
| The_showExceptionWidget (info : ExceptionInfo) (session : option nat)
    (line col : Z)
| The_closeExceptionWidget
| The_updateConfigurationWidgetVisibility
| The_addLaunchConfiguration
| The_updateInlineValueDecorations (sf : option StackFrame)
| The_createInlineValueDecorationsInsideRange
    (expressions : list Expression) (r : Range) (model : TextModel)
| The_getWordToPositionsMap
| The_dispose.

Definition exec (op : Operation) : M unit :=
  match op with
  | The_constructor => constructor
  | The_registerListeners => registerListeners
  | The_listener ev => listener ev
  | The_applyHoverConfiguration model sf => _applyHoverConfiguration model sf
  | The_showHover r focus => showHover r focus
  | The_onFocusStackFrame sf => onFocusStackFrame sf
  | The_scheduler id => scheduler id ;; ret tt
  | The_runner id => runner id
  | The_hideHoverWidget => hideHoverWidget
  | The_onEditorMouseDown e => onEditorMouseDown e
  | The_onEditorMouseMove e => onEditorMouseMove e
  | The_onKeyDown keyCode => onKeyDown keyCode
  | The_toggleExceptionWidget => toggleExceptionWidget
  | The_showExceptionWidget info session line col =>
      showExceptionWidget info session line col
  | The_closeExceptionWidget => closeExceptionWidget
  | The_updateConfigurationWidgetVisibility =>
      updateConfigurationWidgetVisibility
  | The_addLaunchConfiguration => addLaunchConfiguration
  | The_updateInlineValueDecorations sf => updateInlineValueDecorations sf
  | The_createInlineValueDecorationsInsideRange expressions r model =>
      createInlineValueDecorationsInsideRange expressions r model ;; ret tt
  | The_getWordToPositionsMap => getWordToPositionsMap ;; ret tt
  | The_dispose => dispose
  end.

(** *** The event loop: timers and the delivery of events *)

Definition allSchedulers : list SchedulerId :=
  [ShowHover; HideHover; ProvideNonDebugHover; RemoveInlineValues;
   UpdateInlineValues].

(** One millisecond passes on a pending timeout. *)
Definition elapseOne (s : RunOnceScheduler) : RunOnceScheduler :=
  match timeoutToken s with
  | Some (S n) => mkScheduler (Some n) (hasRunner s)
  | _ => s
  end.

Definition elapse : M unit :=
  assign (fun c =>
    set_schedulers
      (fun id =>
         match schedulers c id with
         | Some s => Some (elapseOne s)
         | None => None
         end) c).

(** [RunOnceScheduler.onTimeout], when the timeout of [id] has elapsed:
    the token is cleared and the runner, if still set, runs. *)
Definition onTimeout (id : SchedulerId) : M unit :=
  memo <- this (fun c => schedulers c id) ;;
  match memo with
  | Some s =>
      match timeoutToken s with
      | Some 0 =>
          assign (set_scheduler id (RunOnceScheduler_cancel s)) ;;
          when (hasRunner s) (detach (runner id))
      | _ => ret tt
      end
  | None => ret tt
  end.

(** One millisecond of the event loop. *)
Definition tick : M unit :=
  elapse ;;
  forEach allSchedulers onTimeout.

Fixpoint advance (ms : nat) : M unit :=
  match ms with
  | 0 => ret tt
  | S n => tick ;; advance n
  end.

Definition isListenerOf (k : EventKind) (d : Disposable) : bool :=
  match d with
  | ListenerOf k' => EventKind_eqb k' k
  | _ => false
  end.

(** The host fires an event: the listener runs if it is still installed. *)
Definition deliver (ev : Event) : M unit :=
  installed <- this (fun c => existsb (isListenerOf (kindOf ev)) (toDispose c)) ;;
  when installed (detach (listener ev)).

(** What happens to an editor: an event, time, or a change of the host's
    own state. *)
Inductive Step :=
| Fires (ev : Event)
| Passes (ms : nat)
| HostBecomes (h : Host).

Definition hostBecomes (h : Host) : M unit :=
  fun w =>
    (Ok tt, mkWorld h (self w) (trace w) (unhandled w) (updatePasses w)).

Definition step (s : Step) : M unit :=
  match s with
  | Fires ev => deliver ev
  | Passes ms => advance ms
  | HostBecomes h => hostBecomes h
  end.

Definition steps (l : list Step) : M unit := forEach l step.

End Methods.

(** The state of a contribution object before its constructor has run
    (the field initializers of lines 47-57). *)
Definition newContribution : Contribution :=
  {| toDispose := [];
     hoverWidget := None;
     nonDebugHoverPosition := None;
     hoverRange := None;
     mouseDown := false;
     wordToLineNumbersMap := None;
     exceptionWidget := None;
     configurationWidget := None;
     schedulers := fun _ => None |}.

Definition newWorld (h : Host) : World :=
  {| host := h; self := newContribution; trace := []; unhandled := [];
     updatePasses := 0 |}.

(** The world a computation ends in, and the host calls it made. *)
Definition after_ {A} (m : M A) (w : World) : World := snd (m w).
Definition outcome {A} (m : M A) (w : World) : Outcome A := fst (m w).

(** The calls logged between [w] and [w']: the front of the later trace. *)
Definition newCalls (w w' : World) : list HostCall :=
  firstn (List.length (trace w') - List.length (trace w)) (trace w').

(** ** A concrete platform and concrete hosts, for the examples *)

Module Sample.

Definition range_new (sl sc el ec : Z) : Range :=
  if ((el <? sl) || ((sl =? el) && (ec <? sc)))%Z
  then mkRange el ec sl sc
  else mkRange sl sc el ec.

Definition range_containsPosition (r : Range) (p : Position) : bool :=
  (negb ((lineNumber p <? startLineNumber r) ||
         (endLineNumber r <? lineNumber p)) &&
   negb ((lineNumber p =? startLineNumber r) && (column p <? startColumn r)) &&
   negb ((lineNumber p =? endLineNumber r) && (endColumn r <? column p)))%Z.

Definition range_equalsRange (a : Range) (b : option Range) : bool :=
  match b with
  | Some b =>
      ((startLineNumber a =? startLineNumber b) &&
       (startColumn a =? startColumn b) &&
       (endLineNumber a =? endLineNumber b) &&
       (endColumn a =? endColumn b))%Z
  | None => false
  end.

(** Every non-empty token text counts as one word. *)
Definition word_exec (s : string) : option string :=
  match s with
  | EmptyString => None
  | _ => Some s
  end.

Definition platform : Platform :=
  {| MAX_SAFE_SMALL_INTEGER := 1073741824;
     DebugHoverWidget_ID := "debug.hoverWidget";
     EDITOR_CONTRIBUTION_ID := "editor.contrib.debug";
     isMacintosh := false;
     Range_new := range_new;
     Range_setStartPosition :=
       fun r l c => range_new l c (endLineNumber r) (endColumn r);
     Range_containsPosition := range_containsPosition;
     Range_equalsRange := range_equalsRange;
     DEFAULT_WORD_REGEXP_exec := word_exec;
     json_visit := fun _ => [];
     getValue := fun _ => EmptyString;
     getPositionAt := fun _ offset => mkPosition 1 (offset + 1);
     getLineLastNonWhitespaceColumn := fun _ _ => 0%Z;
     localize := fun _ text => text |}.

(** A two-line file: [let x = 1] and [x]. *)
Definition model : TextModel :=
  {| uri := "file:///app.js";
     language := "javascript";
     modelLines :=
       [ mkLine "let x = 1" [mkToken 0 3 TokenOther; mkToken 4 5 TokenOther;
                             mkToken 8 9 TokenOther];
         mkLine "x" [mkToken 0 1 TokenOther] ] |}.

Definition topFrame : Frame :=
  {| frameRef := 1;
     source := mkSource "file:///app.js" true None;
     frameRange := mkRange 2 1 2 2;
     frameScopes := [mkScope None [mkExpression "x" "1"]] |}.

Definition callerFrame : Frame :=
  {| frameRef := 2;
     source := mkSource "file:///lib.js" true None;
     frameRange := mkRange 7 1 7 9;
     frameScopes := [] |}.

Definition stoppedThread (info : option ExceptionInfo) : Thread :=
  {| callStack := [topFrame; callerFrame]; exceptionInfo := info |}.

Definition noFaults : nat -> HostCall -> option Exn := fun _ _ => None.

(** A debug session stopped in [app.js], which the editor shows. *)
Definition stoppedHost (info : option ExceptionInfo) : Host :=
  {| editor_model := Some model;
     editor_readOnly := false;
     debug_state := Stopped;
     focusedStackFrame := Some (mkStackFrame topFrame (stoppedThread info));
     focusedSession := Some 0;
     debug_enableAllHovers := false;
     debug_inlineValues := true;
     editor_hover := mkHoverOptions true (Some 300) (Some true);
     hover_domNode := None;
     hover_isHovered := false;
     hover_isVisible := true;
     faults := noFaults |}.

(** The same editor while the program runs. *)
Definition runningHost : Host :=
  {| editor_model := Some model;
     editor_readOnly := false;
     debug_state := Running;
     focusedStackFrame := None;
     focusedSession := Some 0;
     debug_enableAllHovers := false;
     debug_inlineValues := true;
     editor_hover := mkHoverOptions true (Some 300) (Some true);
     hover_domNode := None;
     hover_isHovered := false;
     hover_isVisible := false;
     faults := noFaults |}.

Definition anException : ExceptionInfo :=
  mkExceptionInfo "TypeError" "x is not a function".

(** A contribution, constructed on a stopped session. *)
Definition stoppedWorld (info : option ExceptionInfo) : World :=
  snd (constructor platform (newWorld (stoppedHost info))).

(** [n] times the character [a]. *)
Fixpoint letters (n : nat) : string :=
  match n with
  | 0 => EmptyString
  | S k => String "a"%char (letters k)
  end.

(** [n] expressions with pairwise different names. *)
Definition expressions (n : nat) : list Expression :=
  map (fun k => mkExpression (letters (S k)) "0") (seq 0 n).

Definition mouseOver (t : MouseTargetType) (r : option Range)
  : EditorMouseEvent :=
  {| target := mkMouseTarget t None None r;
     event := mkBrowserMouseEvent 10 10 false false |}.

End Sample.

(** * Properties *)

(** Simplifying worlds: projections of the records and the setters. *)
Ltac wsimpl :=
  cbn [host self trace unhandled updatePasses fst snd
       toDispose hoverWidget nonDebugHoverPosition hoverRange mouseDown
       wordToLineNumbersMap exceptionWidget configurationWidget schedulers
       set_toDispose set_hoverWidget set_nonDebugHoverPosition set_hoverRange
       set_mouseDown set_wordToLineNumbersMap set_exceptionWidget
       set_configurationWidget set_schedulers set_scheduler push_toDispose
       timeoutToken hasRunner] in *.

(** Running the primitives of the monad one step. *)
Ltac mrun :=
  unfold bind, ret, this, assign, call, ask, when, countPass in *; wsimpl.

(** ** Strings and maps *)

Lemma length_append (s t : string) :
  String.length (s ++ t) = String.length s + String.length t.
Proof.
  induction s as [|c s IH]; simpl; [reflexivity | now rewrite IH].
Qed.

Lemma length_substring_0 (n : nat) (s : string) :
  n <= String.length s -> String.length (String.substring 0 n s) = n.
Proof.
  revert n; induction s as [|c s IH]; intros [|n] H; simpl in *;
    try reflexivity; try lia.
  rewrite IH; lia.
Qed.

Lemma substring_0_split (n : nat) (s : string) :
  n <= String.length s ->
  exists rest, s = (String.substring 0 n s ++ rest)%string.
Proof.
  revert n; induction s as [|c s IH]; intros [|n] H; simpl in *.
  - now exists EmptyString.
  - lia.
  - now exists (String c s).
  - destruct (IH n) as [rest E]; [lia|].
    exists rest. now rewrite <- E.
Qed.

Section StringMaps.
Variable V : Type.
Implicit Types (m : JsMap string V) (k : string) (v : V).

Lemma Map_get_In m k v :
  Map_get String.eqb m k = Some v -> In (k, v) m.
Proof.
  induction m as [|[k' v'] m IH]; simpl; [discriminate|].
  destruct (String.eqb k' k) eqn:E.
  - apply String.eqb_eq in E. intros [= ->]. left. now subst.
  - intros H. right. now apply IH.
Qed.

Lemma Map_set_In m k v k0 v0 :
  In (k, v) (Map_set String.eqb m k0 v0) ->
  (k = k0 /\ v = v0) \/ In (k, v) m.
Proof.
  induction m as [|[k' v'] m IH]; simpl.
  - intros [[= <- <-]|[]]. now left.
  - destruct (String.eqb k' k0) eqn:E; simpl.
    + apply String.eqb_eq in E. subst k'.
      intros [[= <- <-]|H]; [now left | right; now right].
    + intros [H|H]; [right; now left|].
      destruct (IH H) as [?|?]; [now left | right; now right].
Qed.

Lemma Map_set_size m k v :
  Map_size (Map_set String.eqb m k v) <= S (Map_size m).
Proof.
  unfold Map_size.
  induction m as [|[k' v'] m IH]; simpl; [lia|].
  destruct (String.eqb k' k); simpl; lia.
Qed.

Lemma Map_set_keys m k v :
  Map_keys (Map_set String.eqb m k v) = Map_keys m \/
  (~ In k (Map_keys m) /\
   Map_keys (Map_set String.eqb m k v) = Map_keys m ++ [k]).
Proof.
  unfold Map_keys.
  induction m as [|[k' v'] m IH]; simpl.
  - right. split; [tauto | reflexivity].
  - destruct (String.eqb k' k) eqn:E; simpl; [now left|].
    apply String.eqb_neq in E.
    destruct IH as [IH|[IH1 IH2]].
    + left. now rewrite IH.
    + right. split; [intros [?|?]; tauto | now rewrite IH2].
Qed.

Lemma Map_set_NoDup m k v :
  NoDup (Map_keys m) -> NoDup (Map_keys (Map_set String.eqb m k v)).
Proof.
  intros H. destruct (Map_set_keys m k v) as [E|[N E]]; rewrite E; [easy|].
  apply NoDup_app; [exact H | repeat constructor; intros [] | ].
  intros x Hx [<-|[]]. contradiction.
Qed.
End StringMaps.

Lemma Map_set_In_Z (V : Type) (m : JsMap Z V) k v k0 v0 :
  In (k, v) (Map_set Z.eqb m k0 v0) -> (k = k0 /\ v = v0) \/ In (k, v) m.
Proof.
  induction m as [|[k' v'] m IH]; simpl.
  - intros [[= <- <-]|[]]. now left.
  - destruct (Z.eqb k' k0) eqn:E; simpl.
    + apply Z.eqb_eq in E. subst k'.
      intros [[= <- <-]|H]; [now left | right; now right].
    + intros [H|H]; [right; now left|].
      destruct (IH H) as [?|?]; [now left | right; now right].
Qed.

Lemma Map_get_In_Z (V : Type) (m : JsMap Z V) k v :
  Map_get Z.eqb m k = Some v -> In (k, v) m.
Proof.
  induction m as [|[k' v'] m IH]; simpl; [discriminate|].
  destruct (Z.eqb k' k) eqn:E.
  - apply Z.eqb_eq in E. intros [= ->]. left. now subst.
  - intros H. right. now apply IH.
Qed.

(** ** The name-to-value map of [createInlineValueDecorationsInsideRange] *)

Lemma nameValueLoop_size (l : list Expression) : forall m,
  Map_size m < MAX_NUM_INLINE_VALUES ->
  Map_size (nameValueLoop m l) <= MAX_NUM_INLINE_VALUES.
Proof.
  induction l as [|e l IH]; intros m Hm; cbn [nameValueLoop];
    [unfold Map_size in *; lia|].
  destruct (Nat.leb_spec MAX_NUM_INLINE_VALUES
              (Map_size (Map_set String.eqb m (name e) (value e)))) as [H|H].
  - pose proof (Map_set_size m (name e) (value e)).
    unfold Map_size in *. lia.
  - now apply IH.
Qed.

Lemma nameValueLoop_full (pre rest : list Expression) : forall m,
  Map_size m < MAX_NUM_INLINE_VALUES ->
  MAX_NUM_INLINE_VALUES <= Map_size (nameValueLoop m pre) ->
  nameValueLoop m (pre ++ rest) = nameValueLoop m pre.
Proof.
  induction pre as [|e pre IH]; intros m Hm Hfull;
    cbn [nameValueLoop app] in *; [lia|].
  destruct (Nat.leb_spec MAX_NUM_INLINE_VALUES
              (Map_size (Map_set String.eqb m (name e) (value e)))) as [H|H].
  - reflexivity.
  - now apply IH.
Qed.

Lemma nameValueLoop_NoDup (l : list Expression) : forall m,
  NoDup (Map_keys m) -> NoDup (Map_keys (nameValueLoop m l)).
Proof.
  induction l as [|e l IH]; intros m Hm; cbn [nameValueLoop]; [exact Hm|].
  destruct (MAX_NUM_INLINE_VALUES <=? _).
  - now apply Map_set_NoDup.
  - apply IH. now apply Map_set_NoDup.
Qed.

(** Every name listed for a line satisfies [S]. *)
Definition namesAll (S : Z -> string -> Prop) (m : LineMap) : Prop :=
  forall line names nm, In (line, names) m -> In nm names -> S line nm.

Lemma namesAll_ensure (S : Z -> string -> Prop) (m : LineMap) (l : Z) :
  namesAll S m ->
  namesAll S (if Map_has Z.eqb m l then m else Map_set Z.eqb m l []).
Proof.
  intros H. destruct (Map_has Z.eqb m l); [exact H|].
  intros line names nm Hin Hnm.
  apply Map_set_In_Z in Hin. destruct Hin as [[_ ->]|Hin]; [destruct Hnm|].
  eapply H; eassumption.
Qed.

Lemma namesAll_addNameAt (P : Platform) (S : Z -> string -> Prop)
  (r : Range) (nm : string) (m : LineMap) (p : Position) :
  namesAll S m ->
  (Range_containsPosition P r p = true -> S (lineNumber p) nm) ->
  namesAll S (addNameAt P r nm m p).
Proof.
  intros Hm Hnm. unfold addNameAt.
  destruct (Range_containsPosition P r p); [|exact Hm].
  pose proof (namesAll_ensure (lineNumber p) Hm) as H1.
  set (m1 := if Map_has Z.eqb m (lineNumber p) then m
             else Map_set Z.eqb m (lineNumber p) []) in *.
  destruct (Map_get Z.eqb m1 (lineNumber p)) as [names|] eqn:G; [|exact H1].
  destruct (Array_indexOf names nm =? -1)%Z; [|exact H1].
  intros line ns x Hin Hx.
  apply Map_set_In_Z in Hin. destruct Hin as [[-> ->]|Hin].
  - apply in_app_or in Hx. destruct Hx as [Hx|[<-|[]]].
    + apply Map_get_In_Z in G. eapply H1; eassumption.
    + now apply Hnm.
  - eapply H1; eassumption.
Qed.

Lemma namesAll_positions (P : Platform) (S : Z -> string -> Prop)
  (r : Range) (nm : string) (positions : list Position) : forall m,
  namesAll S m ->
  (forall p, In p positions -> Range_containsPosition P r p = true ->
             S (lineNumber p) nm) ->
  namesAll S (fold_left (addNameAt P r nm) positions m).
Proof.
  induction positions as [|p ps IH]; intros m Hm Hnm; simpl; [exact Hm|].
  apply IH.
  - apply namesAll_addNameAt; [exact Hm | apply Hnm; now left].
  - intros q Hq. apply Hnm. now right.
Qed.

(** The names of [buildLineToNamesMap] come from entries of the
    name-to-value map, at positions the word map lists for them. *)
Lemma buildLineToNamesMap_names (P : Platform)
  (nameValueMap : JsMap string string) (words : WordMap) (r : Range) :
  namesAll
    (fun line nm =>
       In nm (Map_keys nameValueMap) /\
       exists positions p,
         Map_get String.eqb words nm = Some positions /\
         In p positions /\ lineNumber p = line /\
         Range_containsPosition P r p = true)
    (buildLineToNamesMap P nameValueMap words r).
Proof.
  unfold buildLineToNamesMap.
  set (S := fun (line : Z) (nm : string) => _ /\ _).
  assert (G : forall entries m,
             incl entries nameValueMap -> namesAll S m ->
             namesAll S
               (fold_left
                  (fun m entry =>
                     match Map_get String.eqb words (fst entry) with
                     | Some positions =>
                         fold_left (addNameAt P r (fst entry)) positions m
                     | None => m
                     end) entries m)).
  { induction entries as [|[nm v] entries IH]; intros m Hincl Hm; simpl;
      [exact Hm|].
    apply IH; [intros x Hx; apply Hincl; now right|].
    destruct (Map_get String.eqb words nm) as [positions|] eqn:G; [|exact Hm].
    apply namesAll_positions; [exact Hm|].
    intros p Hp Hc. split.
    - unfold Map_keys. apply in_map_iff. exists (nm, v).
      split; [reflexivity | apply Hincl; now left].
    - exists positions, p. repeat split; assumption. }
  apply G; [apply incl_refl | intros ? ? ? []].
Qed.

(** C8: the name-to-value map built from a list of expressions never holds
    more than [MAX_NUM_INLINE_VALUES] = 100 entries; once a prefix of the
    list has filled it, the rest of the list is ignored; its keys are
    pairwise different and every name that reaches the decoration of some
    line is one of them, so at most 100 distinct names produce inline
    value decorations per scope. *)
Theorem nameValueMap_limit (P : Platform) (expressions : list Expression) :
  MAX_NUM_INLINE_VALUES = 100 /\
  Map_size (buildNameValueMap expressions) <= MAX_NUM_INLINE_VALUES /\
  (forall pre rest,
     expressions = pre ++ rest ->
     MAX_NUM_INLINE_VALUES <= Map_size (buildNameValueMap pre) ->
     buildNameValueMap expressions = buildNameValueMap pre) /\
  NoDup (Map_keys (buildNameValueMap expressions)) /\
  List.length (Map_keys (buildNameValueMap expressions))
    <= MAX_NUM_INLINE_VALUES /\
  (forall words r line names nm,
     In (line, names)
       (buildLineToNamesMap P (buildNameValueMap expressions) words r) ->
     In nm names ->
     In nm (Map_keys (buildNameValueMap expressions))).
Proof.
  assert (Hsize : Map_size (buildNameValueMap expressions)
                  <= MAX_NUM_INLINE_VALUES).
  { apply nameValueLoop_size. unfold MAX_NUM_INLINE_VALUES. simpl. lia. }
  split; [reflexivity|]. split; [exact Hsize|]. split; [|split; [|split]].
  - intros pre rest -> Hfull. apply nameValueLoop_full; [|exact Hfull].
    unfold MAX_NUM_INLINE_VALUES. simpl. lia.
  - apply nameValueLoop_NoDup. constructor.
  - unfold Map_keys. rewrite length_map. exact Hsize.
  - intros words r line names nm Hin Hnm.
    now destruct (buildLineToNamesMap_names P _ words r _ _ _ Hin Hnm).
Qed.

(** Of 120 expressions with different names, the last 20 are ignored. *)
Lemma nameValueMap_limit_witness :
  buildNameValueMap (Sample.expressions 120) =
  buildNameValueMap (Sample.expressions 100).
Proof.
  destruct (nameValueMap_limit Sample.platform (Sample.expressions 120))
    as (_ & _ & H & _).
  apply (H (Sample.expressions 100)
           (skipn 100 (Sample.expressions 120))).
  - vm_compute. reflexivity.
  - apply Nat.leb_le. vm_compute. reflexivity.
Defined.

(** ** The decoration of one line *)

(** C9: the decoration carries the given text when it has at most
    [MAX_INLINE_DECORATOR_LENGTH] = 150 characters, and otherwise its first
    150 characters followed by three dots (153 characters in all); its
    range lies on the given line, from and to column
    [MAX_SAFE_SMALL_INTEGER]. *)
Theorem createInlineValueDecoration_spec (P : Platform) (line : Z)
  (text : string) :
  let d := createInlineValueDecoration P line text in
  let shown := contentText (after (renderOptions d)) in
  MAX_INLINE_DECORATOR_LENGTH = 150 /\
  (String.length text <= 150 -> shown = text) /\
  (150 < String.length text ->
     (exists head rest,
        text = (head ++ rest)%string /\ String.length head = 150 /\
        shown = (head ++ "...")%string) /\
     String.length shown = 153) /\
  range d =
    {| startLineNumber := line;
       startColumn := MAX_SAFE_SMALL_INTEGER P;
       endLineNumber := line;
       endColumn := MAX_SAFE_SMALL_INTEGER P |}.
Proof.
  cbv zeta. unfold createInlineValueDecoration, String_substr0.
  cbn [contentText after renderOptions range].
  split; [reflexivity|].
  destruct (Nat.ltb_spec MAX_INLINE_DECORATOR_LENGTH (String.length text))
    as [H|H]; unfold MAX_INLINE_DECORATOR_LENGTH in *.
  - split; [lia|]. split; [|reflexivity]. intros _.
    assert (Hlen : String.length (String.substring 0 150 text) = 150)
      by (apply length_substring_0; lia).
    split.
    + destruct (@substring_0_split 150 text) as [rest E]; [lia|].
      exists (String.substring 0 150 text), rest. now repeat split.
    + rewrite length_append, Hlen. reflexivity.
  - split; [reflexivity|]. split; [lia | reflexivity].
Qed.

(** A text of 151 characters is cut to 150 and gets the three dots. *)
Lemma createInlineValueDecoration_spec_witness :
  String.length
    (contentText (after (renderOptions
       (createInlineValueDecoration Sample.platform 7 (Sample.letters 151)))))
  = 153.
Proof.
  destruct (createInlineValueDecoration_spec Sample.platform 7
              (Sample.letters 151)) as (_ & _ & H & _).
  apply H. apply Nat.ltb_lt. vm_compute. reflexivity.
Defined.

(** A text of exactly 150 characters is kept as it is. *)
Example createInlineValueDecoration_at_limit :
  contentText (after (renderOptions
    (createInlineValueDecoration Sample.platform 7 (Sample.letters 150))))
  = Sample.letters 150.
Proof. vm_compute. reflexivity. Qed.

(** ** The word map *)

(** [p] is where the word map may list [word]: on a line of at most
    [MAX_TOKENIZATION_LINE_LEN] characters, at the start of a token of
    type [Other] in whose text the word regexp finds [word]. *)
Definition wordOccurs (P : Platform) (model : TextModel) (word : string)
  (p : Position) : Prop :=
  exists n l t,
    nth_error (modelLines model) n = Some l /\
    lineNumber p = Z.of_nat (S n) /\
    String.length (lineContent l) <= MAX_TOKENIZATION_LINE_LEN /\
    In t (lineTokens l) /\
    tokenType t = TokenOther /\
    column p = Z.of_nat (tokenStartOffset t) /\
    DEFAULT_WORD_REGEXP_exec P
      (String_substring (lineContent l) (tokenStartOffset t) (tokenEndOffset t))
    = Some word.

Definition wordsValid (P : Platform) (model : TextModel) (m : WordMap) : Prop :=
  forall word positions p,
    In (word, positions) m -> In p positions -> wordOccurs P model word p.

Definition cacheValid (P : Platform) (model : TextModel) (c : Contribution)
  : Prop :=
  forall m, wordToLineNumbersMap c = Some m -> wordsValid P model m.

Section WordMap.
Variable P : Platform.
Variable model : TextModel.

Lemma addTokenWord_valid (n : nat) (l : Line) (t : Token) (m : WordMap) :
  nth_error (modelLines model) n = Some l ->
  String.length (lineContent l) <= MAX_TOKENIZATION_LINE_LEN ->
  In t (lineTokens l) ->
  wordsValid P model m ->
  wordsValid P model (addTokenWord P (S n) (lineContent l) m t).
Proof.
  intros Hn Hlen Ht Hm. unfold addTokenWord.
  destruct (tokenType t) eqn:Ety; try exact Hm.
  destruct (DEFAULT_WORD_REGEXP_exec P _) as [word|] eqn:Ew; [|exact Hm].
  set (m1 := if Map_has String.eqb m word then m
             else Map_set String.eqb m word []).
  assert (H1 : wordsValid P model m1).
  { subst m1. destruct (Map_has String.eqb m word); [exact Hm|].
    intros w ps p Hin Hp. apply Map_set_In in Hin.
    destruct Hin as [[_ ->]|Hin]; [destruct Hp | eapply Hm; eassumption]. }
  destruct (Map_get String.eqb m1 word) as [positions|] eqn:G; [|exact H1].
  intros w ps p Hin Hp. apply Map_set_In in Hin.
  destruct Hin as [[-> ->]|Hin]; [|eapply H1; eassumption].
  apply in_app_or in Hp. destruct Hp as [Hp|[<-|[]]].
  - apply Map_get_In in G. eapply H1; eassumption.
  - exists n, l, t. now repeat split.
Qed.

Lemma addLineWords_valid (n : nat) (l : Line) (m : WordMap) :
  nth_error (modelLines model) n = Some l ->
  String.length (lineContent l) <= MAX_TOKENIZATION_LINE_LEN ->
  wordsValid P model m ->
  wordsValid P model (addLineWords P (S n) l m).
Proof.
  intros Hn Hlen. unfold addLineWords.
  assert (G : forall ts m0, incl ts (lineTokens l) -> wordsValid P model m0 ->
              wordsValid P model
                (fold_left (addTokenWord P (S n) (lineContent l)) ts m0)).
  { induction ts as [|t ts IH]; intros m0 Hincl Hm0; simpl; [exact Hm0|].
    apply IH; [intros x Hx; apply Hincl; now right|].
    apply addTokenWord_valid; try assumption. apply Hincl. now left. }
  apply G, incl_refl.
Qed.

(** The loop over the lines keeps the cached map valid, wherever it ends
    (also when a tokenization call throws half-way). *)
Lemma wordsOfLines_valid (lines : list Line) :
  forall (before : list Line) (line : nat) w,
  modelLines model = before ++ lines ->
  line = S (List.length before) ->
  cacheValid P model (self w) ->
  cacheValid P model (self (snd (wordsOfLines P line lines w))).
Proof.
  induction lines as [|l lines IH]; intros before line w Hsplit Hline Hw;
    cbn [wordsOfLines]; [exact Hw|].
  assert (Hn : nth_error (modelLines model) (List.length before) = Some l).
  { rewrite Hsplit, nth_error_app2, Nat.sub_diag; [reflexivity | lia]. }
  assert (Hnext : modelLines model = (before ++ [l]) ++ lines)
    by (now rewrite <- app_assoc).
  assert (Hlen : S line = S (List.length (before ++ [l])))
    by (rewrite length_app; simpl; lia).
  unfold bind at 1.
  destruct (Nat.ltb_spec MAX_TOKENIZATION_LINE_LEN
              (String.length (lineContent l))) as [Hlong|Hshort].
  - unfold ret at 1. now apply (IH (before ++ [l])).
  - unfold bind at 1, call.
    destruct (faults (host w) (List.length (trace w))
                (Model_forceTokenization line)); [exact Hw|].
    unfold assign. apply (IH (before ++ [l])); [exact Hnext | exact Hlen |].
    cbn [self]. intros m.
    destruct (wordToLineNumbersMap (self w)) as [m0|] eqn:E0.
    + cbn. intros [= <-]. subst line.
      apply addLineWords_valid; try assumption. now apply Hw.
    + rewrite E0. discriminate.
Qed.

Lemma wordsOfLines_cached (lines : list Line) : forall line w,
  wordToLineNumbersMap (self w) <> None ->
  wordToLineNumbersMap (self (snd (wordsOfLines P line lines w))) <> None.
Proof.
  induction lines as [|l lines IH]; intros line w Hw;
    cbn [wordsOfLines]; [exact Hw|].
  unfold bind at 1.
  destruct (MAX_TOKENIZATION_LINE_LEN <? String.length (lineContent l)).
  - unfold ret at 1. now apply IH.
  - unfold bind at 1, call.
    destruct (faults (host w) (List.length (trace w))
                (Model_forceTokenization line)); [exact Hw|].
    unfold assign. apply IH. cbn [self].
    destruct (wordToLineNumbersMap (self w)) as [m0|] eqn:E0; [|now rewrite E0].
    cbn. discriminate.
Qed.
End WordMap.

(** C10: [getWordToPositionsMap] returns a cached map as it is; when it
    builds the map, every position it enters lies on a line of at most
    [MAX_TOKENIZATION_LINE_LEN] = 500 characters, at a token of type
    [Other] whose text matches the word regexp (the built map is the one
    kept in the field and returned).  Hence a name gets on the decoration
    of a line only if it occurs that way on that line: a word found only
    on longer lines produces no inline value. *)
Theorem getWordToPositionsMap_skips_long_lines (P : Platform) (w : World) :
  MAX_TOKENIZATION_LINE_LEN = 500 /\
  (forall m, wordToLineNumbersMap (self w) = Some m ->
             getWordToPositionsMap P w = (Ok m, w)) /\
  (wordToLineNumbersMap (self w) = None ->
   exists m,
     wordToLineNumbersMap (self (snd (getWordToPositionsMap P w))) = Some m /\
     (forall r, fst (getWordToPositionsMap P w) = Ok r -> r = m) /\
     (forall word positions p,
        In (word, positions) m -> In p positions ->
        exists model,
          editor_model (host w) = Some model /\ wordOccurs P model word p) /\
     (forall nameValueMap r line names nm,
        In (line, names) (buildLineToNamesMap P nameValueMap m r) ->
        In nm names ->
        exists model p,
          editor_model (host w) = Some model /\
          wordOccurs P model nm p /\ lineNumber p = line)).
Proof.
  split; [reflexivity|]. split.
  - intros m Hm. unfold getWordToPositionsMap, bind, this. now rewrite Hm.
  - intros Hnone.
    assert (G : exists m,
      wordToLineNumbersMap (self (snd (getWordToPositionsMap P w))) = Some m /\
      (forall r, fst (getWordToPositionsMap P w) = Ok r -> r = m) /\
      (forall word positions p,
         In (word, positions) m -> In p positions ->
         exists model,
           editor_model (host w) = Some model /\ wordOccurs P model word p)).
    { destruct (getWordToPositionsMap P w) as [o w'] eqn:E. cbn [fst snd].
      unfold getWordToPositionsMap, bind at 1, this at 1 in E.
      rewrite Hnone in E.
      unfold bind at 1, assign at 1 in E.
      unfold bind at 1, ask, bind at 1, call in E. wsimpl.
      destruct (faults (host w) (List.length (trace w)) Editor_getModel).
      { apply pair_equal_spec in E; destruct E as [<- <-]. exists []. wsimpl.
        repeat split; [discriminate | intros ? ? ? []]. }
      wsimpl.
      destruct (editor_model (host w)) as [model|] eqn:Emodel.
      2:{ unfold ret in E. apply pair_equal_spec in E; destruct E as [<- <-].
          exists []. wsimpl.
          repeat split; [now intros r [= <-] | intros ? ? ? []]. }
      set (w1 := mkWorld _ _ _ _ _) in E.
      assert (Hvalid : cacheValid P model
                (self (snd (wordsOfLines P 1 (modelLines model) w1)))).
      { apply (@wordsOfLines_valid P model (modelLines model) []);
          [reflexivity | reflexivity |].
        subst w1. wsimpl. intros m [= <-]. intros ? ? ? []. }
      assert (Hsome : wordToLineNumbersMap
                (self (snd (wordsOfLines P 1 (modelLines model) w1))) <> None).
      { apply wordsOfLines_cached. subst w1. wsimpl. discriminate. }
      unfold bind at 1 in E.
      destruct (wordsOfLines P 1 (modelLines model) w1) as [[[]|e] w2];
        cbn [snd] in *.
      - unfold bind, this, ret in E. apply pair_equal_spec in E; destruct E as [<- <-].
        destruct (wordToLineNumbersMap (self w2)) as [m|] eqn:E2;
          [|contradiction].
        exists m. repeat split.
        + now intros r [= <-].
        + intros word ps p Hin Hp. exists model. split; [reflexivity|].
          eapply Hvalid; eauto.
      - apply pair_equal_spec in E; destruct E as [<- <-].
        destruct (wordToLineNumbersMap (self w2)) as [m|] eqn:E2;
          [|contradiction].
        exists m. repeat split.
        + discriminate.
        + intros word ps p Hin Hp. exists model. split; [reflexivity|].
          eapply Hvalid; eauto. }
    destruct G as (m & Hcache & Hret & Hvalid).
    exists m. repeat split; try assumption.
    intros nameValueMap r line names nm Hin Hnm.
    destruct (buildLineToNamesMap_names P nameValueMap m r _ _ _ Hin Hnm)
      as (_ & positions & p & Hget & Hp & Hline & _).
    apply Map_get_In in Hget.
    destruct (Hvalid _ _ _ Hget Hp) as (model & Hmodel & Hocc).
    now exists model, p.
Qed.

(** A line of 501 characters is skipped, a short one is indexed. *)
Example long_line_is_skipped :
  let longModel :=
    mkTextModel "file:///app.js" "javascript"
      [ mkLine (Sample.letters 501) [mkToken 0 501 TokenOther];
        mkLine "x" [mkToken 0 1 TokenOther] ] in
  let h := Sample.stoppedHost None in
  let w :=
    newWorld
      (mkHost (Some longModel) (editor_readOnly h) (debug_state h)
         (focusedStackFrame h) (focusedSession h) (debug_enableAllHovers h)
         (debug_inlineValues h) (editor_hover h) (hover_domNode h)
         (hover_isHovered h) (hover_isVisible h) (faults h)) in
  fst (getWordToPositionsMap Sample.platform w)
  = Ok [("x"%string, [mkPosition 2 0])].
Proof. vm_compute. reflexivity. Qed.

Lemma getWordToPositionsMap_skips_long_lines_witness :
  exists m,
    wordToLineNumbersMap
      (self (snd (getWordToPositionsMap Sample.platform
                    (newWorld (Sample.stoppedHost None))))) = Some m /\
    forall word positions p,
      In (word, positions) m -> In p positions ->
      exists model,
        editor_model (Sample.stoppedHost None) = Some model /\
        wordOccurs Sample.platform model word p.
Proof.
  destruct (getWordToPositionsMap_skips_long_lines Sample.platform
              (newWorld (Sample.stoppedHost None))) as (_ & _ & H).
  destruct (H eq_refl) as (m & H1 & _ & H3 & _).
  exists m. split; assumption.
Defined.

(** ** Footprints: what a computation may touch *)

(** A footprint bounds a computation: how it may change the fields of the
    contribution, which host calls it may make, and whether it may enter
    [updateInlineValueDecorations]. *)
Record Footprint := mkFootprint {
  keeps : Contribution -> Contribution -> Prop;
  allows : HostCall -> Prop;
  counts : Prop
}.

Class Tidy (F : Footprint) := {
  keeps_refl : forall c, keeps F c c;
  keeps_trans : forall a b c, keeps F a b -> keeps F b c -> keeps F a c
}.

Definition within (F : Footprint) (w w' : World) : Prop :=
  host w' = host w /\
  keeps F (self w) (self w') /\
  (exists calls, trace w' = calls ++ trace w /\ Forall (allows F) calls) /\
  (counts F \/ updatePasses w' = updatePasses w).

Definition stays {A} (F : Footprint) (m : M A) : Prop :=
  forall w, within F w (snd (m w)).

Section Stays.
Variable F : Footprint.
Context {tidy : Tidy F}.

Lemma within_refl w : within F w w.
Proof.
  repeat split; [apply keeps_refl | exists []; now split | now right].
Qed.

Lemma within_trans a b c : within F a b -> within F b c -> within F a c.
Proof.
  intros (H1 & K1 & (l1 & T1 & A1) & U1) (H2 & K2 & (l2 & T2 & A2) & U2).
  repeat split.
  - congruence.
  - eapply keeps_trans; eassumption.
  - exists (l2 ++ l1). split; [now rewrite T2, T1, app_assoc|].
    apply Forall_app. now split.
  - destruct U1 as [?|U1]; [now left|].
    destruct U2 as [?|U2]; [now left|]. right. congruence.
Qed.

Lemma stays_ret A (a : A) : stays F (ret a).
Proof. intros w. apply within_refl. Qed.

Lemma stays_bind A B (m : M A) (k : A -> M B) :
  stays F m -> (forall a, stays F (k a)) -> stays F (bind m k).
Proof.
  intros Hm Hk w. unfold bind. specialize (Hm w).
  destruct (m w) as [[a|e] w1]; cbn [snd] in *; [|exact Hm].
  eapply within_trans; [exact Hm | apply Hk].
Qed.

Lemma stays_this A (f : Contribution -> A) : stays F (this f).
Proof. intros w. apply within_refl. Qed.

Lemma stays_assign (f : Contribution -> Contribution) :
  (forall c, keeps F c (f c)) -> stays F (assign f).
Proof.
  intros H w. repeat split; cbn; [apply H | exists []; now split | now right].
Qed.

Lemma stays_call (c : HostCall) : allows F c -> stays F (call c).
Proof.
  intros H w. unfold call.
  destruct (faults _ _ _); cbn [snd]; repeat split; cbn;
    try apply keeps_refl; try (now right);
    exists [c]; split; try reflexivity; now repeat constructor.
Qed.

Lemma stays_ask A (c : HostCall) (f : Host -> A) :
  allows F c -> stays F (ask c f).
Proof.
  intros H. unfold ask. apply stays_bind; [now apply stays_call|].
  intros _ w. apply within_refl.
Qed.

Lemma stays_detach A (m : M A) : stays F m -> stays F (detach m).
Proof.
  intros Hm w. unfold detach. specialize (Hm w).
  destruct (m w) as [[a|e] w1]; cbn [snd] in *; exact Hm.
Qed.

Lemma stays_countPass : counts F -> stays F countPass.
Proof.
  intros H w. repeat split; cbn;
    [apply keeps_refl | exists []; now split | now left].
Qed.

Lemma stays_when (b : bool) (m : M unit) : stays F m -> stays F (when b m).
Proof. intros H. destruct b; [exact H | apply stays_ret]. Qed.

Lemma stays_forEach A (l : list A) (body : A -> M unit) :
  (forall x, stays F (body x)) -> stays F (forEach l body).
Proof.
  intros H. induction l as [|x l IH]; cbn [forEach]; [apply stays_ret|].
  apply stays_bind; [apply H | intros _; exact IH].
Qed.

Lemma stays_mapM A B (f : A -> M B) (l : list A) :
  (forall x, stays F (f x)) -> stays F (mapM f l).
Proof.
  intros H. induction l as [|x l IH]; cbn [mapM]; [apply stays_ret|].
  apply stays_bind; [apply H | intros y].
  apply stays_bind; [exact IH | intros ys; apply stays_ret].
Qed.

Lemma stays_wordsOfLines (P : Platform) (lines : list Line) : forall line,
  (forall n, allows F (Model_forceTokenization n)) ->
  (forall v c, keeps F c (set_wordToLineNumbersMap v c)) ->
  stays F (wordsOfLines P line lines).
Proof.
  intros line Hcall Hset. revert line.
  induction lines as [|l lines IH]; intros line; cbn [wordsOfLines];
    [apply stays_ret|].
  apply stays_bind; [|intros _; apply IH].
  destruct (_ <? _); [apply stays_ret|].
  apply stays_bind; [apply stays_call, Hcall | intros _].
  apply stays_assign. intros c.
  destruct (wordToLineNumbersMap c); [apply Hset | apply keeps_refl].
Qed.
End Stays.

Create HintDb methods.
#[global] Hint Unfold
  scheduler isScheduled schedule cancel _applyHoverConfiguration showHover
  hideHoverWidget closeExceptionWidget showExceptionWidget
  toggleExceptionWidget getWordToPositionsMap
  createInlineValueDecorationsInsideRange updateInlineValueDecorations
  onFocusStackFrame runner onEditorMouseDown onEditorMouseMove onKeyDown
  updateConfigurationWidgetVisibility insertLine addLaunchConfiguration
  listener registerListeners constructor disposeOne dispose exec
  : methods.

(** Decomposes a goal [stays F m] along the structure of [m]; what is
    left are the conditions on [F]: the assignments it must keep and the
    host calls it must allow. *)
Ltac stays_step :=
  lazymatch goal with
  | |- stays _ (bind _ _) => refine (@stays_bind _ _ _ _ _ _ _ _); [ | intro ]
  | |- stays _ (ret _) => refine (@stays_ret _ _ _ _)
  | |- stays _ (this _) => refine (@stays_this _ _ _ _)
  | |- stays _ (assign _) => refine (@stays_assign _ _ _); intro
  | |- stays _ (call _) => refine (@stays_call _ _ _ _)
  | |- stays _ (ask _ _) => refine (@stays_ask _ _ _ _ _ _)
  | |- stays _ (detach _) => refine (@stays_detach _ _ _ _)
  | |- stays _ countPass => refine (@stays_countPass _ _ _)
  | |- stays _ (when _ _) => refine (@stays_when _ _ _ _ _)
  | |- stays _ (forEach _ _) => refine (@stays_forEach _ _ _ _ _ _); intro
  | |- stays _ (mapM _ _) => refine (@stays_mapM _ _ _ _ _ _ _); intro
  | |- stays _ (wordsOfLines _ _ _) =>
      refine (@stays_wordsOfLines _ _ _ _ _ _ _); intros
  | |- stays _ (match ?x with _ => _ end) => destruct x
  | |- stays _ (let _ := _ in _) => cbv zeta
  | |- stays _ _ => progress autounfold with methods
  end.

Ltac stays_steps := repeat stays_step.

(** *** The footprint "leaves the update scheduler alone" *)

(** The update scheduler is left as it is, nothing is removed from
    [toDispose], and [updateInlineValueDecorations] is not entered. *)
Definition sparesUpdate : Footprint :=
  {| keeps := fun c c' =>
       schedulers c' UpdateInlineValues = schedulers c UpdateInlineValues /\
       incl (toDispose c) (toDispose c');
     allows := fun _ => True;
     counts := False |}.

#[global] Instance sparesUpdate_tidy : Tidy sparesUpdate.
Proof.
  split; cbn.
  - intros c. split; [reflexivity | apply incl_refl].
  - intros a b c [H1 H2] [H3 H4]. split; [congruence|].
    eapply incl_tran; eassumption.
Qed.

Ltac spares_update :=
  stays_steps;
  lazymatch goal with
  | |- allows _ _ => exact I
  | |- keeps _ _ _ =>
      cbn; split;
      [ reflexivity
      | first [ apply incl_refl | apply incl_appl, incl_refl ] ]
  | |- _ => idtac
  end.

Lemma other_runners_spare_update (P : Platform) (id : SchedulerId) :
  id <> UpdateInlineValues -> stays sparesUpdate (runner P id).
Proof.
  intros Hid. destruct id; try contradiction; spares_update.
Qed.

(** ** Exceptions of host calls *)

(** The exceptions the host raises for the calls [calls], made in this
    order from the [n]-th call of the run on. *)
Fixpoint raisedBy (h : Host) (n : nat) (calls : list HostCall) : list Exn :=
  match calls with
  | [] => []
  | c :: rest =>
      match faults h n c with
      | Some e => [e]
      | None => []
      end ++ raisedBy h (S n) rest
  end.

(** What a computation hands to its caller as an exception (for an async
    method: what the promise it returns rejects with). *)
Definition thrown {A} (o : Outcome A) : list Exn :=
  match o with
  | Throw e => [e]
  | Ok _ => []
  end.

(** [m] neither swallows nor alters nor invents exceptions: those the host
    raises during a run of [m] are, in order, the rejections of the
    promises [m] dropped, then the exception [m] itself ends with.  When
    [strict], [m] drops none: whatever is raised ends the run and reaches
    the caller. *)
Definition faithful {A} (strict : bool) (m : M A) : Prop :=
  forall w,
    host (snd (m w)) = host w /\
    exists calls rejected,
      trace (snd (m w)) = rev calls ++ trace w /\
      unhandled (snd (m w)) = rev rejected ++ unhandled w /\
      raisedBy (host w) (List.length (trace w)) calls
        = rejected ++ thrown (fst (m w)) /\
      (strict = true -> rejected = []).


Section Faithful.
Variable strict : bool.











End Faithful.

(** A strict computation is faithful in the weaker sense too. *)
Lemma faithful_weaken A (m : M A) : faithful true m -> faithful false m.
Proof.
  intros H w. destruct (H w) as (H1 & calls & rej & T & U & R & _).
  split; [exact H1|]. exists calls, rej. now repeat split.
Qed.





(** A rejected host call ends [showHover] with that very exception ... *)
Example showHover_rethrows :
  let h := Sample.stoppedHost None in
  let failing :=
    mkHost (editor_model h) (editor_readOnly h) (debug_state h)
      (focusedStackFrame h) (focusedSession h) (debug_enableAllHovers h)
      (debug_inlineValues h) (editor_hover h) (hover_domNode h)
      (hover_isHovered h) (hover_isVisible h)
      (fun _ c => match c with
                  | Editor_getModel => Some "disposed"%string
                  | _ => None
                  end) in
  fst (showHover (mkRange 1 5 1 6) false (newWorld failing))
  = Throw "disposed"%string.
Proof. vm_compute. reflexivity. Qed.

(** ... and when the show-hover scheduler runs it, the exception is left
    as the rejection of the promise that nobody awaits. *)
Example showHover_runner_drops_rejection :
  let h := Sample.stoppedHost None in
  let failing :=
    mkHost (editor_model h) (editor_readOnly h) (debug_state h)
      (focusedStackFrame h) (focusedSession h) (debug_enableAllHovers h)
      (debug_inlineValues h) (editor_hover h) (hover_domNode h)
      (hover_isHovered h) (hover_isVisible h)
      (fun _ c => match c with
                  | Editor_getModel => Some "disposed"%string
                  | _ => None
                  end) in
  let w :=
    mkWorld failing (set_hoverRange (Some (mkRange 1 5 1 6)) newContribution)
      [] [] 0 in
  fst (runner Sample.platform ShowHover w) = Ok tt /\
  unhandled (snd (runner Sample.platform ShowHover w)) = ["disposed"%string].
Proof. vm_compute. split; reflexivity. Qed.

(** ** Single operations *)

Lemma newCalls_app (w w' : World) (calls : list HostCall) :
  trace w' = calls ++ trace w -> newCalls w w' = calls.
Proof.
  intros H. unfold newCalls. rewrite H, length_app.
  replace (List.length calls + List.length (trace w) - List.length (trace w))
    with (List.length calls + 0) by lia.
  rewrite firstn_app_2. cbn. apply app_nil_r.
Qed.

(** The host raises nothing. *)
Definition quiet (h : Host) : Prop := forall n c, faults h n c = None.

(** *** Running a computation step by step *)

Definition logged (c : HostCall) (w : World) : World :=
  mkWorld (host w) (self w) (c :: trace w) (unhandled w) (updatePasses w).

Definition assigned (f : Contribution -> Contribution) (w : World) : World :=
  mkWorld (host w) (f (self w)) (trace w) (unhandled w) (updatePasses w).

Lemma bind_bind A B C (m : M A) (k : A -> M B) (k' : B -> M C) w :
  bind (bind m k) k' w = bind m (fun a => bind (k a) k') w.
Proof. unfold bind. now destruct (m w) as [[a|e] w1]. Qed.

Lemma run_bind_ret A B (a : A) (k : A -> M B) w : bind (ret a) k w = k a w.
Proof. reflexivity. Qed.

Lemma run_bind_this A B (f : Contribution -> A) (k : A -> M B) w :
  bind (this f) k w = k (f (self w)) w.
Proof. reflexivity. Qed.

Lemma run_bind_assign B (f : Contribution -> Contribution) (k : unit -> M B) w :
  bind (assign f) k w = k tt (assigned f w).
Proof. reflexivity. Qed.

Lemma run_bind_call B (c : HostCall) (k : unit -> M B) w :
  bind (call c) k w =
  match faults (host w) (List.length (trace w)) c with
  | Some e => (Throw e, logged c w)
  | None => k tt (logged c w)
  end.
Proof. unfold bind, call. now destruct (faults _ _ _). Qed.

Lemma run_bind_ask A B (c : HostCall) (f : Host -> A) (k : A -> M B) w :
  bind (ask c f) k w =
  match faults (host w) (List.length (trace w)) c with
  | Some e => (Throw e, logged c w)
  | None => k (f (host w)) (logged c w)
  end.
Proof. unfold ask, bind, call. now destruct (faults _ _ _). Qed.

Lemma run_ret A (a : A) w : ret a w = (Ok a, w).
Proof. reflexivity. Qed.

Lemma run_this A (f : Contribution -> A) w : this f w = (Ok (f (self w)), w).
Proof. reflexivity. Qed.

Lemma run_assign (f : Contribution -> Contribution) w :
  assign f w = (Ok tt, assigned f w).
Proof. reflexivity. Qed.

Lemma run_call (c : HostCall) w :
  call c w =
  match faults (host w) (List.length (trace w)) c with
  | Some e => (Throw e, logged c w)
  | None => (Ok tt, logged c w)
  end.
Proof. reflexivity. Qed.

Lemma run_ask A (c : HostCall) (f : Host -> A) w :
  ask c f w =
  match faults (host w) (List.length (trace w)) c with
  | Some e => (Throw e, logged c w)
  | None => (Ok (f (host w)), logged c w)
  end.
Proof. unfold ask, bind, call. now destruct (faults _ _ _). Qed.

Ltac lsimpl_in E :=
  cbn [host self trace unhandled updatePasses fst snd logged assigned
       toDispose hoverWidget nonDebugHoverPosition hoverRange mouseDown
       wordToLineNumbersMap exceptionWidget configurationWidget schedulers
       set_toDispose set_hoverWidget set_nonDebugHoverPosition set_hoverRange
       set_mouseDown set_wordToLineNumbersMap set_exceptionWidget
       set_configurationWidget set_schedulers set_scheduler push_toDispose
       timeoutToken hasRunner SchedulerId_eqb scheduler_isDisposed
       List.length] in E.

Ltac lsimpl :=
  cbn [host self trace unhandled updatePasses fst snd logged assigned
       toDispose hoverWidget nonDebugHoverPosition hoverRange mouseDown
       wordToLineNumbersMap exceptionWidget configurationWidget schedulers
       set_toDispose set_hoverWidget set_nonDebugHoverPosition set_hoverRange
       set_mouseDown set_wordToLineNumbersMap set_exceptionWidget
       set_configurationWidget set_schedulers set_scheduler push_toDispose
       timeoutToken hasRunner SchedulerId_eqb scheduler_isDisposed
       List.length].

(** Runs the computation in [E : m w = (o, w')] to its end, splitting on
    what the host answers, and replaces [o] and [w'] by what they are. *)
Ltac run_in E :=
  repeat first
    [ rewrite bind_bind in E
    | rewrite run_bind_ret in E
    | rewrite run_bind_this in E
    | rewrite run_bind_assign in E
    | rewrite run_bind_call in E
    | rewrite run_bind_ask in E
    | rewrite run_ret in E
    | rewrite run_this in E
    | rewrite run_assign in E
    | rewrite run_call in E
    | rewrite run_ask in E
    | progress lsimpl_in E
    | match type of E with
      | context [match ?x with _ => _ end] => destruct x eqn:?
      | context [when ?b _] => unfold when in E
      end
    | progress autounfold with methods in E ];
  try (apply pair_equal_spec in E; destruct E as [<- <-]).

(** C6: a mouse move while the debug service is not stopped changes
    nothing: the fields of the contribution (hover range, hover position,
    mouse state, widgets, schedulers and their timers) are what they
    were, and the only host call made is the reading of the state. *)
Theorem mouse_move_ignored_unless_stopped (P : Platform)
  (mouseEvent : EditorMouseEvent) (w : World) :
  debug_state (host w) <> Stopped ->
  let w' := snd (onEditorMouseMove P mouseEvent w) in
  self w' = self w /\
  host w' = host w /\
  newCalls w w' = [DebugService_state] /\
  unhandled w' = unhandled w /\
  updatePasses w' = updatePasses w /\
  (faults (host w) (List.length (trace w)) DebugService_state = None ->
   fst (onEditorMouseMove P mouseEvent w) = Ok tt).
Proof.
  intros Hstate. cbv zeta.
  destruct (onEditorMouseMove P mouseEvent w) as [o w'] eqn:E.
  unfold onEditorMouseMove in E. rewrite run_bind_ask in E.
  destruct (faults (host w) (List.length (trace w)) DebugService_state) as [e|].
  - apply pair_equal_spec in E; destruct E as [<- <-]. lsimpl.
    repeat split; [|discriminate].
    now apply (@newCalls_app _ _ [DebugService_state]).
  - destruct (debug_state (host w)); try contradiction;
      rewrite run_ret in E;
      apply pair_equal_spec in E; destruct E as [<- <-]; lsimpl;
      (repeat split; now apply (@newCalls_app _ _ [DebugService_state])).
Qed.

Lemma mouse_move_ignored_unless_stopped_witness :
  let w := newWorld Sample.runningHost in
  self (snd (onEditorMouseMove Sample.platform
               (Sample.mouseOver CONTENT_TEXT (Some (mkRange 1 5 1 6))) w))
  = self w.
Proof.
  cbv zeta.
  apply (@mouse_move_ignored_unless_stopped Sample.platform
           (Sample.mouseOver CONTENT_TEXT (Some (mkRange 1 5 1 6)))
           (newWorld Sample.runningHost)).
  cbn. discriminate.
Defined.

(** While stopped, the same move does set the hover range and the timer. *)
Example mouse_move_when_stopped :
  let w := newWorld (Sample.stoppedHost None) in
  let w' := snd (onEditorMouseMove Sample.platform
                   (Sample.mouseOver CONTENT_TEXT (Some (mkRange 1 5 1 6))) w) in
  hoverRange (self w') = Some (mkRange 1 5 1 6) /\
  schedulers (self w') ShowHover = Some (mkScheduler (Some 300) true).
Proof. vm_compute. split; reflexivity. Qed.

(** *** The calls made during a run *)

Definition extends (w w' : World) : Prop :=
  exists calls, trace w' = calls ++ trace w.

Lemma extends_refl w : extends w w.
Proof. now exists []. Qed.

Lemma extends_logged w w' c : extends w w' -> extends w (logged c w').
Proof. intros [l H]. exists (c :: l). cbn. now rewrite H. Qed.

Lemma extends_assigned w w' f : extends w w' -> extends w (assigned f w').
Proof. intros [l H]. now exists l. Qed.

Lemma newCalls_refl w : newCalls w w = [].
Proof. now apply (@newCalls_app w w []). Qed.

Lemma newCalls_logged w w' c :
  extends w w' -> newCalls w (logged c w') = c :: newCalls w w'.
Proof.
  intros [l H]. rewrite (@newCalls_app w w' l H).
  apply (@newCalls_app w _ (c :: l)). cbn. now rewrite H.
Qed.

Lemma newCalls_assigned w w' f :
  newCalls w (assigned f w') = newCalls w w'.
Proof. reflexivity. Qed.

Ltac extends_tac :=
  repeat first [ apply extends_logged | apply extends_assigned ];
  apply extends_refl.

(** Computes [newCalls w w'] when [w'] is [w] with calls logged and fields
    assigned. *)
Ltac calls_known :=
  repeat first
    [ rewrite newCalls_assigned
    | rewrite newCalls_logged by extends_tac
    | rewrite newCalls_refl ].

Ltac calls_known_in H :=
  repeat first
    [ rewrite newCalls_assigned in H
    | rewrite newCalls_logged in H by extends_tac
    | rewrite newCalls_refl in H ].

Ltac not_quiet :=
  match goal with
  | Q : quiet ?h, F : faults ?h _ _ = Some _ |- _ =>
      rewrite Q in F; discriminate F
  end.

(** Membership in an explicit list of calls, case by case. *)
Ltac in_cases H :=
  cbn [In] in H;
  repeat match type of H with
         | _ \/ _ => destruct H as [H|H]
         | False => destruct H
         end;
  try discriminate H.

(** When [showHover] shows the hover: a frame is focused, the editor has a
    model, and the two URIs are equal. *)
Definition hoverApplies (h : Host) : Prop :=
  exists sf model,
    focusedStackFrame h = Some sf /\
    editor_model h = Some model /\
    sourceUri (source (frame sf)) = uri model.

(** C4: [showHover] calls [hoverWidget.showAt] only when a stack frame is
    focused, the editor has a model and the frame's source URI is the
    model's URI, and then with the range and focus it was given; otherwise
    it only reads the two and returns.  It never touches the fields. *)
Theorem showHover_only_for_focused_source (r : Range) (focus : bool)
  (w : World) :
  let w' := snd (showHover r focus w) in
  self w' = self w /\
  (forall r' focus',
     In (HoverWidget_showAt r' focus') (newCalls w w') ->
     hoverApplies (host w) /\ r' = r /\ focus' = focus) /\
  (~ hoverApplies (host w) ->
   incl (newCalls w w') [Editor_getModel; ViewModel_focusedStackFrame] /\
   (quiet (host w) -> fst (showHover r focus w) = Ok tt)) /\
  (hoverApplies (host w) -> quiet (host w) ->
   newCalls w w' =
     [HoverWidget_showAt r focus; Editor_getModel; ViewModel_focusedStackFrame]).
Proof.
  cbv zeta.
  destruct (showHover r focus w) as [o w'] eqn:E. cbn [fst snd].
  run_in E; lsimpl; calls_known;
    (split; [reflexivity|]); (split; [|split]).
  all: try (intros r' focus' H; in_cases H).
  all: try (intros Hno; split;
            [ intros c H; in_cases H; subst c; cbn; tauto
            | intros Q; try not_quiet; reflexivity ]).
  all: try (intros _ Q; not_quiet).
  all: try (intros (sf & model & H1 & H2 & H3) _; try congruence).
  all: try match goal with
           | H : String.eqb _ _ = false |- _ => apply String.eqb_neq in H
           | H : String.eqb _ _ = true |- _ => apply String.eqb_eq in H
           end.
  all: try (injection H as <- <-; split; [|now split]).
  all: try (eexists _, _; repeat split; eassumption).
  all: try (exfalso; apply Hno; eexists _, _; repeat split; eassumption).
  all: try (intros Hno; exfalso; apply Hno; eexists _, _; repeat split;
            eassumption).
  all: try congruence.
Qed.

Lemma showHover_only_for_focused_source_witness :
  newCalls (newWorld (Sample.stoppedHost None))
    (snd (showHover (mkRange 1 5 1 6) false
            (newWorld (Sample.stoppedHost None))))
  = [HoverWidget_showAt (mkRange 1 5 1 6) false; Editor_getModel;
     ViewModel_focusedStackFrame].
Proof.
  destruct (showHover_only_for_focused_source (mkRange 1 5 1 6) false
              (newWorld (Sample.stoppedHost None))) as (_ & _ & _ & H).
  apply H.
  - eexists _, _. cbn. repeat split.
  - intros n c. reflexivity.
Defined.

(** With no frame focused nothing is shown. *)
Example showHover_without_focus :
  newCalls (newWorld Sample.runningHost)
    (snd (showHover (mkRange 1 5 1 6) false (newWorld Sample.runningHost)))
  = [Editor_getModel; ViewModel_focusedStackFrame].
Proof. vm_compute. reflexivity. Qed.

(** ** The exception widget *)

(** The focused frame is the frame the exception was thrown in (the first
    frame of its thread's call stack whose source is available and not
    de-emphasized), and the editor shows the source of that frame. *)
Definition exceptionFrameShown (h : Host) (model : TextModel)
  (sf : StackFrame) (exceptionSf : Frame) : Prop :=
  editor_model h = Some model /\
  focusedStackFrame h = Some sf /\
  first (callStack (thread sf)) isExceptionFrame = Some exceptionSf /\
  frameRef exceptionSf = frameRef (frame sf) /\
  sourceUri (source exceptionSf) = uri model.

(** ... and the thread has exception info, the frame a start line and a
    start column. *)
Definition widgetApplies (h : Host) (info : ExceptionInfo) (line col : Z)
  : Prop :=
  exists model sf exceptionSf,
    exceptionFrameShown h model sf exceptionSf /\
    exceptionInfo (thread sf) = Some info /\
    line = startLineNumber (frameRange exceptionSf) /\
    col = startColumn (frameRange exceptionSf) /\
    line <> 0%Z /\ col <> 0%Z.

(** The cases in which [toggleExceptionWidget] closes the widget: no
    model, no focused frame, an empty call stack, a focused frame that is
    not the first available frame of the stack, or a frame of another
    file than the model's. *)
Definition closingCase (h : Host) : Prop :=
  editor_model h = None \/
  focusedStackFrame h = None \/
  exists sf,
    focusedStackFrame h = Some sf /\
    (callStack (thread sf) = [] \/
     first (callStack (thread sf)) isExceptionFrame = None \/
     (exists exceptionSf,
        first (callStack (thread sf)) isExceptionFrame = Some exceptionSf /\
        frameRef exceptionSf <> frameRef (frame sf)) \/
     (exists exceptionSf model,
        first (callStack (thread sf)) isExceptionFrame = Some exceptionSf /\
        editor_model h = Some model /\
        sourceUri (source exceptionSf) <> uri model)).

Lemma truthy_and (a b : Z) :
  truthy a && truthy b = true -> a <> 0%Z /\ b <> 0%Z.
Proof.
  unfold truthy. intros H. apply andb_prop in H. destruct H as [Ha Hb].
  apply negb_true_iff in Ha, Hb. now apply Z.eqb_neq in Ha, Hb.
Qed.

Lemma truthy_and_false (a b : Z) :
  truthy a && truthy b = false -> a = 0%Z \/ b = 0%Z.
Proof.
  unfold truthy. intros H. apply andb_false_iff in H.
  destruct H as [H|H]; apply negb_false_iff, Z.eqb_eq in H; tauto.
Qed.

(** Turns the boolean tests met along a run into propositions. *)
Ltac tidy_hyps :=
  repeat match goal with
         | H : callStack ?t = _ :: _, H' : first (_ :: _) _ = _ |- _ =>
             rewrite <- H in H'
         | H : String.eqb _ _ = true |- _ => apply String.eqb_eq in H
         | H : String.eqb _ _ = false |- _ => apply String.eqb_neq in H
         | H : Nat.eqb _ _ = true |- _ => apply Nat.eqb_eq in H
         | H : Nat.eqb _ _ = false |- _ => apply Nat.eqb_neq in H
         | H : truthy _ && truthy _ = true |- _ =>
             apply truthy_and in H; destruct H
         | H : truthy _ && truthy _ = false |- _ =>
             apply truthy_and_false in H
         end.

Lemma toggle_shows_only_when_applicable (w w' : World) o :
  toggleExceptionWidget w = (o, w') ->
  forall line col,
    In (ExceptionWidget_show line col) (newCalls w w') ->
    exists info, widgetApplies (host w) info line col.
Proof.
  intros E line col H.
  run_in E; lsimpl; calls_known_in H; in_cases H; tidy_hyps.
  all: injection H as <- <-.
  all: match goal with
       | Hm : editor_model _ = Some ?model,
         Hs : focusedStackFrame _ = Some ?sf,
         Hf : first _ _ = Some ?exceptionSf,
         Hi : exceptionInfo _ = Some ?info |- _ =>
           exists info, model, sf, exceptionSf; unfold exceptionFrameShown;
           repeat split; assumption
       end.
Qed.

Lemma toggle_closes (w w' : World) o :
  toggleExceptionWidget w = (o, w') ->
  o = Ok tt ->
  closingCase (host w) ->
  exceptionWidget (self w') = None /\
  (exceptionWidget (self w) <> None ->
   In ExceptionWidget_dispose (newCalls w w')).
Proof.
  intros E Ho Hc.
  run_in E; try discriminate Ho; lsimpl; calls_known; tidy_hyps.
  all: try (split; [reflexivity || assumption
                   | intros; try congruence; cbn; tauto]).
  all: exfalso;
       destruct Hc as [Hc|[Hc|(sf & Hsf & [Hc|[Hc|[(ex & Hc & Hr)
                                                  |(ex & m & Hc & Hm & Hu)]]])]];
       congruence.
Qed.

(** Identifies the values the host answered with those of the hypotheses. *)
Ltac same_values :=
  repeat match goal with
         | H : Some ?a = Some ?b |- _ =>
             injection H as H; first [subst a | subst b | idtac]
         | H : None = Some _ |- _ => discriminate H
         | H : Some _ = None |- _ => discriminate H
         | H : callStack ?t = [], H' : first (callStack ?t) _ = Some _ |- _ =>
             rewrite H in H'; discriminate H'
         end.

Lemma toggle_leaves_widget (w w' : World) o model sf exceptionSf :
  toggleExceptionWidget w = (o, w') ->
  exceptionFrameShown (host w) model sf exceptionSf ->
  exceptionInfo (thread sf) = None \/
  startLineNumber (frameRange exceptionSf) = 0%Z \/
  startColumn (frameRange exceptionSf) = 0%Z ->
  self w' = self w /\
  incl (newCalls w w')
    [Thread_exceptionInfo; Thread_getCallStack; ViewModel_focusedStackFrame;
     Editor_getModel].
Proof.
  intros E (Hm & Hs & Hf & Hr & Hu) Hmissing.
  run_in E; lsimpl; calls_known; tidy_hyps.
  all: try (split; [reflexivity | intros c H; in_cases H; subst c; cbn; tauto]).
  all: exfalso; same_values; try congruence.
  all: destruct Hmissing as [H'|[H'|H']]; congruence.
Qed.

Lemma toggle_shows (w w' : World) o info line col :
  toggleExceptionWidget w = (o, w') ->
  widgetApplies (host w) info line col ->
  quiet (host w) ->
  o = Ok tt /\
  exceptionWidget (self w')
    = Some (mkExceptionWidget info (focusedSession (host w))) /\
  In (ExceptionWidget_show line col) (newCalls w w').
Proof.
  intros E (model & sf & ex & (Hm & Hs & Hf & Hr & Hu) & Hi & -> & -> & Hl & Hc)
    Q.
  run_in E; try not_quiet; lsimpl; calls_known; tidy_hyps; same_values;
    try congruence.
  all: try (match goal with H : _ = 0%Z \/ _ = 0%Z |- _ => destruct H end;
            congruence).
  all: rewrite Hf in *; rewrite Hi in *; same_values.
  all: repeat split; cbn; tauto.
Qed.

(** C3, as the code has it: [toggleExceptionWidget] shows the exception
    widget only when the editor has a model, a frame is focused, that
    frame is the first available, not de-emphasized frame of its thread's
    call stack, its source is the model's, and the thread has exception
    info with a start line and column; then, if the host raises nothing,
    it does show it.  Without a model, without a focused frame, with an
    empty call stack, with a focused frame that is not that first frame,
    or with a frame of another file, a normal return leaves no widget:
    an open one has been disposed.  What is left, the frame of the
    exception shown in this editor but no exception info (or no start
    line or column), leaves the fields as they are: an open widget
    stays. *)
Theorem toggleExceptionWidget_cases (w : World) :
  let o := fst (toggleExceptionWidget w) in
  let w' := snd (toggleExceptionWidget w) in
  (forall line col,
     In (ExceptionWidget_show line col) (newCalls w w') ->
     exists info, widgetApplies (host w) info line col) /\
  (forall info line col,
     widgetApplies (host w) info line col -> quiet (host w) ->
     o = Ok tt /\
     exceptionWidget (self w')
       = Some (mkExceptionWidget info (focusedSession (host w))) /\
     In (ExceptionWidget_show line col) (newCalls w w')) /\
  (closingCase (host w) -> o = Ok tt ->
   exceptionWidget (self w') = None /\
   (exceptionWidget (self w) <> None ->
    In ExceptionWidget_dispose (newCalls w w'))) /\
  (forall model sf exceptionSf,
     exceptionFrameShown (host w) model sf exceptionSf ->
     exceptionInfo (thread sf) = None \/
     startLineNumber (frameRange exceptionSf) = 0%Z \/
     startColumn (frameRange exceptionSf) = 0%Z ->
     self w' = self w /\
     incl (newCalls w w')
       [Thread_exceptionInfo; Thread_getCallStack;
        ViewModel_focusedStackFrame; Editor_getModel]).
Proof.
  cbv zeta. destruct (toggleExceptionWidget w) as [o w'] eqn:E.
  cbn [fst snd]. split; [|split; [|split]].
  - intros line col. eapply toggle_shows_only_when_applicable; eassumption.
  - intros info line col. eapply toggle_shows; eassumption.
  - intros Hc Ho. eapply toggle_closes; eassumption.
  - intros model sf exceptionSf. eapply toggle_leaves_widget; eassumption.
Qed.

(** The debuggee runs on: no frame is focused any more, and the widget
    that was open is closed. *)
Lemma toggleExceptionWidget_cases_witness :
  let w := snd (hostBecomes Sample.runningHost
                  (Sample.stoppedWorld (Some Sample.anException))) in
  exceptionWidget (self w) <> None /\
  exceptionWidget (self (snd (toggleExceptionWidget w))) = None.
Proof.
  cbv zeta. split; [vm_compute; discriminate|].
  destruct (toggleExceptionWidget_cases
              (snd (hostBecomes Sample.runningHost
                      (Sample.stoppedWorld (Some Sample.anException)))))
    as (_ & _ & H & _).
  destruct H as [H _];
    [right; left; vm_compute; reflexivity | vm_compute; reflexivity
    | exact H].
Defined.

(** The claim "in every other case any existing exception widget is
    closed" fails: the focused frame is the frame of the exception and the
    editor shows its file, but the thread has no exception info.  The
    widget is not to be shown, and the one that is open stays open. *)
Lemma exception_widget_survives_missing_info :
  let w := snd (hostBecomes (Sample.stoppedHost None)
                  (Sample.stoppedWorld (Some Sample.anException))) in
  (forall info line col, ~ widgetApplies (host w) info line col) /\
  fst (toggleExceptionWidget w) = Ok tt /\
  exceptionWidget (self w) <> None /\
  exceptionWidget (self (snd (toggleExceptionWidget w)))
    = exceptionWidget (self w) /\
  ~ In ExceptionWidget_dispose
      (newCalls w (snd (toggleExceptionWidget w))).
Proof.
  cbv zeta. split; [|split; [|split; [|split]]].
  - intros info line col (model & sf & ex & (_ & Hs & _) & Hi & _).
    cbn in Hs. injection Hs as <-. cbn in Hi. discriminate.
  - vm_compute. reflexivity.
  - vm_compute. discriminate.
  - vm_compute. reflexivity.
  - vm_compute. intros H. in_cases H.
Qed.

(** ** Scrolling *)

(** The listener for scroll changes evaluates [this.hideHoverWidget]
    without calling it: nothing happens. *)
Lemma scroll_listener_does_nothing (P : Platform) (w : World) :
  listener P DidScrollChange w = (Ok tt, w).
Proof. reflexivity. Qed.

(** C2 fails on the code.  The mouse rests on [x] in a stopped session,
    the hover widget is visible and a show pass is pending.  A scroll
    change leaves the world as it is: no hide timer is started, the show
    timer stays pending, and even 600 ms later the widget has not been
    hidden.  A key press in the same world, which does call
    [hideHoverWidget], starts the hide timer, cancels the show timer, and
    600 ms later [hoverWidget.hide] is called. *)
Theorem scroll_does_not_hide_hover :
  let P := Sample.platform in
  let w :=
    snd (deliver P
           (MouseMove (Sample.mouseOver CONTENT_TEXT (Some (mkRange 1 5 1 6))))
           (Sample.stoppedWorld None)) in
  let scrolled := snd (deliver P DidScrollChange w) in
  let keyed := snd (deliver P (KeyDown (KeyCode_Other 30)) w) in
  hover_isVisible (host w) = true /\
  In (ListenerOf OnDidScrollChange) (toDispose (self w)) /\
  scrolled = w /\
  schedulers (self scrolled) HideHover = None /\
  schedulers (self scrolled) ShowHover = Some (mkScheduler (Some 300) true) /\
  ~ In HoverWidget_hide (newCalls w (snd (advance P 600 scrolled))) /\
  schedulers (self keyed) HideHover = Some (mkScheduler (Some 600) true) /\
  schedulers (self keyed) ShowHover = Some (mkScheduler None true) /\
  In HoverWidget_hide (newCalls w (snd (advance P 600 keyed))).
Proof.
  vm_compute. repeat split; try tauto.
  intros H. in_cases H.
Qed.

(** ** Timers *)

(** The timer of [id] is not pending (or the scheduler does not exist). *)
Definition idle (c : Contribution) (id : SchedulerId) : Prop :=
  forall s, schedulers c id = Some s -> timeoutToken s = None.

(** Calls that show a hover: the debug hover, or the editor's own. *)
Definition showsHover (c : HostCall) : Prop :=
  match c with
  | HoverWidget_showAt _ _ | GetHover _ _ _ => True
  | _ => False
  end.

(** The footprint "starts no hover timer and shows no hover". *)
Definition hoverless : Footprint :=
  {| keeps := fun c c' =>
       (idle c ShowHover -> idle c' ShowHover) /\
       (idle c ProvideNonDebugHover -> idle c' ProvideNonDebugHover);
     allows := fun c => ~ showsHover c;
     counts := True |}.

#[global] Instance hoverless_tidy : Tidy hoverless.
Proof. split; cbn; intros; tauto. Qed.

Ltac hoverless_tac :=
  stays_steps;
  lazymatch goal with
  | |- allows _ _ => cbn; tauto
  | |- counts _ => exact I
  | |- keeps _ _ _ => cbn; unfold idle; cbn; tauto
  | |- _ => idtac
  end.

Lemma quiet_runners_hoverless (P : Platform) (id : SchedulerId) :
  id <> ShowHover -> id <> ProvideNonDebugHover ->
  stays hoverless (runner P id).
Proof.
  intros H1 H2. destruct id; try contradiction; hoverless_tac.
Qed.

(** A timeout of a timer that is not pending does nothing. *)
Lemma onTimeout_idle (P : Platform) (id : SchedulerId) (w : World) :
  idle (self w) id -> onTimeout P id w = (Ok tt, w).
Proof.
  intros H. unfold onTimeout. rewrite run_bind_this.
  destruct (schedulers (self w) id) as [s|] eqn:E; [|reflexivity].
  now rewrite (H s E).
Qed.

Lemma onTimeout_ok (P : Platform) (id : SchedulerId) (w : World) :
  fst (onTimeout P id w) = Ok tt.
Proof.
  unfold onTimeout. rewrite run_bind_this.
  destruct (schedulers (self w) id) as [s|]; [|reflexivity].
  destruct (timeoutToken s) as [[|n]|]; try reflexivity.
  rewrite run_bind_assign. unfold when, detach.
  destruct (hasRunner s); [|reflexivity].
  now destruct (runner P id _) as [[[]|e] w1].
Qed.

Lemma onTimeout_hoverless (P : Platform) (id : SchedulerId) (w : World) :
  idle (self w) ShowHover -> idle (self w) ProvideNonDebugHover ->
  within hoverless w (snd (onTimeout P id w)).
Proof.
  intros H1 H2.
  destruct id;
    try (rewrite onTimeout_idle by assumption;
         exact (within_refl (F:=hoverless) _)).
  all: revert w H1 H2;
       match goal with
       | |- forall w, _ -> _ -> within _ w (snd (?m w)) =>
           assert (H : stays hoverless m)
       end;
       [|intros w _ _; apply H].
  all: unfold onTimeout; stays_steps;
       lazymatch goal with
       | |- keeps _ _ _ => cbn; unfold idle; cbn; tauto
       | |- allows _ _ => cbn; tauto
       | |- counts _ => exact I
       | |- _ => idtac
       end.
Qed.

(** A loop whose body always returns normally, under an invariant [J]
    that the footprint [F] maintains. *)
Lemma forEach_within (F : Footprint) {tidy : Tidy F} (J : World -> Prop)
  A (body : A -> M unit) (l : list A) :
  (forall w w', J w -> within F w w' -> J w') ->
  (forall x w, J w ->
     within F w (snd (body x w)) /\ fst (body x w) = Ok tt) ->
  forall w, J w ->
    within F w (snd (forEach l body w)) /\ fst (forEach l body w) = Ok tt.
Proof.
  intros HJ Hbody. induction l as [|x l IH]; intros w Hw; cbn [forEach].
  - split; [refine (within_refl _) | reflexivity].
  - unfold bind. destruct (Hbody x w Hw) as [Hin Hok].
    destruct (body x w) as [[[]|e] w1]; cbn [fst snd] in *; [|discriminate].
    destruct (IH w1 (HJ _ _ Hw Hin)) as [Hin' Hok'].
    split; [refine (within_trans _ _); eassumption | exact Hok'].
Qed.

Definition hoverTimersIdle (w : World) : Prop :=
  idle (self w) ShowHover /\ idle (self w) ProvideNonDebugHover.

Lemma hoverTimersIdle_within (w w' : World) :
  hoverTimersIdle w -> within hoverless w w' -> hoverTimersIdle w'.
Proof. intros [H1 H2] (_ & [K1 K2] & _). split; auto. Qed.

Lemma elapseOne_idle (s : RunOnceScheduler) :
  timeoutToken s = None -> timeoutToken (elapseOne s) = None.
Proof. unfold elapseOne. intros H. now rewrite H. Qed.

Lemma tick_hoverless (P : Platform) (w : World) :
  hoverTimersIdle w ->
  within hoverless w (snd (tick P w)) /\ fst (tick P w) = Ok tt.
Proof.
  intros Hw. unfold tick, elapse. rewrite run_bind_assign.
  set (w0 := assigned _ w).
  assert (H0 : within hoverless w w0).
  { subst w0. repeat split; cbn; try (now right); try (exists []; now split).
    all: intros H s; cbn;
         match goal with
         | |- match schedulers ?c ?id with _ => _ end = _ -> _ =>
             destruct (schedulers c id) as [s0|] eqn:E
         end;
         [|discriminate]; intros [= <-]; apply elapseOne_idle, (H s0 E). }
  destruct (@forEach_within hoverless _ hoverTimersIdle _ (onTimeout P)
              allSchedulers hoverTimersIdle_within) with (w := w0)
    as [Hin Hok].
  - intros id w1 [H1 H2]. split; [now apply onTimeout_hoverless|].
    apply onTimeout_ok.
  - eapply hoverTimersIdle_within; eassumption.
  - split; [refine (within_trans _ _); eassumption | exact Hok].
Qed.

Lemma advance_hoverless (P : Platform) (ms : nat) : forall w,
  hoverTimersIdle w ->
  within hoverless w (snd (advance P ms w)) /\ fst (advance P ms w) = Ok tt.
Proof.
  induction ms as [|ms IH]; intros w Hw; cbn [advance].
  - split; [refine (within_refl _) | reflexivity].
  - unfold bind. destruct (tick_hoverless P Hw) as [Hin Hok].
    destruct (tick P w) as [[[]|e] w1]; cbn [fst snd] in *; [|discriminate].
    destruct (IH w1 (hoverTimersIdle_within Hw Hin)) as [Hin' Hok'].
    split; [refine (within_trans _ _); eassumption | exact Hok'].
Qed.

(** After [hideHoverWidget] both hover timers exist and are not pending. *)
Lemma hideHoverWidget_cancels (w w' : World) o :
  hideHoverWidget w = (o, w') -> o = Ok tt ->
  (exists s, schedulers (self w') ShowHover = Some s /\
             timeoutToken s = None) /\
  (exists s, schedulers (self w') ProvideNonDebugHover = Some s /\
             timeoutToken s = None).
Proof.
  intros E Ho.
  run_in E; try discriminate Ho; lsimpl; split; eexists; split;
    reflexivity.
Qed.

(** C5: cancelling is cancelling a pending timer.  When [hideHoverWidget]
    returns, the show-hover timer and the non-debug-hover timer are not
    pending, whatever was scheduled before; and as time passes from
    there, no pass shows a hover: neither [hoverWidget.showAt] nor
    [getHover] is called, however long one waits.  No cancellation token
    is ever cancelled: the one token of the model is
    [CancellationToken.None], which is what [getHover] is called with. *)
Theorem hide_cancels_pending_hover_passes (P : Platform) (w : World) :
  fst (hideHoverWidget w) = Ok tt ->
  let w' := snd (hideHoverWidget w) in
  (exists s, schedulers (self w') ShowHover = Some s /\
             RunOnceScheduler_isScheduled s = false) /\
  (exists s, schedulers (self w') ProvideNonDebugHover = Some s /\
             RunOnceScheduler_isScheduled s = false) /\
  (forall ms c,
     In c (newCalls w' (snd (advance P ms w'))) -> ~ showsHover c) /\
  (forall ms model p token,
     In (GetHover model p token) (trace (snd (advance P ms w))) ->
     token = CancellationToken_None).
Proof.
  cbv zeta. intros Hok.
  destruct (hideHoverWidget w) as [o w'] eqn:E. cbn [fst snd] in *.
  destruct (@hideHoverWidget_cancels w w' o E Hok)
    as [(s1 & E1 & T1) (s2 & E2 & T2)].
  split; [|split; [|split]].
  - exists s1. split; [exact E1|]. unfold RunOnceScheduler_isScheduled.
    now rewrite T1.
  - exists s2. split; [exact E2|]. unfold RunOnceScheduler_isScheduled.
    now rewrite T2.
  - intros ms c Hc.
    assert (Hidle : hoverTimersIdle w').
    { split; intros s Hs; congruence. }
    destruct (advance_hoverless P ms Hidle)
      as [(_ & _ & (calls & Ht & Hall) & _) _].
    rewrite (@newCalls_app _ _ _ Ht) in Hc.
    rewrite Forall_forall in Hall. now apply Hall.
  - intros ms model p []. reflexivity.
Qed.

Lemma hide_cancels_pending_hover_passes_witness :
  let P := Sample.platform in
  let w :=
    snd (deliver P
           (MouseMove (Sample.mouseOver CONTENT_TEXT (Some (mkRange 1 5 1 6))))
           (Sample.stoppedWorld None)) in
  let w' := snd (hideHoverWidget w) in
  RunOnceScheduler_isScheduled
    (match schedulers (self w) ShowHover with
     | Some s => s
     | None => RunOnceScheduler_new
     end) = true /\
  ~ In (HoverWidget_showAt (mkRange 1 5 1 6) false)
      (newCalls w' (snd (advance P 300 w'))).
Proof.
  cbv zeta. split; [vm_compute; reflexivity|].
  intros H.
  destruct (@hide_cancels_pending_hover_passes Sample.platform
              (snd (deliver Sample.platform
                      (MouseMove (Sample.mouseOver CONTENT_TEXT
                                    (Some (mkRange 1 5 1 6))))
                      (Sample.stoppedWorld None))))
    as (_ & _ & Hnone & _).
  - vm_compute. reflexivity.
  - apply (Hnone 300 _ H). exact I.
Defined.

(** ** Coalescing of content changes *)

Lemma bind_ok A B (m : M A) (k : A -> M B) (w : World) (a : A) :
  fst (m w) = Ok a -> bind m k w = k a (snd (m w)).
Proof. unfold bind. destruct (m w) as [[a'|e] w1]; cbn; congruence. Qed.

Lemma forEach_ok A (body : A -> M unit) (l : list A) :
  (forall x w, fst (body x w) = Ok tt) ->
  forall w, fst (forEach l body w) = Ok tt.
Proof.
  intros H. induction l as [|x l IH]; intros w; cbn [forEach];
    [reflexivity|].
  rewrite (@bind_ok _ _ _ _ w tt) by apply H. apply IH.
Qed.

Lemma tick_ok (P : Platform) (w : World) : fst (tick P w) = Ok tt.
Proof.
  unfold tick, elapse. rewrite run_bind_assign.
  apply forEach_ok. intros id w1. apply onTimeout_ok.
Qed.

Lemma advance_ok (P : Platform) (ms : nat) : forall w,
  fst (advance P ms w) = Ok tt.
Proof.
  induction ms as [|ms IH]; intros w; cbn [advance]; [reflexivity|].
  rewrite (@bind_ok _ _ _ _ w tt) by apply tick_ok. apply IH.
Qed.

Lemma advance_S (P : Platform) (ms : nat) (w : World) :
  snd (advance P (S ms) w) = snd (advance P ms (snd (tick P w))).
Proof.
  cbn [advance]. now rewrite (@bind_ok _ _ _ _ w tt) by apply tick_ok.
Qed.

Lemma advance_add (P : Platform) (a b : nat) : forall w,
  snd (advance P (a + b) w) = snd (advance P b (snd (advance P a w))).
Proof.
  induction a as [|a IH]; intros w; [reflexivity|].
  cbn [Nat.add]. rewrite !advance_S. apply IH.
Qed.

(** The update timer is pending with [ms] milliseconds left, on a
    scheduler that still has its runner. *)
Definition armed (ms : nat) (w : World) : Prop :=
  exists s,
    schedulers (self w) UpdateInlineValues = Some s /\
    timeoutToken s = Some ms /\ hasRunner s = true.

Definition installed (k : EventKind) (w : World) : Prop :=
  In (ListenerOf k) (toDispose (self w)).

(** What the other schedulers' timeouts do in a tick. *)
Lemma onTimeout_spares_update (P : Platform) (id : SchedulerId) :
  id <> UpdateInlineValues -> stays sparesUpdate (onTimeout P id).
Proof.
  intros Hid. destruct id; try contradiction; unfold onTimeout;
    spares_update.
Qed.

Lemma stays_forEach_in (F : Footprint) {tidy : Tidy F} A (l : list A)
  (body : A -> M unit) :
  (forall x, In x l -> stays F (body x)) -> stays F (forEach l body).
Proof.
  induction l as [|x l IH]; intros H; cbn [forEach];
    [refine (@stays_ret _ _ _ _)|].
  refine (@stays_bind _ _ _ _ _ _ _ _); [apply H; now left | intros _].
  apply IH. intros y Hy. apply H. now right.
Qed.

Lemma forEach_app A (l1 l2 : list A) (body : A -> M unit) :
  (forall x w, fst (body x w) = Ok tt) ->
  forall w,
    snd (forEach (l1 ++ l2) body w)
    = snd (forEach l2 body (snd (forEach l1 body w))).
Proof.
  intros Hok. induction l1 as [|x l1 IH]; intros w; cbn [forEach app];
    [reflexivity|].
  rewrite !(@bind_ok _ _ _ _ w tt) by apply Hok. apply IH.
Qed.

(** The world after one millisecond has passed on every timer. *)
Definition elapsed (w : World) : World :=
  assigned
    (fun c =>
       set_schedulers
         (fun id =>
            match schedulers c id with
            | Some s => Some (elapseOne s)
            | None => None
            end) c) w.

(** A tick: the timers advance, the other schedulers time out if due,
    then the update scheduler does. *)
Lemma tick_split (P : Platform) (w : World) :
  exists w4,
    within sparesUpdate (elapsed w) w4 /\
    snd (tick P w) = snd (onTimeout P UpdateInlineValues w4).
Proof.
  unfold tick, elapse. rewrite run_bind_assign. fold (elapsed w).
  change allSchedulers
    with ([ShowHover; HideHover; ProvideNonDebugHover; RemoveInlineValues]
          ++ [UpdateInlineValues]).
  rewrite forEach_app by (intros; apply onTimeout_ok).
  exists (snd (forEach
                 [ShowHover; HideHover; ProvideNonDebugHover;
                  RemoveInlineValues] (onTimeout P) (elapsed w))).
  split.
  - apply (@stays_forEach_in sparesUpdate _). intros id Hid.
    apply onTimeout_spares_update. intros ->. in_cases Hid.
  - cbn [forEach].
    now rewrite (@bind_ok _ _ _ _ _ tt) by apply onTimeout_ok.
Qed.

Definition counted (w : World) : World :=
  mkWorld (host w) (self w) (trace w) (unhandled w) (S (updatePasses w)).

Lemma run_bind_countPass B (k : unit -> M B) w :
  bind countPass k w = k tt (counted w).
Proof. reflexivity. Qed.

(** Past its entry, [updateInlineValueDecorations] leaves the update
    scheduler alone and does not enter itself again. *)
Lemma update_pass_once (P : Platform) (sf : option StackFrame) (w : World) :
  within sparesUpdate (counted w)
    (snd (updateInlineValueDecorations P sf w)).
Proof.
  unfold updateInlineValueDecorations. rewrite run_bind_countPass.
  match goal with
  | |- within _ _ (snd (?m (counted w))) =>
      assert (H : stays sparesUpdate m) by spares_update
  end.
  apply H.
Qed.

(** The runner of the update scheduler makes at most one pass, and exactly
    one when reading the focused frame does not throw. *)
Lemma update_runner_once (P : Platform) (w : World) :
  let w' := snd (runner P UpdateInlineValues w) in
  host w' = host w /\
  schedulers (self w') UpdateInlineValues
    = schedulers (self w) UpdateInlineValues /\
  incl (toDispose (self w)) (toDispose (self w')) /\
  updatePasses w' <= S (updatePasses w) /\
  (quiet (host w) -> updatePasses w' = S (updatePasses w)).
Proof.
  cbv zeta. cbn [runner]. rewrite run_bind_ask.
  destruct (faults (host w) (List.length (trace w))
              ViewModel_focusedStackFrame) as [e|] eqn:F.
  - cbn. repeat split; [apply incl_refl | lia | intros Q; now rewrite Q in F].
  - destruct (update_pass_once P (focusedStackFrame (host w))
                (logged ViewModel_focusedStackFrame w))
      as (Hh & [Hs Hd] & _ & [[]|Hp]).
    rewrite Hh, Hs. cbn in Hp |- *. rewrite Hp.
    repeat split; [exact Hd | lia].
Qed.

(** The host is the same and nothing was removed from [toDispose]. *)
Definition carries (w w' : World) : Prop :=
  host w' = host w /\ incl (toDispose (self w)) (toDispose (self w')).

Lemma carries_refl w : carries w w.
Proof. split; [reflexivity | apply incl_refl]. Qed.

Lemma carries_trans a b c : carries a b -> carries b c -> carries a c.
Proof.
  intros [H1 H2] [H3 H4]. split; [congruence | eapply incl_tran; eassumption].
Qed.

Lemma detach_fields A (m : M A) (w : World) :
  host (snd (detach m w)) = host (snd (m w)) /\
  self (snd (detach m w)) = self (snd (m w)) /\
  updatePasses (snd (detach m w)) = updatePasses (snd (m w)) /\
  trace (snd (detach m w)) = trace (snd (m w)).
Proof. unfold detach. now destruct (m w) as [[a|e] w1]. Qed.

(** With more than a millisecond left, a tick only lets time pass. *)
Lemma tick_armed (P : Platform) (r : nat) (w : World) :
  armed (S (S r)) w ->
  armed (S r) (snd (tick P w)) /\
  updatePasses (snd (tick P w)) = updatePasses w /\
  carries w (snd (tick P w)).
Proof.
  intros (s & Hs & Ht & Hr).
  destruct (tick_split P w) as (w4 & (Hh & [Hu Hd] & _ & [[]|Hp]) & ->).
  assert (H4 : schedulers (self w4) UpdateInlineValues
               = Some (mkScheduler (Some (S r)) (hasRunner s))).
  { rewrite Hu. cbn. rewrite Hs. unfold elapseOne. now rewrite Ht. }
  unfold onTimeout. rewrite run_bind_this, H4. cbn [timeoutToken].
  rewrite run_ret. cbn [snd].
  repeat split; try assumption.
  exists (mkScheduler (Some (S r)) (hasRunner s)). now repeat split.
Qed.

(** With one millisecond left, the tick runs the update pass. *)
Lemma tick_fires (P : Platform) (w : World) :
  armed 1 w ->
  idle (self (snd (tick P w))) UpdateInlineValues /\
  updatePasses (snd (tick P w)) <= S (updatePasses w) /\
  (quiet (host w) -> updatePasses (snd (tick P w)) = S (updatePasses w)) /\
  carries w (snd (tick P w)).
Proof.
  intros (s & Hs & Ht & Hr).
  destruct (tick_split P w) as (w4 & (Hh & [Hu Hd] & _ & [[]|Hp]) & ->).
  assert (H4 : schedulers (self w4) UpdateInlineValues
               = Some (mkScheduler (Some 0) true)).
  { rewrite Hu. cbn. rewrite Hs. unfold elapseOne. now rewrite Ht, Hr. }
  unfold onTimeout. rewrite run_bind_this, H4. cbn [timeoutToken hasRunner].
  rewrite run_bind_assign. unfold when.
  set (w5 := assigned _ w4).
  destruct (detach_fields (runner P UpdateInlineValues) w5)
    as (Dh & Ds & Dp & _).
  destruct (update_runner_once P w5) as (Rh & Rs & Rd & Rp & Rq).
  cbv zeta in *. unfold carries.
  rewrite Dp, Ds, Dh, Rh.
  assert (Hp5 : updatePasses w5 = updatePasses w) by (subst w5; exact Hp).
  assert (Hh5 : host w5 = host w) by (subst w5; exact Hh).
  repeat split.
  - intros s'. rewrite Rs. subst w5. cbn. now intros [= <-].
  - lia.
  - intros Q. rewrite <- Hp5. apply Rq. now rewrite Hh5.
  - exact Hh5.
  - eapply incl_tran; [exact Hd|]. eapply incl_tran; [|exact Rd].
    subst w5. cbn. apply incl_refl.
Qed.

(** With the update timer not pending, a tick makes no update pass. *)
Lemma tick_disarmed (P : Platform) (w : World) :
  idle (self w) UpdateInlineValues ->
  idle (self (snd (tick P w))) UpdateInlineValues /\
  updatePasses (snd (tick P w)) = updatePasses w /\
  carries w (snd (tick P w)).
Proof.
  intros Hidle.
  destruct (tick_split P w) as (w4 & (Hh & [Hu Hd] & _ & [[]|Hp]) & ->).
  assert (H4 : idle (self w4) UpdateInlineValues).
  { intros s. rewrite Hu. cbn.
    destruct (schedulers (self w) UpdateInlineValues) as [s0|] eqn:E;
      [|discriminate].
    intros [= <-]. apply elapseOne_idle, (Hidle s0 E). }
  rewrite onTimeout_idle by exact H4. cbn [snd].
  repeat split; assumption.
Qed.

Lemma advance_armed (P : Platform) (ms r : nat) : forall w,
  armed (ms + S r) w ->
  armed (S r) (snd (advance P ms w)) /\
  updatePasses (snd (advance P ms w)) = updatePasses w /\
  carries w (snd (advance P ms w)).
Proof.
  induction ms as [|ms IH]; intros w Hw.
  - cbn. repeat split; [exact Hw | apply incl_refl].
  - rewrite advance_S.
    replace (S ms + S r) with (S (S (ms + r))) in Hw by lia.
    destruct (@tick_armed P _ _ Hw) as (Ha & Hp & Hc).
    replace (S (ms + r)) with (ms + S r) in Ha by lia.
    destruct (IH _ Ha) as (Ha' & Hp' & Hc').
    repeat split; [exact Ha' | congruence | | ];
      apply (carries_trans Hc Hc').
Qed.

Lemma advance_disarmed (P : Platform) (ms : nat) : forall w,
  idle (self w) UpdateInlineValues ->
  idle (self (snd (advance P ms w))) UpdateInlineValues /\
  updatePasses (snd (advance P ms w)) = updatePasses w /\
  carries w (snd (advance P ms w)).
Proof.
  induction ms as [|ms IH]; intros w Hw.
  - cbn. repeat split; [exact Hw | apply incl_refl].
  - rewrite advance_S.
    destruct (@tick_disarmed P _ Hw) as (Ha & Hp & Hc).
    destruct (IH _ Ha) as (Ha' & Hp' & Hc').
    repeat split; [exact Ha' | congruence | | ];
      apply (carries_trans Hc Hc').
Qed.

(** The update scheduler, if it exists, has not been disposed. *)
Definition updateRunnerSet (w : World) : Prop :=
  forall s,
    schedulers (self w) UpdateInlineValues = Some s -> hasRunner s = true.

Lemma armed_runnerSet ms w : armed ms w -> updateRunnerSet w.
Proof. intros (s & Hs & _ & Hr) s' Hs'. congruence. Qed.

Lemma installed_existsb (k : EventKind) (w : World) :
  installed k w -> existsb (isListenerOf k) (toDispose (self w)) = true.
Proof.
  intros H. apply existsb_exists. exists (ListenerOf k). split; [exact H|].
  cbn. now destruct k.
Qed.

(** What a content change does, at once: it drops the word map and arms
    the update timer with 200 ms; no host call, no update pass. *)
Lemma deliver_content_change (P : Platform) (w : World) :
  installed OnDidChangeModelContent w ->
  updateRunnerSet w ->
  let w1 := snd (deliver P DidChangeModelContent w) in
  armed 200 w1 /\
  updatePasses w1 = updatePasses w /\
  trace w1 = trace w /\
  unhandled w1 = unhandled w /\
  wordToLineNumbersMap (self w1) = None /\
  toDispose (self w1) = toDispose (self w) /\
  host w1 = host w.
Proof.
  intros Hin Hrun. cbv zeta. unfold deliver.
  rewrite run_bind_this.
  change (kindOf DidChangeModelContent) with OnDidChangeModelContent.
  rewrite (@installed_existsb _ _ Hin). unfold when.
  destruct (detach_fields (listener P DidChangeModelContent) w)
    as (Dh & Ds & Dp & Dt).
  assert (Du : unhandled (snd (detach (listener P DidChangeModelContent) w))
               = unhandled w).
  { unfold detach.
    destruct (listener P DidChangeModelContent w) as [o w'] eqn:E.
    run_in E; reflexivity. }
  unfold armed. rewrite Du, Dp, Ds, Dt, Dh.
  destruct (listener P DidChangeModelContent w) as [o w'] eqn:E.
  cbn [snd].
  run_in E; lsimpl; (repeat split; try reflexivity).
  all: eexists; repeat split;
       first [reflexivity | cbn; eapply Hrun; eassumption].
Qed.

Lemma deliver_ok (P : Platform) (ev : Event) (w : World) :
  fst (deliver P ev w) = Ok tt.
Proof.
  unfold deliver. rewrite run_bind_this. unfold when, detach.
  destruct (existsb _ _); [|reflexivity].
  now destruct (listener P ev w) as [[[]|e] w1].
Qed.

(** Content changes, each arriving [gap] milliseconds after the one
    before it. *)
Definition changes (P : Platform) (gaps : list nat) : M unit :=
  forEach gaps
    (fun gap => advance P gap ;; deliver P DidChangeModelContent).

Lemma installed_carries k w w' : installed k w -> carries w w' -> installed k w'.
Proof. intros H [_ Hd]. now apply Hd. Qed.

Lemma changes_keep_armed (P : Platform) (gaps : list nat) : forall w,
  Forall (fun gap => gap < 200) gaps ->
  armed 200 w ->
  installed OnDidChangeModelContent w ->
  armed 200 (snd (changes P gaps w)) /\
  updatePasses (snd (changes P gaps w)) = updatePasses w /\
  host (snd (changes P gaps w)) = host w.
Proof.
  induction gaps as [|gap gaps IH]; intros w Hgaps Harmed Hin.
  - cbn. now repeat split.
  - inversion Hgaps as [|? ? Hgap Hrest]; subst.
    unfold changes. cbn [forEach]. fold (changes P gaps).
    assert (Hok : fst ((advance P gap ;; deliver P DidChangeModelContent) w)
                  = Ok tt).
    { rewrite (@bind_ok _ _ _ _ w tt) by apply advance_ok. apply deliver_ok. }
    rewrite (@bind_ok _ _ _ _ _ _ Hok).
    rewrite (@bind_ok _ _ _ _ w tt) by apply advance_ok.
    replace 200 with (gap + S (199 - gap)) in Harmed by lia.
    destruct (@advance_armed P _ _ _ Harmed) as (Ha & Hp & Hc).
    destruct (@deliver_content_change P (snd (advance P gap w)))
      as (Ha1 & Hp1 & _ & _ & _ & Hd1 & Hh1).
    { eapply installed_carries; eassumption. }
    { eapply armed_runnerSet; eassumption. }
    cbv zeta in *.
    destruct (IH (snd (deliver P DidChangeModelContent
                         (snd (advance P gap w)))) Hrest Ha1)
      as (Ha2 & Hp2 & Hh2).
    { unfold installed. rewrite Hd1.
      eapply installed_carries; eassumption. }
    repeat split; [exact Ha2 | congruence |].
    destruct Hc as [Hc _]. congruence.
Qed.

(** C1: a content change recomputes nothing at once: it makes no host
    call and no update pass, it drops the word map and arms the update
    scheduler with 200 ms.  Further changes that each arrive less than
    200 ms after the previous one re-arm it, still without a pass.  After
    the last of them no pass is made for 200 ms, and from then on,
    however long one waits, there has been at most one pass for all the
    changes together, and exactly one when the host raises nothing. *)
Theorem content_changes_coalesce (P : Platform) (w : World)
  (gaps : list nat) :
  installed OnDidChangeModelContent w ->
  updateRunnerSet w ->
  Forall (fun gap => gap < 200) gaps ->
  let w1 := snd (deliver P DidChangeModelContent w) in
  let w2 := snd (changes P gaps w1) in
  scheduler_timeout UpdateInlineValues = 200 /\
  (newCalls w w1 = [] /\ updatePasses w1 = updatePasses w /\ armed 200 w1) /\
  (updatePasses w2 = updatePasses w /\ armed 200 w2) /\
  (forall ms, ms < 200 ->
     updatePasses (snd (advance P ms w2)) = updatePasses w) /\
  (forall ms, 200 <= ms ->
     updatePasses (snd (advance P ms w2)) <= S (updatePasses w)) /\
  (quiet (host w) ->
   forall ms, 200 <= ms ->
     updatePasses (snd (advance P ms w2)) = S (updatePasses w)).
Proof.
  intros Hin Hrun Hgaps. cbv zeta.
  destruct (@deliver_content_change P w Hin Hrun)
    as (Ha1 & Hp1 & Ht1 & _ & _ & Hd1 & Hh1).
  cbv zeta in *.
  set (w1 := snd (deliver P DidChangeModelContent w)) in *.
  destruct (@changes_keep_armed P gaps w1 Hgaps Ha1) as (Ha2 & Hp2 & Hh2).
  { unfold installed. now rewrite Hd1. }
  set (w2 := snd (changes P gaps w1)) in *.
  assert (Hlate : forall ms, 200 <= ms ->
            updatePasses (snd (advance P ms w2)) <= S (updatePasses w) /\
            (quiet (host w) ->
             updatePasses (snd (advance P ms w2)) = S (updatePasses w))).
  { intros ms Hms.
    replace ms with (199 + S (ms - 200)) by lia.
    rewrite advance_add, advance_S.
    destruct (@advance_armed P 199 0 w2) as (Ha3 & Hp3 & [Hh3 _]);
      [exact Ha2|].
    destruct (@tick_fires P _ Ha3) as (Hi4 & Hp4 & Hq4 & [Hh4 _]).
    destruct (@advance_disarmed P (ms - 200) _ Hi4) as (_ & Hp5 & _).
    rewrite Hp5. split; [lia|].
    intros Q. rewrite Hq4; [lia|]. congruence. }
  split; [reflexivity|]. split; [|split; [|split; [|split]]].
  - repeat split; try assumption.
    now apply (@newCalls_app w w1 []).
  - split; [congruence | exact Ha2].
  - intros ms Hms.
    destruct (@advance_armed P ms (199 - ms) w2) as (_ & Hp3 & _).
    { now replace (ms + S (199 - ms)) with 200 by lia. }
    congruence.
  - intros ms Hms. now apply Hlate.
  - intros Q ms Hms. now apply Hlate.
Qed.

(** Three keystrokes, 50 ms and 150 ms apart, in a stopped session: one
    pass, 200 ms after the last of them. *)
Lemma content_changes_coalesce_witness :
  let P := Sample.platform in
  let w := Sample.stoppedWorld None in
  let w2 :=
    snd (changes P [50; 150] (snd (deliver P DidChangeModelContent w))) in
  updatePasses w2 = updatePasses w /\
  updatePasses (snd (advance P 199 w2)) = updatePasses w /\
  updatePasses (snd (advance P 1000 w2)) = S (updatePasses w).
Proof.
  cbv zeta.
  destruct (@content_changes_coalesce Sample.platform
              (Sample.stoppedWorld None) [50; 150])
    as (_ & _ & (H2 & _) & H3 & _ & H5).
  - vm_compute. tauto.
  - intros s. vm_compute. discriminate.
  - repeat constructor; lia.
  - split; [exact H2|]. split.
    + apply H3. lia.
    + apply H5; [intros n c; reflexivity | lia].
Defined.

(** The same by evaluation: the pass runs in the 200th millisecond. *)
Example one_pass_after_three_changes :
  let P := Sample.platform in
  let w := Sample.stoppedWorld None in
  let w2 :=
    snd (changes P [50; 150] (snd (deliver P DidChangeModelContent w))) in
  updatePasses w = 0 /\
  updatePasses (snd (advance P 199 w2)) = 0 /\
  updatePasses (snd (advance P 200 w2)) = 1 /\
  updatePasses (snd (advance P 450 w2)) = 1.
Proof. vm_compute. repeat split. Qed.

(** * Further properties of the contribution *)

(** ** Hover configuration *)

(** The frame [sf] lies in the file the model shows. *)
Definition frameInModel (model : TextModel) (sf : option StackFrame) : Prop :=
  exists f, sf = Some f /\ uri model = sourceUri (source (frame f)).

(** [_applyHoverConfiguration] (lines 121-142) switches the editor's own
    hover off when the frame lies in the model's file, without asking the
    configuration service; otherwise it asks for [editor.hover] with the
    model's resource and language and hands the answer to the editor.  It
    touches no field. *)
Theorem applyHoverConfiguration_cases (model : TextModel)
  (sf : option StackFrame) (w : World) :
  let w' := snd (_applyHoverConfiguration model sf w) in
  self w' = self w /\
  (frameInModel model sf ->
   newCalls w w' = [Editor_updateOptions (mkHoverOptions false None None)]) /\
  (~ frameInModel model sf -> quiet (host w) ->
   fst (_applyHoverConfiguration model sf w) = Ok tt /\
   newCalls w w' =
     [Editor_updateOptions (editor_hover (host w));
      ConfigurationService_getValue_editorHover (uri model) (language model)]).
Proof.
  cbv zeta.
  destruct (_applyHoverConfiguration model sf w) as [o w'] eqn:E.
  cbn [fst snd].
  run_in E; lsimpl; calls_known; tidy_hyps;
    (split; [reflexivity|]); split.
  all: try (intros _; reflexivity).
  all: try (intros (f & Hf & Hu); same_values; congruence).
  all: try (intros _ Q; try not_quiet; split; reflexivity).
  all: try (intros H; exfalso; apply H; eexists; split;
            [reflexivity | assumption]).
Qed.

Lemma applyHoverConfiguration_cases_witness :
  newCalls (newWorld (Sample.stoppedHost None))
    (snd (_applyHoverConfiguration Sample.model
            (focusedStackFrame (Sample.stoppedHost None))
            (newWorld (Sample.stoppedHost None))))
  = [Editor_updateOptions (mkHoverOptions false None None)].
Proof.
  destruct (applyHoverConfiguration_cases Sample.model
              (focusedStackFrame (Sample.stoppedHost None))
              (newWorld (Sample.stoppedHost None))) as (_ & H & _).
  apply H. eexists. split; reflexivity.
Defined.

(** Worlds for the examples that follow. *)
Module Scene.

Definition overX : EditorMouseEvent :=
  Sample.mouseOver CONTENT_TEXT (Some (mkRange 1 5 1 6)).

(** The mouse has come to rest on [x] in a stopped session; 100 ms have
    passed since. *)
Definition hovering : World :=
  snd (advance Sample.platform 100
         (snd (deliver Sample.platform (MouseMove overX)
                 (Sample.stoppedWorld None)))).

(** ... and then a mouse button went down on the text. *)
Definition pressed : World :=
  snd (deliver Sample.platform (MouseDown overX) hovering).

End Scene.

(** Like [run_in], with a step [tac] that is tried first: a rewriting
    with what is known about the host or the fields. *)
Ltac run_using tac E :=
  repeat first
    [ tac
    | rewrite bind_bind in E
    | rewrite run_bind_ret in E
    | rewrite run_bind_this in E
    | rewrite run_bind_assign in E
    | rewrite run_bind_countPass in E
    | rewrite run_bind_call in E
    | rewrite run_bind_ask in E
    | rewrite run_ret in E
    | rewrite run_this in E
    | rewrite run_assign in E
    | rewrite run_call in E
    | rewrite run_ask in E
    | progress lsimpl_in E
    | progress cbn [andb negb] in E
    | match type of E with
      | context [match ?x with _ => _ end] => destruct x eqn:?
      | context [when ?b _] => unfold when in E
      end
    | progress autounfold with methods in E ];
  try (apply pair_equal_spec in E; destruct E as [<- <-]).

(** For a host that raises nothing ([Q : quiet (host w)]): no split on
    the outcome of the host calls. *)
Ltac run_quiet_in Q E := run_using ltac:(rewrite Q in E) E.

Lemma extends_counted w w' : extends w w' -> extends w (counted w').
Proof. intros [l H]. now exists l. Qed.

Lemma newCalls_counted w w' : newCalls w (counted w') = newCalls w w'.
Proof. reflexivity. Qed.

Ltac extends_more :=
  repeat first [ apply extends_logged | apply extends_assigned
               | apply extends_counted ];
  apply extends_refl.

(** [calls_known], also past the entry of an update pass. *)
Ltac calls_counted :=
  repeat first
    [ rewrite newCalls_assigned
    | rewrite newCalls_counted
    | rewrite newCalls_logged by extends_more
    | rewrite newCalls_refl ].

(** ** Hiding the hover *)

(** [hideHoverWidget] (lines 206-212) never restarts a hide that is under
    way: with the hide timer pending it asks nothing of the hover widget
    and leaves the timer and its remaining time as they are.  With no
    hide pending, it starts the 600 ms timer exactly when the widget is
    visible. *)
Theorem hideHoverWidget_hide_timer (w : World) :
  let w' := snd (hideHoverWidget w) in
  (forall s ms,
     schedulers (self w) HideHover = Some s -> timeoutToken s = Some ms ->
     fst (hideHoverWidget w) = Ok tt /\
     newCalls w w' = [] /\
     schedulers (self w') HideHover = Some s) /\
  (idle (self w) HideHover -> quiet (host w) ->
   fst (hideHoverWidget w) = Ok tt /\
   newCalls w w' = [HoverWidget_isVisible] /\
   exists s,
     schedulers (self w') HideHover = Some s /\
     timeoutToken s =
       (if hover_isVisible (host w) then Some (2 * HOVER_DELAY) else None)).
Proof.
  cbv zeta. destruct (hideHoverWidget w) as [o w'] eqn:E. cbn [fst snd].
  split.
  - intros s ms Hs Ht.
    run_in E; lsimpl; calls_known; same_values;
      unfold RunOnceScheduler_isScheduled in *;
      try (rewrite Ht in *; discriminate); try discriminate.
    all: repeat split; assumption.
  - intros Hidle Q.
    run_in E; try not_quiet; lsimpl; calls_known;
      unfold RunOnceScheduler_isScheduled in *.
    all: try match goal with
             | H : schedulers _ HideHover = Some ?s |- _ =>
                 rewrite (Hidle s H) in *
             end; try discriminate.
    all: repeat split; eexists;
         (split; [ first [reflexivity | eassumption]
                 | first [reflexivity | apply Hidle; assumption] ]).
Qed.

(** A key press has started the hide timer; a second hide request leaves
    it alone. *)
Lemma hideHoverWidget_hide_timer_witness :
  let w :=
    snd (deliver Sample.platform (KeyDown (KeyCode_Other 30))
           (Sample.stoppedWorld None)) in
  newCalls w (snd (hideHoverWidget w)) = [] /\
  schedulers (self (snd (hideHoverWidget w))) HideHover
    = Some (mkScheduler (Some 600) true).
Proof.
  cbv zeta.
  destruct (hideHoverWidget_hide_timer
              (snd (deliver Sample.platform (KeyDown (KeyCode_Other 30))
                      (Sample.stoppedWorld None)))) as [H _].
  destruct (H (mkScheduler (Some 600) true) 600) as (_ & H1 & H2);
    [vm_compute; reflexivity | reflexivity |].
  split; [exact H1 | exact H2].
Defined.

(** ** Mouse moves in a stopped session *)

(** Over text (lines 241-245): moving on within the range the hover is
    scheduled for changes neither the range nor the show timer, so the
    300 ms run on; a move to another range takes that range and starts
    the 300 ms afresh.  The hide timer is not touched either way. *)
Theorem mouse_move_over_text (P : Platform) (mouseEvent : EditorMouseEvent)
  (r : Range) (w : World) :
  debug_state (host w) = Stopped ->
  quiet (host w) ->
  targetType (target mouseEvent) = CONTENT_TEXT ->
  targetRange (target mouseEvent) = Some r ->
  let w' := snd (onEditorMouseMove P mouseEvent w) in
  fst (onEditorMouseMove P mouseEvent w) = Ok tt /\
  schedulers (self w') HideHover = schedulers (self w) HideHover /\
  (Range_equalsRange P r (hoverRange (self w)) = true ->
   hoverRange (self w') = hoverRange (self w) /\
   schedulers (self w') ShowHover = schedulers (self w) ShowHover) /\
  (Range_equalsRange P r (hoverRange (self w)) = false ->
   hoverRange (self w') = Some r /\
   exists s,
     schedulers (self w') ShowHover = Some s /\
     timeoutToken s = Some HOVER_DELAY).
Proof.
  intros Hstate Q Htype Hrange. cbv zeta.
  destruct (onEditorMouseMove P mouseEvent w) as [o w'] eqn:E.
  cbn [fst snd].
  unfold onEditorMouseMove, isDebugHoverTarget in E.
  rewrite Htype, Hrange in E.
  destruct (Range_equalsRange P r (hoverRange (self w))) eqn:Hsame;
    run_quiet_in Q E; try congruence; lsimpl;
    rewrite ?Hsame in *; cbn [andb negb] in *; try discriminate.
  all: repeat split; try reflexivity; try discriminate.
  all: eexists; split; reflexivity.
Qed.

(** Off the text (lines 237-249) the hover survives in two cases: the
    mouse is on the debug hover widget itself and the stop key is not
    held, or a mouse button is down.  Then the hover range and the show
    and hide timers stay as they are. *)
Theorem mouse_move_keeps_hover (P : Platform) (mouseEvent : EditorMouseEvent)
  (w : World) :
  debug_state (host w) = Stopped ->
  quiet (host w) ->
  (isDebugHoverTarget P (target mouseEvent) = true /\
   stopKeyPressed P (event mouseEvent) = false) \/
  (targetType (target mouseEvent) <> CONTENT_TEXT /\
   mouseDown (self w) = true) ->
  let w' := snd (onEditorMouseMove P mouseEvent w) in
  fst (onEditorMouseMove P mouseEvent w) = Ok tt /\
  hoverRange (self w') = hoverRange (self w) /\
  mouseDown (self w') = mouseDown (self w) /\
  schedulers (self w') ShowHover = schedulers (self w) ShowHover /\
  schedulers (self w') HideHover = schedulers (self w) HideHover.
Proof.
  intros Hstate Q Hcase. cbv zeta.
  destruct (onEditorMouseMove P mouseEvent w) as [o w'] eqn:E.
  cbn [fst snd].
  unfold onEditorMouseMove in E.
  destruct Hcase as [[Hwidget Hkey]|[Htype Hdown]].
  - rewrite Hwidget, Hkey in E.
    run_quiet_in Q E; try congruence; lsimpl.
    all: repeat split; reflexivity.
  - destruct (isDebugHoverTarget P (target mouseEvent) &&
              negb (stopKeyPressed P (event mouseEvent)));
      destruct (targetType (target mouseEvent)) eqn:Ety;
      try contradiction;
      run_using ltac:(first [rewrite Q in E | rewrite Hdown in E]) E;
      try congruence; lsimpl.
    all: repeat split; reflexivity.
Qed.

(** A second move on the same word, 100 ms after the first: the show
    timer keeps the 200 ms it has left. *)
Lemma mouse_move_over_text_witness :
  hoverRange (self (snd (onEditorMouseMove Sample.platform Scene.overX
                           Scene.hovering)))
    = hoverRange (self Scene.hovering) /\
  schedulers (self (snd (onEditorMouseMove Sample.platform Scene.overX
                           Scene.hovering))) ShowHover
    = schedulers (self Scene.hovering) ShowHover /\
  schedulers (self Scene.hovering) ShowHover
    = Some (mkScheduler (Some 200) true).
Proof.
  destruct (@mouse_move_over_text Sample.platform Scene.overX
              (mkRange 1 5 1 6) Scene.hovering) as (_ & _ & H & _).
  - vm_compute. reflexivity.
  - intros n c. vm_compute. reflexivity.
  - reflexivity.
  - reflexivity.
  - destruct H as [H1 H2]; [vm_compute; reflexivity|].
    split; [exact H1|]. split; [exact H2|]. vm_compute. reflexivity.
Defined.

(** With a button down, a move off the text does not hide the hover. *)
Lemma mouse_move_keeps_hover_witness :
  schedulers (self (snd (onEditorMouseMove Sample.platform
                           (Sample.mouseOver CONTENT_EMPTY None)
                           Scene.pressed))) HideHover
    = schedulers (self Scene.pressed) HideHover.
Proof.
  destruct (@mouse_move_keeps_hover Sample.platform
              (Sample.mouseOver CONTENT_EMPTY None) Scene.pressed)
    as (_ & _ & _ & _ & H).
  - vm_compute. reflexivity.
  - intros n c. vm_compute. reflexivity.
  - right. split; [discriminate | vm_compute; reflexivity].
  - exact H.
Defined.

(** ** Leaving the editor *)

(** The listener for mouse leave (lines 83-95) always cancels the
    non-debug hover; it hides the debug hover only when the widget has a
    DOM node and the mouse left outside of its rectangle: leaving into
    the widget keeps the hover range and both hover timers. *)
Theorem mouse_leave_into_widget (P : Platform) (e : EditorMouseEvent)
  (w : World) :
  quiet (host w) ->
  let w' := snd (listener P (MouseLeave e) w) in
  fst (listener P (MouseLeave e) w) = Ok tt /\
  (exists s, schedulers (self w') ProvideNonDebugHover = Some s /\
             timeoutToken s = None) /\
  (match hover_domNode (host w) with
   | Some rect => outsideRect (event e) rect = false
   | None => True
   end ->
   hoverRange (self w') = hoverRange (self w) /\
   schedulers (self w') ShowHover = schedulers (self w) ShowHover /\
   schedulers (self w') HideHover = schedulers (self w) HideHover /\
   ~ In HoverWidget_isVisible (newCalls w w')).
Proof.
  intros Q. cbv zeta.
  destruct (listener P (MouseLeave e) w) as [o w'] eqn:E. cbn [fst snd].
  cbn [listener] in E.
  run_in E; try not_quiet; lsimpl; calls_known.
  all: split; [reflexivity|]; split;
       [eexists; split; reflexivity|].
  all: try (intros Hin; exfalso; congruence).
  all: intros _; repeat split; try reflexivity; intros H; in_cases H.
Qed.

Lemma mouse_leave_into_widget_witness :
  schedulers (self (snd (listener Sample.platform (MouseLeave Scene.overX)
                           Scene.hovering))) ShowHover
    = schedulers (self Scene.hovering) ShowHover.
Proof.
  destruct (@mouse_leave_into_widget Sample.platform Scene.overX
              Scene.hovering) as (_ & _ & H).
  - intros n c. reflexivity.
  - destruct H as (_ & H & _); [exact I | exact H].
Defined.

(** ** Closing and showing the exception widget *)

(** [closeExceptionWidget] (lines 300-305): without a widget it calls
    nothing and changes nothing; with one it disposes it once and clears
    the field, so that closing again is a no-op; if the disposal throws,
    the field still holds the widget. *)
Theorem closeExceptionWidget_once (w : World) :
  let o := fst (closeExceptionWidget w) in
  let w' := snd (closeExceptionWidget w) in
  (exceptionWidget (self w) = None ->
   closeExceptionWidget w = (Ok tt, w)) /\
  (exceptionWidget (self w) <> None ->
   newCalls w w' = [ExceptionWidget_dispose] /\
   (o = Ok tt ->
    exceptionWidget (self w') = None /\
    closeExceptionWidget w' = (Ok tt, w')) /\
   (o <> Ok tt -> self w' = self w)).
Proof.
  cbv zeta. destruct (closeExceptionWidget w) as [o w'] eqn:E.
  cbn [fst snd]. split.
  - intros Hnone. rewrite <- E. unfold closeExceptionWidget.
    rewrite run_bind_this, Hnone. reflexivity.
  - intros Hsome.
    run_in E; try contradiction; lsimpl; calls_known.
    all: repeat split; try reflexivity; try discriminate;
         try (intros H; now contradiction H).
Qed.

Lemma closeExceptionWidget_once_witness :
  let w := Sample.stoppedWorld (Some Sample.anException) in
  exceptionWidget (self w) <> None /\
  newCalls w (snd (closeExceptionWidget w)) = [ExceptionWidget_dispose].
Proof.
  cbv zeta. split; [vm_compute; discriminate|].
  destruct (closeExceptionWidget_once
              (Sample.stoppedWorld (Some Sample.anException))) as [_ H].
  destruct H as [H _]; [vm_compute; discriminate | exact H].
Defined.

(** [showExceptionWidget] (lines 290-298) holds at most one widget: an
    open one is disposed before the new one is created, and on a normal
    return the field holds the new one, shown at the given position with
    its line revealed.  If the creation throws, the field is left as it
    was: it may then refer to a widget that has been disposed. *)
Theorem showExceptionWidget_replaces (info : ExceptionInfo)
  (session : option nat) (line col : Z) (w : World) :
  let o := fst (showExceptionWidget info session line col w) in
  let w' := snd (showExceptionWidget info session line col w) in
  let disposal :=
    match exceptionWidget (self w) with
    | Some _ => [ExceptionWidget_dispose]
    | None => []
    end in
  (quiet (host w) ->
   o = Ok tt /\
   exceptionWidget (self w') = Some (mkExceptionWidget info session) /\
   newCalls w w' =
     [Editor_revealLine line; ExceptionWidget_show line col;
      InstantiationService_createExceptionWidget info session] ++ disposal) /\
  (forall e,
     faults (host w) (List.length (disposal ++ trace w))
       (InstantiationService_createExceptionWidget info session) = Some e ->
     (forall n c, n < List.length (disposal ++ trace w) ->
                  faults (host w) n c = None) ->
     o = Throw e /\
     self w' = self w /\
     newCalls w w' =
       InstantiationService_createExceptionWidget info session :: disposal).
Proof.
  cbv zeta.
  destruct (showExceptionWidget info session line col w) as [o w'] eqn:E.
  cbn [fst snd]. split.
  - intros Q. run_in E; try not_quiet; lsimpl; calls_known.
    all: repeat split.
  - intros e He Hbefore.
    run_in E; lsimpl; calls_known; cbn [app List.length] in *.
    all: try match goal with
             | H : faults _ _ ExceptionWidget_dispose = Some _ |- _ =>
                 rewrite Hbefore in H by lia; discriminate H
             end.
    all: try congruence.
    all: match goal with
         | H : faults _ _ (InstantiationService_createExceptionWidget _ _)
               = Some _ |- _ => rewrite He in H; injection H as <-
         end.
    all: repeat split.
Qed.

Lemma showExceptionWidget_replaces_witness :
  let w := Sample.stoppedWorld (Some Sample.anException) in
  newCalls w (snd (showExceptionWidget Sample.anException None 2 1 w))
  = [Editor_revealLine 2; ExceptionWidget_show 2 1;
     InstantiationService_createExceptionWidget Sample.anException None;
     ExceptionWidget_dispose].
Proof.
  cbv zeta.
  destruct (showExceptionWidget_replaces Sample.anException None 2 1
              (Sample.stoppedWorld (Some Sample.anException))) as [H _].
  destruct H as (_ & _ & H); [intros n c; reflexivity|].
  etransitivity; [exact H|]. vm_compute. reflexivity.
Defined.

(** ** The "Add Configuration..." widget *)




(** [updateConfigurationWidgetVisibility] (lines 308-318) disposes the
    widget it holds, if any, and renders a new one exactly when the
    editor has a model whose URI ends with [launch.json] and is not read
    only; it then registers one more click listener.  Otherwise the field
    is left as it was, so that it may go on holding the disposed
    widget. *)
Theorem configurationWidget_visibility (P : Platform) (w : World) :
  quiet (host w) ->
  let w' := snd (updateConfigurationWidgetVisibility P w) in
  let applies :=
    match editor_model (host w) with
    | Some model =>
        LAUNCH_JSON_REGEX_test (uri model) && negb (editor_readOnly (host w))
    | None => false
    end in
  fst (updateConfigurationWidgetVisibility P w) = Ok tt /\
  (In ConfigurationWidget_dispose (newCalls w w') <->
   configurationWidget (self w) <> None) /\
  (applies = true ->
   In ConfigurationWidget_render (newCalls w w') /\
   configurationWidget (self w')
     = Some (mkFloatingClickWidget
               (localize P "addConfiguration" "Add Configuration...")) /\
   toDispose (self w') = toDispose (self w) ++ [ClickListener]) /\
  (applies = false ->
   ~ In ConfigurationWidget_render (newCalls w w') /\
   configurationWidget (self w') = configurationWidget (self w) /\
   toDispose (self w') = toDispose (self w)).
Proof.
  intros Q. cbv zeta.
  destruct (updateConfigurationWidgetVisibility P w) as [o w'] eqn:E.
  cbn [fst snd].
  run_quiet_in Q E; lsimpl; calls_known; cbn [andb negb].
  all: split; [reflexivity|]; split; [|split].
  all: try (split; [intros H; in_cases H; discriminate
                   | intros H; cbn; tauto]).
  all: try (split; [intros H; in_cases H | intros H; now contradiction H]).
  all: try (intros _; repeat split; cbn; tauto).
  all: try (intros H; discriminate H).
  all: intros _; split;
       [intros H; in_cases H | split; first [reflexivity | assumption]].
Qed.

Lemma configurationWidget_visibility_witness :
  ~ In ConfigurationWidget_render
      (newCalls (newWorld Sample.runningHost)
         (snd (updateConfigurationWidgetVisibility Sample.platform
                 (newWorld Sample.runningHost)))).
Proof.
  destruct (@configurationWidget_visibility Sample.platform
              (newWorld Sample.runningHost)) as (_ & _ & _ & H).
  - intros n c. reflexivity.
  - destruct H as [H _]; [vm_compute; reflexivity | exact H].
Defined.

(** In an editor on [.vscode/launch.json] the widget is rendered. *)
Example configurationWidget_for_launch_json :
  let h := Sample.runningHost in
  let launch :=
    mkHost (Some (mkTextModel "file:///ws/.vscode/launch.json" "jsonc" []))
      (editor_readOnly h) (debug_state h) (focusedStackFrame h)
      (focusedSession h) (debug_enableAllHovers h) (debug_inlineValues h)
      (editor_hover h) (hover_domNode h) (hover_isHovered h)
      (hover_isVisible h) (faults h) in
  newCalls (newWorld launch)
    (snd (updateConfigurationWidgetVisibility Sample.platform
            (newWorld launch)))
  = [ConfigurationWidget_onClick; ConfigurationWidget_render;
     InstantiationService_createFloatingClickWidget "Add Configuration...";
     Editor_getOption_readOnly; Editor_getModel].
Proof. vm_compute. reflexivity. Qed.

(** ** Adding a launch configuration *)

(** The events leave the array nesting they start in only upwards: every
    array that begins, begins inside another one. *)
Fixpoint staysNested (depth : Z) (events : list JsonEvent) : bool :=
  match events with
  | [] => true
  | OnObjectProperty _ :: rest => staysNested depth rest
  | OnArrayBegin _ :: rest =>
      negb (depth =? 0)%Z && staysNested (depth + 1) rest
  | OnArrayEnd :: rest => staysNested (depth - 1) rest
  end.

Lemma visit_nested (P : Platform) (model : TextModel)
  (events : list JsonEvent) : forall s,
  staysNested (depthInArray s) events = true ->
  configurationsArrayPosition (fold_left (visitStep P model) events s)
  = configurationsArrayPosition s.
Proof.
  induction events as [|e events IH]; intros s H; [reflexivity|].
  cbn [fold_left]. destruct e as [property|offset|]; cbn [staysNested] in H.
  - rewrite IH; [reflexivity | exact H].
  - apply andb_prop in H. destruct H as [Hdepth Hrest].
    rewrite IH; [|exact Hrest]. cbn.
    destruct (lastProperty s) as [p|]; [|reflexivity].
    apply negb_true_iff in Hdepth. rewrite Hdepth.
    now rewrite andb_false_r.
  - rewrite IH; [reflexivity | exact H].
Qed.

(** The visitor of [addLaunchConfiguration] (lines 334-347) takes the
    insert position only from an array that begins outside of all
    arrays: whatever is visited inside an array, arrays named
    [configurations] included, leaves the position found so far. *)
Theorem visit_inside_array_keeps_position (P : Platform) (model : TextModel)
  (events : list JsonEvent) (s : VisitState) :
  staysNested (depthInArray s) events = true ->
  configurationsArrayPosition (fold_left (visitStep P model) events s)
  = configurationsArrayPosition s.
Proof. apply visit_nested. Qed.

(** The array of [configurations] holds two nested arrays, the second
    under a property [configurations] of its own: the position stays the
    one of the outer array. *)
Lemma visit_inside_array_keeps_position_witness :
  let outer :=
    fold_left (visitStep Sample.platform Sample.model)
      [OnObjectProperty "configurations"; OnArrayBegin 20]
      (mkVisitState None 0 None) in
  configurationsArrayPosition
    (fold_left (visitStep Sample.platform Sample.model)
       [OnObjectProperty "args"; OnArrayBegin 40; OnArrayEnd;
        OnObjectProperty "configurations"; OnArrayBegin 60; OnArrayEnd]
       outer)
  = configurationsArrayPosition outer.
Proof.
  cbv zeta. apply visit_inside_array_keeps_position. reflexivity.
Defined.

Lemma visit_without_configurations (P : Platform) (model : TextModel)
  (events : list JsonEvent) : forall s,
  ~ In (OnObjectProperty "configurations") events ->
  lastProperty s <> Some "configurations"%string ->
  configurationsArrayPosition (fold_left (visitStep P model) events s)
  = configurationsArrayPosition s.
Proof.
  induction events as [|e events IH]; intros s Hno Hlast; [reflexivity|].
  cbn [fold_left].
  assert (Hno' : ~ In (OnObjectProperty "configurations") events)
    by (intros H; apply Hno; now right).
  destruct e as [property|offset|].
  - rewrite IH; [reflexivity | exact Hno' |].
    cbn. intros [= ->]. apply Hno. now left.
  - rewrite IH; [|exact Hno' | exact Hlast]. cbn.
    destruct (lastProperty s) as [p|]; [|reflexivity].
    destruct (String.eqb_spec p "configurations") as [->|_];
      [now contradiction Hlast | reflexivity].
  - rewrite IH; [reflexivity | exact Hno' | exact Hlast].
Qed.

(** Calls that change the text or the cursor of the editor. *)
Definition editsText (c : HostCall) : Prop :=
  match c with
  | Editor_setPosition _ | LineBreakInsert_runEditorCommand
  | CommandService_executeCommand _ => True
  | _ => False
  end.

(** [addLaunchConfiguration] (lines 320-366) edits nothing when the editor
    has no model, and nothing either when the JSON text has no property
    [configurations]: it then only logs the telemetry event, visits the
    text and focuses the editor. *)
Theorem addLaunchConfiguration_nothing_to_insert (P : Platform) (w : World) :
  match editor_model (host w) with
  | Some model =>
      ~ In (OnObjectProperty "configurations")
          (json_visit P (getValue P model))
  | None => True
  end ->
  let w' := snd (addLaunchConfiguration P w) in
  self w' = self w /\
  (forall c, In c (newCalls w w') -> ~ editsText c) /\
  (quiet (host w) ->
   fst (addLaunchConfiguration P w) = Ok tt /\
   newCalls w w' =
     match editor_model (host w) with
     | Some _ =>
         [Editor_focus; Json_visit; Editor_getModel;
          TelemetryService_publicLog "debug/addLaunchConfiguration"]
     | None =>
         [Editor_getModel;
          TelemetryService_publicLog "debug/addLaunchConfiguration"]
     end).
Proof.
  intros Hno. cbv zeta.
  destruct (addLaunchConfiguration P w) as [o w'] eqn:E. cbn [fst snd].
  unfold addLaunchConfiguration in E.
  rewrite run_bind_call in E.
  destruct (faults (host w) (List.length (trace w))
              (TelemetryService_publicLog "debug/addLaunchConfiguration"))
    eqn:F0.
  { apply pair_equal_spec in E; destruct E as [<- <-]. lsimpl. calls_known.
    repeat split; try not_quiet.
    intros c H; in_cases H; subst c; cbn; tauto. }
  rewrite run_bind_ask in E. lsimpl_in E.
  destruct (faults (host w) (S (List.length (trace w))) Editor_getModel)
    eqn:F1.
  { apply pair_equal_spec in E; destruct E as [<- <-]. lsimpl. calls_known.
    repeat split; try not_quiet.
    intros c H; in_cases H; subst c; cbn; tauto. }
  destruct (editor_model (host w)) as [model|] eqn:Em.
  2:{ rewrite run_ret in E.
      apply pair_equal_spec in E; destruct E as [<- <-]. lsimpl. calls_known.
      repeat split. intros c H; in_cases H; subst c; cbn; tauto. }
  rewrite run_bind_call in E. lsimpl_in E.
  destruct (faults (host w) (S (S (List.length (trace w)))) Json_visit)
    eqn:F2.
  { apply pair_equal_spec in E; destruct E as [<- <-]. lsimpl. calls_known.
    repeat split; try not_quiet.
    intros c H; in_cases H; subst c; cbn; tauto. }
  cbv zeta in E.
  rewrite (@visit_without_configurations P model _ _ Hno) in E
    by discriminate.
  cbn [configurationsArrayPosition] in E.
  rewrite run_bind_call in E. lsimpl_in E.
  destruct (faults (host w) (S (S (S (List.length (trace w))))) Editor_focus)
    eqn:F3.
  { apply pair_equal_spec in E; destruct E as [<- <-]. lsimpl. calls_known.
    repeat split; try not_quiet.
    intros c H; in_cases H; subst c; cbn; tauto. }
  rewrite run_ret in E.
  apply pair_equal_spec in E; destruct E as [<- <-]. lsimpl. calls_known.
  repeat split. intros c H; in_cases H; subst c; cbn; tauto.
Qed.

Lemma addLaunchConfiguration_nothing_to_insert_witness :
  newCalls (newWorld Sample.runningHost)
    (snd (addLaunchConfiguration Sample.platform
            (newWorld Sample.runningHost)))
  = [Editor_focus; Json_visit; Editor_getModel;
     TelemetryService_publicLog "debug/addLaunchConfiguration"].
Proof.
  destruct (@addLaunchConfiguration_nothing_to_insert Sample.platform
              (newWorld Sample.runningHost)) as (_ & _ & H).
  - cbn. tauto.
  - destruct H as [_ H]; [intros n c; reflexivity | exact H].
Defined.

(** When the text has an array [configurations] outside of all arrays,
    and no other array begins outside of all arrays after it,
    [addLaunchConfiguration] puts the cursor just behind the opening
    bracket of that array, breaks the line there first if more text
    follows on it, inserts a line after, and triggers the suggestions:
    these calls, in this order. *)
Theorem addLaunchConfiguration_inserts (P : Platform) (w : World)
  (model : TextModel) (before inside : list JsonEvent) (offset : Z) :
  quiet (host w) ->
  editor_model (host w) = Some model ->
  json_visit P (getValue P model)
    = before ++
      OnObjectProperty "configurations" :: OnArrayBegin offset :: inside ->
  depthInArray
    (fold_left (visitStep P model) before (mkVisitState None 0 None)) = 0%Z ->
  staysNested 1 inside = true ->
  let w' := snd (addLaunchConfiguration P w) in
  let position := getPositionAt P model (offset + 1) in
  fst (addLaunchConfiguration P w) = Ok tt /\
  self w' = self w /\
  newCalls w w' =
    [CommandService_executeCommand "editor.action.triggerSuggest";
     CommandService_executeCommand "editor.action.insertLineAfter";
     Editor_setPosition position] ++
    (if (column position <?
         getLineLastNonWhitespaceColumn P model (lineNumber position))%Z
     then [LineBreakInsert_runEditorCommand; Editor_setPosition position]
     else []) ++
    [Editor_focus; Json_visit; Editor_getModel;
     TelemetryService_publicLog "debug/addLaunchConfiguration"].
Proof.
  intros Q Hm Hevents Hdepth Hinside. cbv zeta.
  assert (Hfound :
    configurationsArrayPosition
      (fold_left (visitStep P model) (json_visit P (getValue P model))
         (mkVisitState None 0 None))
    = Some (getPositionAt P model (offset + 1))).
  { rewrite Hevents, fold_left_app. cbn [fold_left].
    rewrite visit_nested.
    - cbn. now rewrite Hdepth.
    - cbn. now rewrite Hdepth. }
  destruct (addLaunchConfiguration P w) as [o w'] eqn:E. cbn [fst snd].
  unfold addLaunchConfiguration in E.
  rewrite run_bind_call, Q, run_bind_ask in E. lsimpl_in E.
  rewrite Q, Hm, run_bind_call in E. lsimpl_in E.
  rewrite Q in E. cbv zeta in E. rewrite Hfound in E.
  run_quiet_in Q E; lsimpl; calls_known; repeat split.
Qed.

(** [{ "configurations": [ ... ] }] with the bracket at offset 20. *)
Lemma addLaunchConfiguration_inserts_witness :
  let P :=
    mkPlatform (MAX_SAFE_SMALL_INTEGER Sample.platform)
      (DebugHoverWidget_ID Sample.platform)
      (EDITOR_CONTRIBUTION_ID Sample.platform) false
      (Range_new Sample.platform) (Range_setStartPosition Sample.platform)
      (Range_containsPosition Sample.platform)
      (Range_equalsRange Sample.platform)
      (DEFAULT_WORD_REGEXP_exec Sample.platform)
      (fun _ => [OnObjectProperty "configurations"; OnArrayBegin 20;
                 OnArrayEnd])
      (getValue Sample.platform) (getPositionAt Sample.platform)
      (getLineLastNonWhitespaceColumn Sample.platform)
      (localize Sample.platform) in
  newCalls (newWorld Sample.runningHost)
    (snd (addLaunchConfiguration P (newWorld Sample.runningHost)))
  = [CommandService_executeCommand "editor.action.triggerSuggest";
     CommandService_executeCommand "editor.action.insertLineAfter";
     Editor_setPosition (mkPosition 1 22);
     Editor_focus; Json_visit; Editor_getModel;
     TelemetryService_publicLog "debug/addLaunchConfiguration"].
Proof.
  cbv zeta.
  match goal with
  | |- newCalls _ (snd (addLaunchConfiguration ?P _)) = _ =>
      destruct (@addLaunchConfiguration_inserts P
                  (newWorld Sample.runningHost) Sample.model
                  [] [OnArrayEnd] 20) as (_ & _ & H)
  end;
    [ intros n c; reflexivity | reflexivity | reflexivity | reflexivity
    | reflexivity | exact H ].
Defined.

(** ** The decorations of a scope *)

Lemma Map_set_keys_Z (V : Type) (m : JsMap Z V) k v :
  Map_keys (Map_set Z.eqb m k v) = Map_keys m \/
  (~ In k (Map_keys m) /\ Map_keys (Map_set Z.eqb m k v) = Map_keys m ++ [k]).
Proof.
  unfold Map_keys.
  induction m as [|[k' v'] m IH]; cbn.
  - right. split; [tauto | reflexivity].
  - destruct (Z.eqb_spec k' k) as [->|Hne]; cbn; [now left|].
    destruct IH as [IH|[IH1 IH2]].
    + left. now rewrite IH.
    + right. split; [intros [?|?]; tauto | now rewrite IH2].
Qed.

Lemma Map_set_NoDup_Z (V : Type) (m : JsMap Z V) k v :
  NoDup (Map_keys m) -> NoDup (Map_keys (Map_set Z.eqb m k v)).
Proof.
  intros H. destruct (Map_set_keys_Z m k v) as [E|[N E]]; rewrite E; [easy|].
  apply NoDup_app; [exact H | repeat constructor; intros [] | ].
  intros x Hx [<-|[]]. contradiction.
Qed.

(** With pairwise different keys, [set] replaces the entry of its key
    and keeps the others. *)
Lemma Map_set_entries_Z (V : Type) (m : JsMap Z V) k v k0 v0 :
  NoDup (Map_keys m) ->
  In (k, v) (Map_set Z.eqb m k0 v0) ->
  (k = k0 /\ v = v0) \/ (k <> k0 /\ In (k, v) m).
Proof.
  unfold Map_keys.
  induction m as [|[k' v'] m IH]; cbn; intros Hnd Hin.
  - destruct Hin as [[= <- <-]|[]]. now left.
  - inversion Hnd as [|? ? Hnotin Hnd']; subst.
    destruct (Z.eqb_spec k' k0) as [->|Hne]; cbn in Hin.
    + destruct Hin as [[= <- <-]|Hin]; [now left|].
      right. split; [|now right].
      intros ->. apply Hnotin. apply in_map_iff. now exists (k0, v).
    + destruct Hin as [[= <- <-]|Hin]; [right; split; [exact Hne | now left]|].
      destruct (IH Hnd' Hin) as [?|[? ?]]; [now left | right; split; auto].
Qed.

Lemma Map_get_set_Z (V : Type) (m : JsMap Z V) k v :
  Map_get Z.eqb (Map_set Z.eqb m k v) k = Some v.
Proof.
  induction m as [|[k' v'] m IH]; cbn.
  - now rewrite Z.eqb_refl.
  - destruct (Z.eqb_spec k' k) as [->|Hne]; cbn.
    + now rewrite Z.eqb_refl.
    + destruct (Z.eqb_spec k' k); [contradiction | exact IH].
Qed.

Lemma Array_indexOf_absent (l : list string) (x : string) :
  Array_indexOf l x = (-1)%Z -> ~ In x l.
Proof.
  assert (G : forall l, In x l -> (0 <= Array_indexOf l x)%Z).
  { clear l. induction l as [|y l IH]; intros Hin; [destruct Hin|].
    cbn [Array_indexOf]. destruct (String.eqb_spec y x) as [->|Hne]; [lia|].
    destruct Hin as [->|Hin]; [contradiction|].
    specialize (IH Hin). destruct (Z.ltb_spec (Array_indexOf l x) 0); lia. }
  intros H Hin. specialize (G l Hin). lia.
Qed.

(** Every line of the map has its own entry, and the names of an entry
    are pairwise different and at least one. *)
Definition linesTidy (m : LineMap) : Prop :=
  NoDup (Map_keys m) /\
  forall line names, In (line, names) m -> NoDup names /\ names <> [].

Lemma addNameAt_tidy (P : Platform) (r : Range) (nm : string) (m : LineMap)
  (p : Position) :
  linesTidy m -> linesTidy (addNameAt P r nm m p).
Proof.
  intros [Hkeys Hall]. unfold addNameAt.
  destruct (Range_containsPosition P r p); [|now split].
  destruct (Map_has Z.eqb m (lineNumber p)) eqn:Hhas.
  - unfold Map_has in Hhas.
    destruct (Map_get Z.eqb m (lineNumber p)) as [names|] eqn:G;
      [|discriminate].
    destruct (Array_indexOf names nm =? -1)%Z eqn:Hidx; [|now split].
    apply Z.eqb_eq, Array_indexOf_absent in Hidx.
    apply Map_get_In_Z in G. destruct (Hall _ _ G) as [Hnd _].
    split; [now apply Map_set_NoDup_Z|].
    intros line ns Hin.
    apply Map_set_entries_Z in Hin; [|exact Hkeys].
    destruct Hin as [[-> ->]|[_ Hin]]; [|now apply (Hall line ns)].
    split; [|now destruct names].
    apply NoDup_app; [exact Hnd | repeat constructor; intros [] |].
    intros x Hx [<-|[]]. contradiction.
  - rewrite Map_get_set_Z. cbn [Array_indexOf Z.eqb app].
    assert (Hkeys1 : NoDup (Map_keys (Map_set Z.eqb m (lineNumber p) [])))
      by now apply Map_set_NoDup_Z.
    split; [now apply Map_set_NoDup_Z|].
    intros line ns Hin.
    apply Map_set_entries_Z in Hin; [|exact Hkeys1].
    destruct Hin as [[-> ->]|[Hne Hin]].
    + split; [repeat constructor; intros [] | discriminate].
    + apply Map_set_entries_Z in Hin; [|exact Hkeys].
      destruct Hin as [[-> _]|[_ Hin]];
        [contradiction | now apply (Hall line ns)].
Qed.

Lemma buildLineToNamesMap_tidy (P : Platform)
  (nameValueMap : JsMap string string) (words : WordMap) (r : Range) :
  linesTidy (buildLineToNamesMap P nameValueMap words r).
Proof.
  unfold buildLineToNamesMap.
  assert (G : forall (entries : JsMap string string) (m : LineMap),
            linesTidy m ->
            linesTidy
              (fold_left
                 (fun m entry =>
                    match Map_get String.eqb words (fst entry) with
                    | Some positions =>
                        fold_left (addNameAt P r (fst entry)) positions m
                    | None => m
                    end) entries m)).
  { induction entries as [|entry entries IH]; intros m Hm; [exact Hm|].
    cbn [fold_left]. apply IH.
    destruct (Map_get String.eqb words (fst entry)) as [positions|];
      [|exact Hm].
    clear IH. revert m Hm.
    induction positions as [|p ps IHp]; intros m Hm; [exact Hm|].
    cbn [fold_left]. apply IHp. now apply addNameAt_tidy. }
  apply G. split; [constructor | intros ? ? []].
Qed.

(** The decorations [createInlineValueDecorationsInsideRange] returns
    (lines 414-456): at most one per line, each on its line at column
    [MAX_SAFE_SMALL_INTEGER], with a text of at most 153 characters; and
    in the map they are made from, a line lists a name once, and at
    least one name. *)
Theorem decorations_one_per_line (P : Platform)
  (expressions : list Expression) (r : Range) (model : TextModel)
  (w : World) (decorations : list DecorationOptions) :
  fst (createInlineValueDecorationsInsideRange P expressions r model w)
    = Ok decorations ->
  NoDup (map (fun d => startLineNumber (range d)) decorations) /\
  (forall d, In d decorations ->
     range d =
       mkRange (startLineNumber (range d)) (MAX_SAFE_SMALL_INTEGER P)
         (startLineNumber (range d)) (MAX_SAFE_SMALL_INTEGER P) /\
     String.length (contentText (after (renderOptions d))) <= 153) /\
  (forall words, linesTidy
     (buildLineToNamesMap P (buildNameValueMap expressions) words r)).
Proof.
  intros H. split; [|split]; [| |intros; apply buildLineToNamesMap_tidy].
  - unfold createInlineValueDecorationsInsideRange, bind in H.
    destruct (getWordToPositionsMap P w) as [[words|e] w1]; [|discriminate].
    cbn in H. injection H as <-.
    rewrite map_map. cbn [createInlineValueDecoration range startLineNumber].
    apply (buildLineToNamesMap_tidy P (buildNameValueMap expressions)
             words r).
  - unfold createInlineValueDecorationsInsideRange, bind in H.
    destruct (getWordToPositionsMap P w) as [[words|e] w1]; [|discriminate].
    cbn in H. injection H as <-.
    intros d Hd. apply in_map_iff in Hd. destruct Hd as ([line names] & <- & _).
    split; [reflexivity|].
    unfold createInlineValueDecoration.
    cbn [contentText after renderOptions fst snd].
    destruct (Nat.ltb_spec MAX_INLINE_DECORATOR_LENGTH
                (String.length (lineContentText
                   model (buildNameValueMap expressions) line names)))
      as [Hlong|Hshort]; unfold MAX_INLINE_DECORATOR_LENGTH in *.
    + unfold String_substr0.
      rewrite length_append, length_substring_0 by lia. cbn. lia.
    + lia.
Qed.

Lemma decorations_one_per_line_witness :
  match
    fst (createInlineValueDecorationsInsideRange Sample.platform
           [mkExpression "x" "1"] (mkRange 0 0 2 1) Sample.model
           (newWorld (Sample.stoppedHost None)))
  with
  | Ok decorations =>
      NoDup (map (fun d => startLineNumber (range d)) decorations)
  | Throw _ => False
  end.
Proof.
  destruct (fst (createInlineValueDecorationsInsideRange Sample.platform
                   [mkExpression "x" "1"] (mkRange 0 0 2 1) Sample.model
                   (newWorld (Sample.stoppedHost None))))
    as [decorations|e] eqn:E.
  - exact (proj1 (@decorations_one_per_line Sample.platform
                    [mkExpression "x" "1"] (mkRange 0 0 2 1) Sample.model
                    (newWorld (Sample.stoppedHost None)) decorations E)).
  - vm_compute in E. discriminate E.
Defined.

(** ** The update pass *)

Lemma bind_ok_inv A B (m : M A) (k : A -> M B) (w : World) (b : B) :
  fst (bind m k w) = Ok b ->
  exists a,
    fst (m w) = Ok a /\ bind m k w = k a (snd (m w)).
Proof.
  unfold bind. destruct (m w) as [[a|e] w1]; cbn; [|discriminate].
  intros _. now exists a.
Qed.

(** The footprint "leaves the removal scheduler alone and sets or removes
    no decoration". *)
Definition decorates (c : HostCall) : Prop :=
  match c with
  | Editor_setDecorations _ _ | Editor_removeDecorations _ => True
  | _ => False
  end.

Definition undecorated : Footprint :=
  {| keeps := fun c c' =>
       schedulers c' RemoveInlineValues = schedulers c RemoveInlineValues;
     allows := fun c => ~ decorates c;
     counts := False |}.

#[global] Instance undecorated_tidy : Tidy undecorated.
Proof. split; cbn; intros; congruence. Qed.

(** Inline values are to be shown for the frame [sf]: the setting is on,
    and the frame lies in the file the editor shows. *)
Definition inlineValuesApply (h : Host) (sf : option StackFrame) : Prop :=
  debug_inlineValues h = true /\
  exists model, editor_model h = Some model /\ frameInModel model sf.

(** [updateInlineValueDecorations] (lines 386-412), when inline values
    do not apply (setting off, no model, no frame, or a frame of another
    file): it asks for the model and the setting, sets no decorations and
    sees to their removal.  A removal that is pending stays as it is,
    otherwise one is scheduled in 100 ms. *)
Theorem update_pass_schedules_removal (P : Platform)
  (sf : option StackFrame) (w : World) :
  ~ inlineValuesApply (host w) sf -> quiet (host w) ->
  let o := fst (updateInlineValueDecorations P sf w) in
  let w' := snd (updateInlineValueDecorations P sf w) in
  o = Ok tt /\
  newCalls w w' = [ConfigurationService_getValue_debug; Editor_getModel] /\
  exists s,
    schedulers (self w') RemoveInlineValues = Some s /\
    match schedulers (self w) RemoveInlineValues with
    | Some s0 =>
        match timeoutToken s0 with
        | Some _ => s = s0
        | None => timeoutToken s = Some 100
        end
    | None => timeoutToken s = Some 100
    end.
Proof.
  intros Hno Q. cbv zeta.
  destruct (updateInlineValueDecorations P sf w) as [o w'] eqn:E.
  cbn [fst snd].
  unfold updateInlineValueDecorations in E.
  rewrite run_bind_countPass, run_bind_ask, Q, run_bind_ask in E.
  cbn [host counted logged] in E. rewrite Q in E. cbv zeta in E.
  match type of E with
  | match ?proceed with _ => _ end _ = _ =>
      assert (Hp : proceed = None)
  end.
  { destruct (editor_model (host w)) as [model|] eqn:Hm; [|reflexivity].
    destruct sf as [f|]; [|reflexivity].
    destruct (debug_inlineValues (host w)) eqn:Hon; [|reflexivity].
    destruct (String.eqb_spec (uri model) (sourceUri (source (frame f))))
      as [Hu|Hu]; [|reflexivity].
    exfalso. apply Hno. split; [exact Hon|].
    exists model. split; [exact Hm|]. now exists f. }
  rewrite Hp in E. clear Hp.
  run_quiet_in Q E; lsimpl; cbn [self counted]; calls_counted;
    unfold RunOnceScheduler_isScheduled in *.
  all: cbn [self counted] in *.
  all: repeat split; try (eexists; (split; [reflexivity|])).
  all: repeat match goal with
              | H : schedulers (self _) _ = _ |- _ =>
                  try rewrite H in *; clear H
              | H : Some _ = Some _ |- _ => injection H as H; subst
              | H : Some _ = None |- _ => discriminate H
              | H : None = Some _ |- _ => discriminate H
              end.
  all: try (eexists; split; [reflexivity|]).
  all: repeat match goal with
              | H : context [timeoutToken ?s] |- _ =>
                  is_var s; destruct (timeoutToken s)
              | |- context [match timeoutToken ?s with _ => _ end] =>
                  is_var s; destruct (timeoutToken s)
              end; cbn in *; first [congruence | reflexivity].
Qed.

(** [updateInlineValueDecorations] (lines 386-412), when inline values
    apply and the pass returns normally: a pending removal has been
    cancelled, and the decorations are set once, as the last call of the
    pass. *)
Theorem update_pass_sets_decorations (P : Platform)
  (sf : option StackFrame) (w : World) :
  inlineValuesApply (host w) sf ->
  fst (updateInlineValueDecorations P sf w) = Ok tt ->
  let w' := snd (updateInlineValueDecorations P sf w) in
  (exists s, schedulers (self w') RemoveInlineValues = Some s /\
             timeoutToken s = None) /\
  exists decorations earlier,
    newCalls w w' =
      Editor_setDecorations INLINE_VALUE_DECORATION_KEY decorations
      :: earlier /\
    Forall (fun c => ~ decorates c) earlier.
Proof.
  intros (Hon & model & Hm & f & -> & Hu) Hok. cbv zeta.
  destruct (updateInlineValueDecorations P (Some f) w) as [o w'] eqn:E.
  cbn [fst snd] in *. subst o.
  unfold updateInlineValueDecorations in E.
  rewrite run_bind_countPass, run_bind_ask in E.
  destruct (faults _ _ Editor_getModel); [discriminate|].
  rewrite run_bind_ask in E.
  destruct (faults _ _ ConfigurationService_getValue_debug);
    [discriminate|].
  cbn [host counted logged] in E. cbv zeta in E. rewrite Hm, Hon, Hu in E.
  rewrite String.eqb_refl in E. cbn [andb] in E.
  unfold cancel at 1 in E. rewrite !bind_bind in E.
  set (w1 := logged _ (logged _ (counted w))) in E.
  destruct (scheduler RemoveInlineValues w1) as [os w2] eqn:Es.
  assert (Hw2 : exists s0, os = Ok s0 /\ trace w2 = trace w1).
  { run_in Es; eexists; split; reflexivity. }
  destruct Hw2 as (s0 & -> & Ht2).
  unfold bind at 1 in E. rewrite Es in E.
  rewrite run_bind_assign in E.
  set (w3 := assigned _ w2) in E.
  rewrite <- bind_bind in E.
  match type of E with
  | bind ?m ?k w3 = _ =>
      assert (Hprefix : stays undecorated m);
      [ | destruct (@bind_ok_inv _ _ m k w3 tt) as (ds & Hds & Ek);
          [ now rewrite E | ];
        pose proof (Hprefix w3) as (_ & Hkeep & (calls & Hcalls & Hnone) & _);
        destruct (m w3) as [o4 w4] ]
  end.
  { stays_steps;
      lazymatch goal with
      | |- allows _ _ => cbn; tauto
      | |- keeps _ _ _ => cbn; reflexivity
      | |- _ => idtac
      end. }
  rewrite E in Ek. cbn [fst snd] in *. rewrite run_call in Ek.
  destruct (faults _ _ _); [discriminate|].
  apply pair_equal_spec in Ek. destruct Ek as [_ ->].
  cbn [self logged]. cbn [keeps undecorated] in Hkeep. split.
  - exists (RunOnceScheduler_cancel s0). split; [|reflexivity].
    rewrite Hkeep. reflexivity.
  - eexists. exists (calls ++ [ConfigurationService_getValue_debug;
                               Editor_getModel]).
    split.
    + apply newCalls_app. cbn [trace logged]. rewrite Hcalls.
      subst w3. cbn [trace assigned]. rewrite Ht2. subst w1.
      cbn [trace logged counted app]. f_equal.
      rewrite <- app_assoc. reflexivity.
    + apply Forall_app. split; [exact Hnone|].
      repeat constructor; cbn; tauto.
Qed.

(** The update runner fires with no frame in focus. *)
Lemma update_pass_schedules_removal_witness :
  let w := Sample.stoppedWorld None in
  let w' := snd (updateInlineValueDecorations Sample.platform None w) in
  fst (updateInlineValueDecorations Sample.platform None w) = Ok tt /\
  newCalls w w' = [ConfigurationService_getValue_debug; Editor_getModel].
Proof.
  cbv zeta.
  destruct (@update_pass_schedules_removal Sample.platform None
              (Sample.stoppedWorld None)) as (H1 & H2 & _).
  - intros (_ & model & _ & f & Hf & _). discriminate Hf.
  - intros n c. vm_compute. reflexivity.
  - split; [exact H1 | exact H2].
Defined.

(** The update runner fires for the frame stopped in [app.js]. *)
Lemma update_pass_sets_decorations_witness :
  let w := Sample.stoppedWorld None in
  let sf := Some (mkStackFrame Sample.topFrame (Sample.stoppedThread None)) in
  let w' := snd (updateInlineValueDecorations Sample.platform sf w) in
  exists decorations earlier,
    newCalls w w' =
      Editor_setDecorations INLINE_VALUE_DECORATION_KEY decorations
      :: earlier /\
    Forall (fun c => ~ decorates c) earlier.
Proof.
  cbv zeta.
  refine (proj2 (@update_pass_sets_decorations Sample.platform
                   (Some (mkStackFrame Sample.topFrame
                            (Sample.stoppedThread None)))
                   (Sample.stoppedWorld None) _ _)).
  - split; [vm_compute; reflexivity|].
    exists Sample.model. split; [vm_compute; reflexivity|].
    eexists. split; reflexivity.
  - vm_compute. reflexivity.
Defined.

(** ** Disposal and the inline-value schedulers *)

(** The getters of lines 370-384 return their scheduler without pushing
    it on [toDispose]. *)
Definition inlineValueScheduler (d : Disposable) : bool :=
  match d with
  | SchedulerOf UpdateInlineValues | SchedulerOf RemoveInlineValues => true
  | _ => false
  end.

(** No inline-value scheduler is registered for disposal. *)
Definition unregistered (w : World) : Prop :=
  forall d, In d (toDispose (self w)) -> inlineValueScheduler d = false.

(** The footprint "registers no inline-value scheduler for disposal". *)
Definition registersOthers : Footprint :=
  {| keeps := fun c c' =>
       forall d, In d (toDispose c') ->
         In d (toDispose c) \/ inlineValueScheduler d = false;
     allows := fun _ => True;
     counts := True |}.

#[global] Instance registersOthers_tidy : Tidy registersOthers.
Proof.
  split; cbn.
  - intros c d H. now left.
  - intros a b c H1 H2 d Hd.
    destruct (H2 d Hd) as [Hb|Hb]; [now apply H1 | now right].
Qed.

Ltac registers_others :=
  repeat first [ progress cbn [scheduler_isDisposed when] | stays_step ];
  lazymatch goal with
  | |- allows _ _ => exact I
  | |- counts _ => exact I
  | |- keeps _ _ _ =>
      cbn; intros d Hd;
      repeat match type of Hd with
             | context [match ?x with _ => _ end] => destruct x
             end;
      repeat (apply in_app_or in Hd; destruct Hd as [Hd|Hd]);
      first [ left; exact Hd
            | right; destruct Hd as [<-|[]]; reflexivity
            | contradiction ]
  | |- _ => idtac
  end.

Lemma operations_register_others (P : Platform) (op : Operation) :
  stays registersOthers (exec P op).
Proof.
  destruct op; try destruct id; registers_others.
Qed.

Lemma tick_registers_others (P : Platform) :
  stays registersOthers (tick P).
Proof.
  unfold tick, elapse. registers_others.
  unfold onTimeout. destruct x; registers_others.
Qed.

Lemma advance_registers_others (P : Platform) (ms : nat) :
  stays registersOthers (advance P ms).
Proof.
  induction ms as [|ms IH]; cbn [advance]; [registers_others|].
  refine (@stays_bind _ _ _ _ _ _ _ _); [|intros _; exact IH].
  apply tick_registers_others.
Qed.

Lemma deliver_registers_others (P : Platform) (ev : Event) :
  stays registersOthers (deliver P ev).
Proof. unfold deliver. destruct ev; registers_others. Qed.

Lemma unregistered_within (w w' : World) :
  unregistered w -> within registersOthers w w' -> unregistered w'.
Proof.
  intros H (_ & Hk & _) d Hd. destruct (Hk d Hd) as [Hin|Hn]; [|exact Hn].
  now apply H.
Qed.

Lemma step_unregistered (P : Platform) (s : Step) (w : World) :
  unregistered w -> unregistered (snd (step P s w)).
Proof.
  intros H. destruct s as [ev|ms|h]; cbn [step].
  - exact (unregistered_within H (deliver_registers_others P ev w)).
  - exact (unregistered_within H (advance_registers_others P ms w)).
  - exact H.
Qed.

Lemma steps_unregistered (P : Platform) (l : list Step) : forall w,
  unregistered w -> unregistered (snd (steps P l w)).
Proof.
  unfold steps.
  induction l as [|s l IH]; intros w H; cbn [forEach]; [exact H|].
  unfold bind. pose proof (step_unregistered P s H) as Hs.
  destruct (step P s w) as [[[]|e] w1]; cbn [snd] in *; [|exact Hs].
  now apply IH.
Qed.

Lemma constructor_unregistered (P : Platform) (h : Host) :
  unregistered (snd (constructor P (newWorld h))).
Proof.
  refine (unregistered_within _
            (operations_register_others P The_constructor (newWorld h))).
  intros d [].
Qed.

Lemma disposeOne_spares (id : SchedulerId) (d : Disposable) (w : World) :
  inlineValueScheduler (SchedulerOf id) = true ->
  inlineValueScheduler d = false ->
  schedulers (self (snd (disposeOne d w))) id = schedulers (self w) id /\
  toDispose (self (snd (disposeOne d w))) = toDispose (self w).
Proof.
  intros Hid Hd. destruct d as [k|id'|]; cbn [disposeOne].
  - rewrite run_call. now destruct (faults _ _ _).
  - rewrite run_assign. cbn [snd self assigned].
    destruct (schedulers (self w) id') as [s|]; [|now split].
    split; [|reflexivity].
    destruct id, id'; try discriminate; reflexivity.
  - rewrite run_call. now destruct (faults _ _ _).
Qed.

Lemma forEach_disposeOne_spares (id : SchedulerId) (l : list Disposable) :
  inlineValueScheduler (SchedulerOf id) = true ->
  forall w,
    (forall d, In d l -> inlineValueScheduler d = false) ->
    schedulers (self (snd (forEach l disposeOne w))) id
    = schedulers (self w) id.
Proof.
  intros Hid. induction l as [|d l IH]; intros w H; [reflexivity|].
  cbn [forEach]. unfold bind.
  destruct (@disposeOne_spares id d w Hid (H d (or_introl eq_refl)))
    as [H1 _].
  destruct (disposeOne d w) as [[[]|e] w1]; cbn [snd] in *; [|exact H1].
  rewrite IH; [exact H1|]. intros d' Hd'. apply H. now right.
Qed.

Lemma disposeAll_spares (id : SchedulerId) (w : World) :
  inlineValueScheduler (SchedulerOf id) = true ->
  unregistered w ->
  schedulers
    (self (snd ((disposables <- this toDispose ;;
                 forEach disposables disposeOne ;;
                 assign (set_toDispose [])) w))) id
  = schedulers (self w) id.
Proof.
  intros Hid H. rewrite run_bind_this. unfold bind.
  pose proof (@forEach_disposeOne_spares id (toDispose (self w)) Hid w H)
    as Hs.
  destruct (forEach (toDispose (self w)) disposeOne w) as [[[]|e] w1];
    cbn [snd] in *; exact Hs.
Qed.

Lemma dispose_spares (id : SchedulerId) (w : World) :
  inlineValueScheduler (SchedulerOf id) = true ->
  unregistered w ->
  schedulers (self (snd (dispose w))) id = schedulers (self w) id.
Proof.
  intros Hid H. unfold dispose. rewrite run_bind_this.
  destruct (hoverWidget (self w));
    [ rewrite run_bind_call; destruct (faults _ _ _); [reflexivity|]
    | rewrite run_bind_ret ];
    rewrite run_bind_this; cbn [self logged];
    (destruct (configurationWidget (self w));
     [ rewrite run_bind_call; destruct (faults _ _ _); [reflexivity|]
     | rewrite run_bind_ret ]);
    match goal with
    | |- schedulers (self (snd (_ ?w0))) _ = _ =>
        exact (@disposeAll_spares id w0 Hid H)
    end.
Qed.

(** The inline-value schedulers are out of the reach of [dispose]
    (lines 370-384, 537-545): whatever has happened to the editor since
    its construction, disposing the contribution leaves the update and the
    removal scheduler as they are; a timeout that is pending stays
    pending, and its runner stays set. *)
Theorem dispose_spares_inline_value_schedulers (P : Platform) (h : Host)
  (history : list Step) (id : SchedulerId) :
  let w := snd (steps P history (snd (constructor P (newWorld h)))) in
  scheduler_isDisposed id = false ->
  schedulers (self (snd (dispose w))) id = schedulers (self w) id.
Proof.
  intros w Hid. apply dispose_spares.
  - now destruct id.
  - apply steps_unregistered, constructor_unregistered.
Qed.

(** A content change, then the disposal of the contribution. *)
Lemma dispose_spares_inline_value_schedulers_witness :
  let w :=
    snd (steps Sample.platform [Fires DidChangeModelContent]
           (snd (constructor Sample.platform
                   (newWorld (Sample.stoppedHost None))))) in
  schedulers (self (snd (dispose w))) UpdateInlineValues
  = schedulers (self w) UpdateInlineValues.
Proof.
  exact (@dispose_spares_inline_value_schedulers Sample.platform
           (Sample.stoppedHost None) [Fires DidChangeModelContent]
           UpdateInlineValues eq_refl).
Defined.

(** The footprint "changes neither the host nor the number of update
    passes". *)
Definition passless : Footprint :=
  {| keeps := fun _ _ => True; allows := fun _ => True; counts := False |}.

#[global] Instance passless_tidy : Tidy passless.
Proof. split; cbn; intros; exact I. Qed.

Lemma dispose_passless : stays passless dispose.
Proof. stays_steps; exact I. Qed.

(** An update of the inline values that is pending when the contribution
    is disposed still runs (lines 370-384, 537-545): with the update
    timer due in [S r] ms at the disposal, on a host that raises nothing,
    [S r] ms later [updateInlineValueDecorations] has been entered once
    more. *)
Theorem pending_update_runs_after_dispose (P : Platform) (h : Host)
  (history : list Step) (r : nat) :
  let w := snd (steps P history (snd (constructor P (newWorld h)))) in
  armed (S r) w ->
  quiet (host w) ->
  updatePasses (snd (advance P (S r) (snd (dispose w))))
  = S (updatePasses w).
Proof.
  intros w (s & Hs & Ht & Hr) Q.
  destruct (dispose_passless w) as (Hh & _ & _ & [[]|Hp]).
  assert (Ha : armed (r + 1) (snd (dispose w))).
  { exists s. rewrite Nat.add_1_r. split; [|now split].
    rewrite dispose_spares; [exact Hs | reflexivity |].
    apply steps_unregistered, constructor_unregistered. }
  replace (S r) with (r + 1) by lia. rewrite advance_add.
  destruct (@advance_armed P r 0 _ Ha) as (H1 & Hp1 & Hh1 & _).
  cbn [advance]. unfold bind.
  destruct (@tick_fires P _ H1) as (_ & _ & Hq & _).
  rewrite <- Hp, <- Hp1, <- Hq; [|now rewrite Hh1, Hh].
  now destruct (tick P _) as [[[]|e] w1].
Qed.

(** A content change, the disposal, and 200 ms. *)
Lemma pending_update_runs_after_dispose_witness :
  let w :=
    snd (steps Sample.platform [Fires DidChangeModelContent]
           (snd (constructor Sample.platform
                   (newWorld (Sample.stoppedHost None))))) in
  updatePasses (snd (advance Sample.platform 200 (snd (dispose w))))
  = S (updatePasses w).
Proof.
  refine (@pending_update_runs_after_dispose Sample.platform
            (Sample.stoppedHost None) [Fires DidChangeModelContent] 199
            _ _).
  - exists (mkScheduler (Some 200) true).
    split; [vm_compute; reflexivity | split; reflexivity].
  - intros n c. vm_compute. reflexivity.
Defined.

(** ** Construction *)

(** The footprint "leaves [toDispose], the hover widget and the
    schedulers as they are". *)
Definition keepsDisposables : Footprint :=
  {| keeps := fun c c' =>
       toDispose c' = toDispose c /\
       hoverWidget c' = hoverWidget c /\
       forall id, schedulers c' id = schedulers c id;
     allows := fun _ => True;
     counts := False |}.

#[global] Instance keepsDisposables_tidy : Tidy keepsDisposables.
Proof.
  split; cbn.
  - intros c. repeat split.
  - intros a b c (H1 & H2 & H3) (H4 & H5 & H6).
    split; [congruence|]. split; [congruence|].
    intros id. now rewrite H6, H3.
Qed.

Lemma toggleExceptionWidget_keepsDisposables :
  stays keepsDisposables toggleExceptionWidget.
Proof.
  stays_steps;
    lazymatch goal with
    | |- allows _ _ => exact I
    | |- keeps _ _ _ => cbn; repeat split
    | |- _ => idtac
    end.
Qed.

(** The configuration widget is to be shown: the editor shows a
    [launch.json] and is not read-only. *)
Definition showsConfigurationWidget (h : Host) : bool :=
  match editor_model h with
  | Some model => LAUNCH_JSON_REGEX_test (uri model) && negb (editor_readOnly h)
  | None => false
  end.

(** The constructor (lines 59-74), when it returns normally, has
    registered the ten listeners of [registerListeners] in the order of
    lines 77-118, followed by the click listener of the configuration
    widget when that widget is shown, and nothing else; it has created the
    hover widget and has neither created nor scheduled a scheduler. *)
Theorem constructor_registers_listeners (P : Platform) (w : World) :
  fst (constructor P w) = Ok tt ->
  let w' := snd (constructor P w) in
  toDispose (self w')
  = map ListenerOf allEventKinds
    ++ (if showsConfigurationWidget (host w) then [ClickListener] else []) /\
  hoverWidget (self w') = Some TheDebugHoverWidget /\
  forall id, schedulers (self w') id = schedulers (self w) id.
Proof.
  intros Hok. cbv zeta.
  destruct (constructor P w) as [o w'] eqn:E. cbn [fst snd] in *. subst o.
  unfold constructor, registerListeners, allEventKinds in E.
  set (final := detach toggleExceptionWidget) in E.
  cbn [forEach] in E.
  run_in E; try discriminate E.
  all: match type of E with
       | _ ?w5 = (Ok tt, _) =>
           pose proof (@stays_detach keepsDisposables _ _
                         toggleExceptionWidget_keepsDisposables w5)
             as (_ & (Hd & Hh & Hs) & _);
           fold final in Hd, Hh, Hs; rewrite E in Hd, Hh, Hs;
           cbn [snd] in Hd, Hh, Hs
       end.
  all: rewrite Hd, Hh; split; [|split; [reflexivity|]];
    [ unfold showsConfigurationWidget;
      repeat match goal with
             | H : editor_model _ = _ |- _ => rewrite H
             | H : LAUNCH_JSON_REGEX_test _ = _ |- _ => rewrite H
             | H : negb _ = _ |- _ => rewrite H
             end;
      reflexivity
    | intros id; rewrite Hs; reflexivity ].
Qed.

(** The construction on an editor that shows [app.js]. *)
Lemma constructor_registers_listeners_witness :
  toDispose (self (Sample.stoppedWorld None)) = map ListenerOf allEventKinds.
Proof.
  destruct (@constructor_registers_listeners Sample.platform
              (newWorld (Sample.stoppedHost None))) as (H & _).
  - vm_compute. reflexivity.
  - exact H.
Defined.

(** ** A change of the focused stack frame *)

(** Calls on the exception widget. *)
Definition onExceptionWidget (c : HostCall) : Prop :=
  match c with
  | ExceptionWidget_dispose | ExceptionWidget_show _ _
  | InstantiationService_createExceptionWidget _ _ => True
  | _ => False
  end.

(** The footprint "leaves the exception widget alone". *)
Definition widgetless : Footprint :=
  {| keeps := fun c c' => exceptionWidget c' = exceptionWidget c;
     allows := fun c => ~ onExceptionWidget c;
     counts := True |}.

#[global] Instance widgetless_tidy : Tidy widgetless.
Proof. split; cbn; intros; congruence. Qed.

(** The footprint "leaves the three hover schedulers alone". *)
Definition keepsHoverTimers : Footprint :=
  {| keeps := fun c c' =>
       forall id, scheduler_isDisposed id = true ->
         schedulers c' id = schedulers c id;
     allows := fun c => c <> HoverWidget_hide;
     counts := True |}.

#[global] Instance keepsHoverTimers_tidy : Tidy keepsHoverTimers.
Proof.
  split; cbn.
  - reflexivity.
  - intros a b c H1 H2 id Hid. now rewrite H2, H1.
Qed.

(** [onFocusStackFrame] (lines 156-168) for a frame that does not lie in
    the file the editor shows, or for no frame: the exception widget is
    left as it is, open or not, and no call is made on it. *)
Theorem focus_elsewhere_keeps_exception_widget (P : Platform)
  (sf : option StackFrame) (w : World) :
  (forall model, editor_model (host w) = Some model ->
                 ~ frameInModel model sf) ->
  let w' := snd (onFocusStackFrame P sf w) in
  exceptionWidget (self w') = exceptionWidget (self w) /\
  Forall (fun c => ~ onExceptionWidget c) (newCalls w w').
Proof.
  intros Hout. cbv zeta.
  assert (H : within widgetless w (snd (onFocusStackFrame P sf w))).
  { unfold onFocusStackFrame. rewrite run_bind_ask.
    destruct (faults _ _ _).
    - cbn [snd]. repeat split; cbn; try tauto.
      exists [Editor_getModel]. split; [reflexivity|].
      repeat constructor. cbn. tauto.
    - refine (within_trans (b := logged Editor_getModel w) _ _).
      + repeat split; cbn; try tauto.
        exists [Editor_getModel]. split; [reflexivity|].
        repeat constructor. cbn. tauto.
      + cbn [host logged].
        destruct (editor_model (host w)) as [model|] eqn:Hm;
          [ specialize (Hout model eq_refl);
            destruct sf as [f|];
            [ destruct (String.eqb_spec (sourceUri (source (frame f)))
                          (uri model)) as [Hu|Hu];
              [ exfalso; apply Hout; exists f;
                split; [reflexivity | now symmetry] | ] | ] | ].
        all: match goal with
             | |- within _ ?w0 (snd (?m ?w0)) =>
                 assert (Hs : stays widgetless m); [|apply Hs]
             end.
        all: stays_steps;
               lazymatch goal with
               | |- allows _ _ => cbn; tauto
               | |- counts _ => exact I
               | |- keeps _ _ _ => cbn; reflexivity
               | |- _ => idtac
               end. }
  destruct H as (_ & Hk & (calls & Hc & Hall) & _).
  split; [exact Hk|]. now rewrite (@newCalls_app _ _ _ Hc).
Qed.

(** The focus moves to the caller's frame, in [lib.js], while the
    exception widget is open on [app.js]. *)
Lemma focus_elsewhere_keeps_exception_widget_witness :
  let sf := Some (mkStackFrame Sample.callerFrame
                    (Sample.stoppedThread (Some Sample.anException))) in
  let w := Sample.stoppedWorld (Some Sample.anException) in
  exceptionWidget (self (snd (onFocusStackFrame Sample.platform sf w)))
  = Some (mkExceptionWidget Sample.anException (Some 0)).
Proof.
  cbv zeta.
  destruct (@focus_elsewhere_keeps_exception_widget Sample.platform
              (Some (mkStackFrame Sample.callerFrame
                       (Sample.stoppedThread (Some Sample.anException))))
              (Sample.stoppedWorld (Some Sample.anException))) as [H _].
  - intros model Hm (f & Hf & Hu).
    injection Hf as <-. vm_compute in Hm. injection Hm as <-.
    discriminate Hu.
  - rewrite H. vm_compute. reflexivity.
Defined.

(** [onFocusStackFrame] (lines 156-168) for a frame that lies in the file
    the editor shows: the hover is not hidden; the three hover schedulers
    are left as they are. *)
Theorem focus_here_keeps_hover (P : Platform) (sf : option StackFrame)
  (w : World) (model : TextModel) :
  editor_model (host w) = Some model ->
  frameInModel model sf ->
  let w' := snd (onFocusStackFrame P sf w) in
  (forall id, scheduler_isDisposed id = true ->
     schedulers (self w') id = schedulers (self w) id) /\
  ~ In HoverWidget_hide (newCalls w w').
Proof.
  intros Hm (f & -> & Hu). cbv zeta.
  assert (H : within keepsHoverTimers w
                (snd (onFocusStackFrame P (Some f) w))).
  { unfold onFocusStackFrame. rewrite run_bind_ask.
    destruct (faults _ _ _).
    - cbn [snd]. repeat split; cbn; try tauto.
      exists [Editor_getModel]. split; [reflexivity|].
      repeat constructor. cbn. discriminate.
    - refine (within_trans (b := logged Editor_getModel w) _ _).
      + repeat split; cbn; try tauto.
        exists [Editor_getModel]. split; [reflexivity|].
        repeat constructor. cbn. discriminate.
      + cbn [host logged]. rewrite Hm, <- Hu, String.eqb_refl.
        match goal with
        | |- within _ ?w0 (snd (?m ?w0)) =>
            assert (Hs : stays keepsHoverTimers m); [|apply Hs]
        end.
        stays_steps;
          lazymatch goal with
          | |- allows _ _ => cbn; discriminate
          | |- counts _ => exact I
          | |- keeps _ _ _ =>
              cbn; intros id Hid; destruct id; try discriminate Hid;
              reflexivity
          | |- _ => idtac
          end. }
  destruct H as (_ & Hk & (calls & Hc & Hall) & _).
  split; [exact Hk|]. rewrite (@newCalls_app _ _ _ Hc).
  intros Hin. rewrite Forall_forall in Hall. now apply (Hall _ Hin).
Qed.

(** The focus moves to the top frame, in [app.js], while the mouse rests
    on [x] and the hover timer runs. *)
Lemma focus_here_keeps_hover_witness :
  let sf := Some (mkStackFrame Sample.topFrame (Sample.stoppedThread None)) in
  let w := snd (deliver Sample.platform (MouseMove Scene.overX)
                  (Sample.stoppedWorld None)) in
  schedulers (self (snd (onFocusStackFrame Sample.platform sf w))) ShowHover
  = schedulers (self w) ShowHover.
Proof.
  cbv zeta.
  destruct (@focus_here_keeps_hover Sample.platform
              (Some (mkStackFrame Sample.topFrame (Sample.stoppedThread None)))
              (snd (deliver Sample.platform (MouseMove Scene.overX)
                      (Sample.stoppedWorld None)))
              Sample.model) as [H _].
  - vm_compute. reflexivity.
  - eexists. split; reflexivity.
  - exact (H ShowHover eq_refl).
Defined.

(** ** The word map lists every occurrence *)

Lemma Map_get_set_same (V : Type) (m : JsMap string V) k v :
  Map_get String.eqb (Map_set String.eqb m k v) k = Some v.
Proof.
  induction m as [|[k' v'] m IH]; cbn.
  - now rewrite String.eqb_refl.
  - destruct (String.eqb_spec k' k) as [->|Hne]; cbn.
    + now rewrite String.eqb_refl.
    + destruct (String.eqb_spec k' k); [contradiction | exact IH].
Qed.

Lemma Map_get_set_other (V : Type) (m : JsMap string V) k v k0 :
  k0 <> k ->
  Map_get String.eqb (Map_set String.eqb m k v) k0
  = Map_get String.eqb m k0.
Proof.
  intros Hne. induction m as [|[k' v'] m IH]; cbn.
  - destruct (String.eqb_spec k k0); [now subst | reflexivity].
  - destruct (String.eqb_spec k' k) as [->|Hk]; cbn.
    + destruct (String.eqb_spec k k0); [now subst | reflexivity].
    + destruct (String.eqb_spec k' k0); [reflexivity | exact IH].
Qed.

(** The map lists the position [p] for [word]. *)
Definition listed (m : WordMap) (word : string) (p : Position) : Prop :=
  exists positions,
    Map_get String.eqb m word = Some positions /\ In p positions.

Section WordMapComplete.
Variable P : Platform.

Lemma addTokenWord_keeps (line : nat) (content : string) (m : WordMap)
  (t : Token) (word : string) (p : Position) :
  listed m word p -> listed (addTokenWord P line content m t) word p.
Proof.
  intros (ps & Hget & Hin). unfold addTokenWord.
  destruct (tokenType t); try (now exists ps).
  destruct (DEFAULT_WORD_REGEXP_exec P _) as [word'|]; [|now exists ps].
  unfold Map_has.
  destruct (String.eqb_spec word' word) as [->|Hne].
  - rewrite Hget, Hget. exists (ps ++ [mkPosition (Z.of_nat line)
                                         (Z.of_nat (tokenStartOffset t))]).
    split; [apply Map_get_set_same | apply in_or_app; now left].
  - assert (Hne' : word <> word') by congruence.
    destruct (Map_get String.eqb m word') as [ps'|] eqn:Hw.
    + rewrite Hw. exists ps. now rewrite Map_get_set_other.
    + rewrite Map_get_set_same. exists ps.
      now rewrite !Map_get_set_other.
Qed.

Lemma addTokenWord_adds (line : nat) (content : string) (m : WordMap)
  (t : Token) (word : string) :
  tokenType t = TokenOther ->
  DEFAULT_WORD_REGEXP_exec P
    (String_substring content (tokenStartOffset t) (tokenEndOffset t))
  = Some word ->
  listed (addTokenWord P line content m t) word
    (mkPosition (Z.of_nat line) (Z.of_nat (tokenStartOffset t))).
Proof.
  intros Hty Hw. unfold addTokenWord. rewrite Hty, Hw. unfold Map_has.
  destruct (Map_get String.eqb m word) as [ps|] eqn:Hget.
  - rewrite Hget. eexists. split; [apply Map_get_set_same|].
    apply in_or_app. right. now left.
  - rewrite Map_get_set_same. eexists.
    split; [apply Map_get_set_same | now left].
Qed.

Lemma addLineWords_keeps (line : nat) (l : Line) (m : WordMap)
  (word : string) (p : Position) :
  listed m word p -> listed (addLineWords P line l m) word p.
Proof.
  unfold addLineWords. revert m.
  induction (lineTokens l) as [|t ts IH]; intros m H; [exact H|].
  cbn [fold_left]. now apply IH, addTokenWord_keeps.
Qed.

Lemma addLineWords_adds (line : nat) (l : Line) (m : WordMap) (t : Token)
  (word : string) :
  In t (lineTokens l) ->
  tokenType t = TokenOther ->
  DEFAULT_WORD_REGEXP_exec P
    (String_substring (lineContent l) (tokenStartOffset t) (tokenEndOffset t))
  = Some word ->
  listed (addLineWords P line l m) word
    (mkPosition (Z.of_nat line) (Z.of_nat (tokenStartOffset t))).
Proof.
  unfold addLineWords. revert m.
  induction (lineTokens l) as [|t' ts IH]; intros m Hin Hty Hw;
    [destruct Hin|].
  cbn [fold_left]. destruct Hin as [->|Hin]; [|now apply IH].
  assert (G : forall ts m0 word0 p,
            listed m0 word0 p ->
            listed (fold_left (addTokenWord P line (lineContent l)) ts m0)
              word0 p).
  { clear. induction ts as [|t ts IH]; intros m0 word0 p H; [exact H|].
    cbn [fold_left]. now apply IH, addTokenWord_keeps. }
  now apply G, addTokenWord_adds.
Qed.

Lemma wordsOfLines_complete (lines : list Line) : forall line w m0,
  wordToLineNumbersMap (self w) = Some m0 ->
  fst (wordsOfLines P line lines w) = Ok tt ->
  exists m,
    wordToLineNumbersMap (self (snd (wordsOfLines P line lines w))) = Some m /\
    (forall word p, listed m0 word p -> listed m word p) /\
    (forall n l t word,
       nth_error lines n = Some l ->
       String.length (lineContent l) <= MAX_TOKENIZATION_LINE_LEN ->
       In t (lineTokens l) ->
       tokenType t = TokenOther ->
       DEFAULT_WORD_REGEXP_exec P
         (String_substring (lineContent l) (tokenStartOffset t)
            (tokenEndOffset t)) = Some word ->
       listed m word
         (mkPosition (Z.of_nat (line + n)) (Z.of_nat (tokenStartOffset t)))).
Proof.
  induction lines as [|l lines IH]; intros line w m0 Hm Hok.
  - exists m0. split; [exact Hm|]. split; [tauto|].
    intros [|n] ? ? ? H; discriminate H.
  - cbn [wordsOfLines] in *.
    destruct (Nat.ltb_spec MAX_TOKENIZATION_LINE_LEN
                (String.length (lineContent l))) as [Hlong|Hshort].
    + rewrite run_bind_ret in *.
      destruct (IH (S line) w m0 Hm Hok) as (m & H1 & H2 & H3).
      exists m. split; [exact H1|]. split; [exact H2|].
      intros [|n] l0 t word Hn Hlen Hin Hty Hw; cbn in Hn.
      * injection Hn as <-. lia.
      * replace (line + S n) with (S line + n) by lia. eapply H3; eassumption.
    + rewrite bind_bind, run_bind_call in *.
      destruct (faults _ _ _); [discriminate Hok|].
      rewrite run_bind_assign in *.
      match type of Hok with
      | fst (_ _ _ ?w1) = _ =>
          assert (Hm1 : wordToLineNumbersMap (self w1)
                        = Some (addLineWords P line l m0))
      end.
      { cbn [self logged assigned]. now rewrite Hm. }
      destruct (IH (S line) _ _ Hm1 Hok) as (m & H1 & H2 & H3).
      exists m. split; [exact H1|]. split.
      * intros word p H. now apply H2, addLineWords_keeps.
      * intros [|n] l0 t word Hn Hlen Hin Hty Hw; cbn in Hn.
        -- injection Hn as <-. rewrite Nat.add_0_r.
           now apply H2, addLineWords_adds.
        -- replace (line + S n) with (S line + n) by lia.
           eapply H3; eassumption.
Qed.

End WordMapComplete.

(** [getWordToPositionsMap] (lines 491-535), when it builds the map and
    returns normally, lists every occurrence: for each token of type
    [Other] on a line of at most 500 characters, in whose text the word
    regexp finds a word, the map has the token's position under that
    word.  (With C10: the map lists these positions and no others.) *)
Theorem getWordToPositionsMap_complete (P : Platform) (w : World)
  (model : TextModel) (m : WordMap) :
  wordToLineNumbersMap (self w) = None ->
  editor_model (host w) = Some model ->
  fst (getWordToPositionsMap P w) = Ok m ->
  forall word p, wordOccurs P model word p -> listed m word p.
Proof.
  intros Hnone Hmodel Hok word p (n & l & t & Hn & Hline & Hlen & Hin & Hty
                                    & Hcol & Hw).
  unfold getWordToPositionsMap in Hok.
  rewrite run_bind_this, Hnone, run_bind_assign, run_bind_ask in Hok.
  destruct (faults _ _ _); [discriminate Hok|].
  cbn [host logged assigned] in Hok. rewrite Hmodel in Hok.
  match type of Hok with
  | fst (bind (wordsOfLines _ _ _) _ ?w1) = _ =>
      pose proof (@wordsOfLines_complete P (modelLines model) 1 w1 []
                    eq_refl) as Hc;
      destruct (wordsOfLines P 1 (modelLines model) w1) as [o w2] eqn:E
  end.
  unfold bind at 1 in Hok. rewrite E in Hok. cbn [fst snd] in Hc.
  destruct o as [[]|e]; [|discriminate Hok].
  destruct (Hc eq_refl) as (m' & Hm' & _ & Hall).
  rewrite run_bind_this, run_ret, Hm' in Hok. cbn [fst] in Hok.
  injection Hok as <-.
  specialize (Hall n l t word Hn Hlen Hin Hty Hw).
  destruct p as [pl pc]; cbn [lineNumber column] in *. subst pl pc.
  exact Hall.
Qed.

(** The [x] on the second line of [app.js]. *)
Lemma getWordToPositionsMap_complete_witness :
  match
    fst (getWordToPositionsMap Sample.platform
           (newWorld (Sample.stoppedHost None)))
  with
  | Ok m => listed m "x" (mkPosition 2 0)
  | Throw _ => False
  end.
Proof.
  destruct (fst (getWordToPositionsMap Sample.platform
                   (newWorld (Sample.stoppedHost None))))
    as [m|e] eqn:E.
  - refine (@getWordToPositionsMap_complete Sample.platform
              (newWorld (Sample.stoppedHost None)) Sample.model m
              eq_refl eq_refl E "x" (mkPosition 2 0) _).
    exists 1, (mkLine "x" [mkToken 0 1 TokenOther]), (mkToken 0 1 TokenOther).
    repeat split; [apply Nat.leb_le; vm_compute; reflexivity | now left].
  - vm_compute in E. discriminate E.
Defined.

(** ** The debug hover appears after the delay *)

Definition showsDebugHover (c : HostCall) : Prop :=
  match c with
  | HoverWidget_showAt _ _ => True
  | _ => False
  end.

(** The footprint "leaves the hover range and the show scheduler alone and
    does not show the debug hover". *)
Definition sparesShow : Footprint :=
  {| keeps := fun c c' =>
       schedulers c' ShowHover = schedulers c ShowHover /\
       hoverRange c' = hoverRange c;
     allows := fun c => ~ showsDebugHover c;
     counts := True |}.

#[global] Instance sparesShow_tidy : Tidy sparesShow.
Proof.
  split; cbn.
  - now intros c.
  - intros a b c [H1 H2] [H3 H4]. split; congruence.
Qed.

Ltac spares_show :=
  stays_steps;
  lazymatch goal with
  | |- allows _ _ => cbn; tauto
  | |- counts _ => exact I
  | |- keeps _ _ _ => cbn; split; reflexivity
  | |- _ => idtac
  end.

Lemma onTimeout_spares_show (P : Platform) (id : SchedulerId) :
  id <> ShowHover -> stays sparesShow (onTimeout P id).
Proof.
  intros Hid. destruct id; try contradiction; unfold onTimeout; spares_show.
Qed.

(** The debug hover for [r] is due in [ms] milliseconds. *)
Definition showArmed (ms : nat) (r : Range) (w : World) : Prop :=
  hoverRange (self w) = Some r /\
  exists s,
    schedulers (self w) ShowHover = Some s /\
    timeoutToken s = Some ms /\ hasRunner s = true.

Lemma tick_unfold (P : Platform) (w : World) :
  tick P w
  = (onTimeout P ShowHover ;;
     forEach [HideHover; ProvideNonDebugHover; RemoveInlineValues;
              UpdateInlineValues] (onTimeout P)) (elapsed w).
Proof. reflexivity. Qed.

Lemma later_timeouts_spare_show (P : Platform) :
  stays sparesShow
    (forEach [HideHover; ProvideNonDebugHover; RemoveInlineValues;
              UpdateInlineValues] (onTimeout P)).
Proof.
  apply (@stays_forEach_in sparesShow _). intros id Hid.
  apply onTimeout_spares_show. intros ->. in_cases Hid.
Qed.

Lemma tick_show_waits (P : Platform) (n : nat) (r : Range) (w : World) :
  showArmed (S (S n)) r w ->
  showArmed (S n) r (snd (tick P w)) /\
  host (snd (tick P w)) = host w /\
  exists calls,
    trace (snd (tick P w)) = calls ++ trace w /\
    Forall (fun c => ~ showsDebugHover c) calls.
Proof.
  intros (Hr & s & Hs & Ht & Hrun).
  rewrite tick_unfold.
  assert (H1 : onTimeout P ShowHover (elapsed w) = (Ok tt, elapsed w)).
  { unfold onTimeout. rewrite run_bind_this. cbn [self elapsed assigned].
    cbn [schedulers set_schedulers]. rewrite Hs. unfold elapseOne.
    rewrite Ht. reflexivity. }
  rewrite (@bind_ok _ _ _ _ _ tt) by now rewrite H1.
  rewrite H1. cbn [snd].
  destruct (later_timeouts_spare_show P (elapsed w))
    as (Hh & [Hk1 Hk2] & Hcalls & _).
  split; [|split; [exact Hh | exact Hcalls]].
  split; [now rewrite Hk2|].
  exists (mkScheduler (Some (S n)) (hasRunner s)).
  rewrite Hk1. cbn [self elapsed assigned schedulers set_schedulers].
  rewrite Hs. unfold elapseOne. rewrite Ht. now repeat split.
Qed.

Lemma advance_show_waits (P : Platform) (ms n : nat) (r : Range) :
  forall w,
    showArmed (ms + S n) r w ->
    showArmed (S n) r (snd (advance P ms w)) /\
    host (snd (advance P ms w)) = host w /\
    exists calls,
      trace (snd (advance P ms w)) = calls ++ trace w /\
      Forall (fun c => ~ showsDebugHover c) calls.
Proof.
  induction ms as [|ms IH]; intros w H.
  - cbn [advance]. split; [exact H|]. split; [reflexivity|].
    now exists [].
  - rewrite advance_S.
    destruct (@tick_show_waits P (ms + n) r w) as (H1 & Hh1 & c1 & T1 & A1).
    { now replace (S (S (ms + n))) with (S ms + S n) by lia. }
    destruct (IH (snd (tick P w))) as (H2 & Hh2 & c2 & T2 & A2).
    { now replace (ms + S n) with (S (ms + n)) by lia. }
    split; [exact H2|]. split; [congruence|].
    exists (c2 ++ c1). split; [now rewrite T2, T1, app_assoc|].
    apply Forall_app. now split.
Qed.

Lemma tick_show_fires (P : Platform) (r : Range) (w : World)
  (f : StackFrame) (model : TextModel) :
  showArmed 1 r w ->
  quiet (host w) ->
  focusedStackFrame (host w) = Some f ->
  editor_model (host w) = Some model ->
  sourceUri (source (frame f)) = uri model ->
  exists calls,
    trace (snd (tick P w)) = calls ++ trace w /\
    In (HoverWidget_showAt r false) calls.
Proof.
  intros (Hr & s & Hs & Ht & Hrun) Q Hf Hm Hu.
  rewrite tick_unfold.
  destruct (onTimeout P ShowHover (elapsed w)) as [o w1] eqn:E.
  assert (H1 : o = Ok tt /\
               trace w1 = [HoverWidget_showAt r false; Editor_getModel;
                           ViewModel_focusedStackFrame] ++ trace w).
  { unfold onTimeout in E. rewrite run_bind_this in E.
    cbn [self elapsed assigned schedulers set_schedulers] in E.
    rewrite Hs in E. unfold elapseOne in E. rewrite Ht in E.
    cbn [timeoutToken hasRunner] in E. rewrite Hrun in E.
    rewrite run_bind_assign in E. unfold when, runner in E.
    unfold detach at 1 in E. rewrite run_bind_this in E.
    cbn [self elapsed assigned hoverRange set_scheduler set_schedulers] in E.
    rewrite Hr in E. unfold detach, showHover in E.
    rewrite !run_bind_ask in E. cbn [host assigned logged elapsed] in E.
    rewrite !Q, Hf, Hm, Hu, String.eqb_refl, run_call in E.
    cbn [host assigned logged elapsed] in E. rewrite Q in E.
    apply pair_equal_spec in E. destruct E as [<- <-].
    split; reflexivity. }
  destruct H1 as [-> T1]. unfold bind. rewrite E.
  destruct (later_timeouts_spare_show P w1) as (_ & _ & (c2 & T2 & _) & _).
  exists (c2 ++ [HoverWidget_showAt r false; Editor_getModel;
                 ViewModel_focusedStackFrame]).
  split; [now rewrite T2, T1, app_assoc|].
  apply in_or_app. right. now left.
Qed.

(** The show scheduler, if it exists, has not been disposed. *)
Definition showRunnerSet (w : World) : Prop :=
  forall s, schedulers (self w) ShowHover = Some s -> hasRunner s = true.

Lemma mouse_move_arms_show (P : Platform) (mouseEvent : EditorMouseEvent)
  (r : Range) (w : World) :
  debug_state (host w) = Stopped ->
  quiet (host w) ->
  targetType (target mouseEvent) = CONTENT_TEXT ->
  targetRange (target mouseEvent) = Some r ->
  Range_equalsRange P r (hoverRange (self w)) = false ->
  showRunnerSet w ->
  showArmed HOVER_DELAY r (snd (onEditorMouseMove P mouseEvent w)) /\
  host (snd (onEditorMouseMove P mouseEvent w)) = host w.
Proof.
  intros Hstate Q Htype Hrange Hnew Hrun.
  destruct (onEditorMouseMove P mouseEvent w) as [o w'] eqn:E.
  cbn [snd]. unfold onEditorMouseMove, isDebugHoverTarget in E.
  rewrite Htype, Hrange in E.
  run_quiet_in Q E; try congruence; lsimpl;
    rewrite ?Hnew in *; cbn [andb negb] in *; try discriminate.
  all: split; [|reflexivity].
  all: split; [reflexivity|].
  all: eexists; split; [reflexivity|]; split; [reflexivity|].
  all: cbn [hasRunner RunOnceScheduler_schedule RunOnceScheduler_new];
    first [reflexivity | apply Hrun; assumption].
Qed.

(** In a stopped session whose focused frame lies in the file the editor
    shows, on a host that raises nothing: when the mouse moves onto a
    range [r] of the text other than the one the hover is scheduled for,
    and nothing else happens, the debug hover is not shown during the
    next [HOVER_DELAY] - 1 = 299 ms, and after [HOVER_DELAY] = 300 ms it
    has been shown at [r], without focus (lines 38, 148-154, 170-180,
    241-245). *)
Theorem hover_shown_after_delay (P : Platform)
  (mouseEvent : EditorMouseEvent) (r : Range) (w : World)
  (f : StackFrame) (model : TextModel) :
  debug_state (host w) = Stopped ->
  quiet (host w) ->
  focusedStackFrame (host w) = Some f ->
  editor_model (host w) = Some model ->
  sourceUri (source (frame f)) = uri model ->
  targetType (target mouseEvent) = CONTENT_TEXT ->
  targetRange (target mouseEvent) = Some r ->
  Range_equalsRange P r (hoverRange (self w)) = false ->
  showRunnerSet w ->
  let w1 := snd (onEditorMouseMove P mouseEvent w) in
  (forall ms, ms < HOVER_DELAY ->
     Forall (fun c => ~ showsDebugHover c)
       (newCalls w1 (snd (advance P ms w1)))) /\
  In (HoverWidget_showAt r false)
    (newCalls w1 (snd (advance P HOVER_DELAY w1))).
Proof.
  intros Hstate Q Hf Hm Hu Htype Hrange Hnew Hrun w1.
  destruct (@mouse_move_arms_show P mouseEvent r w Hstate Q Htype Hrange
              Hnew Hrun) as [Harmed Hh].
  fold w1 in Harmed, Hh. unfold HOVER_DELAY in *. split.
  - intros ms Hms.
    destruct (@advance_show_waits P ms (299 - ms) r w1)
      as (_ & _ & calls & T & A).
    { now replace (ms + S (299 - ms)) with 300 by lia. }
    now rewrite (@newCalls_app _ _ _ T).
  - destruct (@advance_show_waits P 299 0 r w1 Harmed)
      as (H1 & Hh1 & c1 & T1 & _).
    change 300 with (299 + 1). rewrite advance_add.
    set (w2 := snd (advance P 299 w1)) in *.
    destruct (@tick_show_fires P r w2 f model H1) as (c2 & T2 & Hin).
    + now rewrite Hh1, Hh.
    + now rewrite Hh1, Hh.
    + now rewrite Hh1, Hh.
    + exact Hu.
    + assert (Ht : snd (advance P 1 w2) = snd (tick P w2)).
      { cbn [advance]. unfold bind.
        now destruct (tick P w2) as [[[]|e] w3]. }
      rewrite Ht.
      rewrite (@newCalls_app _ _ (c2 ++ c1)).
      * apply in_or_app. now left.
      * now rewrite T2, T1, app_assoc.
Qed.

(** The mouse comes to rest on [x] in a session stopped in [app.js]. *)
Lemma hover_shown_after_delay_witness :
  let w1 := snd (onEditorMouseMove Sample.platform Scene.overX
                   (Sample.stoppedWorld None)) in
  In (HoverWidget_showAt (mkRange 1 5 1 6) false)
    (newCalls w1 (snd (advance Sample.platform HOVER_DELAY w1))).
Proof.
  refine (proj2 (@hover_shown_after_delay Sample.platform Scene.overX
                   (mkRange 1 5 1 6) (Sample.stoppedWorld None)
                   (mkStackFrame Sample.topFrame (Sample.stoppedThread None))
                   Sample.model _ _ _ _ _ _ _ _ _)).
  - vm_compute. reflexivity.
  - intros n c. vm_compute. reflexivity.
  - vm_compute. reflexivity.
  - vm_compute. reflexivity.
  - reflexivity.
  - reflexivity.
  - reflexivity.
  - vm_compute. reflexivity.
  - intros s Hs. vm_compute in Hs. discriminate Hs.
Defined.
